(** * Extension ingestion core of the visual-novel studio

    A shallow embedding of the security layer ([SecurityService]), the
    object store wrapper ([DatabaseService]), the extension ingestion
    pipeline ([AvatarsService]) and the saving of characters
    ([CharacterEffects] with [ValidationService.validateCharacter]),
    followed by the properties established about them.

    Conventions of the embedding.
    - A JavaScript string is a [string]: a sequence of code units, here
      restricted to the code units below 256.
    - A JavaScript number is a [Z]; the code only compares, counts and
      copies numbers.
    - A thrown [Error] is the constructor [Throw] carrying its message.
    - Mutable service state (the [lastIndex] of the global regular
      expressions, the rate-limit map, the object stores) is passed
      explicitly. *)

From Stdlib Require Import ZArith Ascii String List Bool Lia DecimalString Sorted.
From Stdlib Require OrdersEx.
From stdpp Require Import gmap strings.
Import ListNotations.

#[local] Set Warnings "-register-all,-abstract-large-number".
Local Open Scope string_scope.
Local Open Scope list_scope.

(** ** JavaScript values *)

Module JS.

(** The values that reach the services: JSON data, [undefined], and
    [Blob]/[File] host objects (which have no own enumerable
    property). *)
Inductive value : Type :=
| VUndefined
| VNull
| VBool (b : bool)
| VNum (n : Z)
| VStr (s : string)
| VArr (items : list value)
| VObj (props : list (string * value))
| VBlob (size : Z) (type : string).

Inductive jstype := TUndefined | TObject | TBoolean | TNumber | TString.

Definition typeof (v : value) : jstype :=
  match v with
  | VUndefined => TUndefined
  | VNull | VArr _ | VObj _ | VBlob _ _ => TObject
  | VBool _ => TBoolean
  | VNum _ => TNumber
  | VStr _ => TString
  end.

Definition is_string (v : value) : bool :=
  match v with VStr _ => true | _ => false end.

Definition is_object (v : value) : bool :=
  match typeof v with TObject => true | _ => false end.

(** [ToBoolean]. *)
Definition truthy (v : value) : bool :=
  match v with
  | VUndefined | VNull => false
  | VBool b => b
  | VNum n => negb (n =? 0)%Z
  | VStr s => negb (s =? "")
  | VArr _ | VObj _ | VBlob _ _ => true
  end.

(** Own data properties of an object literal, in enumeration order. *)
Fixpoint lookup_prop (k : string) (props : list (string * value)) : option value :=
  match props with
  | [] => None
  | (k', v) :: rest => if k =? k' then Some v else lookup_prop k rest
  end.

(** [o[k]] for the property names the services read ([key],
    [description], [images], [type], [source], [name]); none of them is
    inherited from a prototype. *)
Definition get (o : value) (k : string) : value :=
  match o with
  | VObj props => match lookup_prop k props with Some v => v | None => VUndefined end
  | _ => VUndefined
  end.

(** [o[k] = v] on an object under construction. *)
Fixpoint set_prop (k : string) (v : value) (props : list (string * value))
  : list (string * value) :=
  match props with
  | [] => [(k, v)]
  | (k', v') :: rest =>
      if k =? k' then (k', v) :: rest else (k', v') :: set_prop k v rest
  end.

(** [delete o[k]]. *)
Fixpoint delete_prop (k : string) (props : list (string * value))
  : list (string * value) :=
  match props with
  | [] => []
  | (k', v') :: rest =>
      if k =? k' then delete_prop k rest else (k', v') :: delete_prop k rest
  end.

(** Strict equality on keys and deep equality on data. *)
Fixpoint value_eqb (a b : value) {struct a} : bool :=
  match a, b with
  | VUndefined, VUndefined => true
  | VNull, VNull => true
  | VBool x, VBool y => Bool.eqb x y
  | VNum x, VNum y => (x =? y)%Z
  | VStr x, VStr y => (x =? y)
  | VArr xs, VArr ys =>
      (fix go (xs ys : list value) {struct xs} : bool :=
         match xs, ys with
         | [], [] => true
         | x :: xs', y :: ys' => value_eqb x y && go xs' ys'
         | _, _ => false
         end) xs ys
  | VObj ps, VObj qs =>
      (fix go (ps qs : list (string * value)) {struct ps} : bool :=
         match ps, qs with
         | [], [] => true
         | (k, x) :: ps', (k', y) :: qs' => (k =? k') && value_eqb x y && go ps' qs'
         | _, _ => false
         end) ps qs
  | VBlob s t, VBlob s' t' => (s =? s')%Z && (t =? t')
  | _, _ => false
  end.

(** The values [JSON.parse] produces: no [undefined], no host object. *)
Fixpoint is_json (v : value) : bool :=
  match v with
  | VUndefined | VBlob _ _ => false
  | VNull | VBool _ | VNum _ | VStr _ => true
  | VArr items => forallb is_json items
  | VObj props => forallb (fun kv => is_json (snd kv)) props
  end.

(** [String.prototype.toLowerCase] on code units below 256. *)
Definition lower_ascii (c : ascii) : ascii :=
  let n := nat_of_ascii c in
  if (((65 <=? n) && (n <=? 90)) || ((192 <=? n) && (n <=? 214))
      || ((216 <=? n) && (n <=? 222)))%nat
  then ascii_of_nat (n + 32) else c.

Fixpoint toLowerCase (s : string) : string :=
  match s with
  | EmptyString => EmptyString
  | String c r => String (lower_ascii c) (toLowerCase r)
  end.

Fixpoint startsWith (s p : string) : bool :=
  match p, s with
  | EmptyString, _ => true
  | String c p', String d s' => Ascii.eqb c d && startsWith s' p'
  | String _ _, EmptyString => false
  end.

(** [String.prototype.includes]. *)
Fixpoint str_includes (s p : string) : bool :=
  startsWith s p ||
  match s with
  | EmptyString => false
  | String _ s' => str_includes s' p
  end.

(** [Array.prototype.includes] on an array of strings. *)
Definition includes (l : list string) (s : string) : bool :=
  existsb (String.eqb s) l.

(** [Array.prototype.join]. *)
Fixpoint join (sep : string) (l : list string) : string :=
  match l with
  | [] => ""
  | [x] => x
  | x :: rest => x +:+ sep +:+ join sep rest
  end.

(** Template interpolation of a non-negative integer. *)
Definition show_nat (n : nat) : string := NilZero.string_of_uint (Nat.to_uint n).

Definition show_Z (z : Z) : string := NilZero.string_of_int (Z.to_int z).

(** The outcome of a call that may throw. *)
Inductive Res (A : Type) : Type :=
| Ok (a : A)
| Throw (message : string).
Arguments Ok {A} a.
Arguments Throw {A} message.

Definition is_ok {A} (r : Res A) : bool :=
  match r with Ok _ => true | Throw _ => false end.

End JS.
Export JS.

(** ** Regular expressions

    A backtracking matcher with the priorities of the ECMAScript
    semantics: alternatives left to right, greedy quantifiers longest
    first, lazy ones shortest first, and no empty iteration of a
    quantifier. The patterns of the services use neither anchors nor
    look-around nor back-references, so matching at an index is matching
    the suffix that starts there. *)

Module Regex.

Inductive regex : Type :=
| Eps
| Chr (p : ascii -> bool)
| Seq (a b : regex)
| Alt (a b : regex)
| Star (greedy : bool) (a : regex).

Definition orelse {A} (x : option A) (y : unit -> option A) : option A :=
  match x with Some _ => x | None => y tt end.

(** [rmatch r s k]: match [r] as a prefix of [s], then the
    continuation [k] on the rest; the first success in priority
    order. *)
Fixpoint rmatch (r : regex) (s : list ascii)
         (k : list ascii -> option (list ascii)) {struct r} : option (list ascii) :=
  match r with
  | Eps => k s
  | Chr p => match s with
             | c :: s' => if p c then k s' else None
             | [] => None
             end
  | Seq a b => rmatch a s (fun s' => rmatch b s' k)
  | Alt a b => orelse (rmatch a s k) (fun _ => rmatch b s k)
  | Star g a =>
      (fix loop (n : nat) (s : list ascii) {struct n} : option (list ascii) :=
         match n with
         | O => k s
         | S n' =>
             let again := fun _ : unit =>
               rmatch a s (fun s' =>
                 if (List.length s' <? List.length s)%nat then loop n' s' else None) in
             if g then orelse (again tt) (fun _ => k s)
             else orelse (k s) again
         end) (List.length s) s
  end.

(** Number of code units matched at the start of [s]. *)
Definition match_here (r : regex) (s : list ascii) : option nat :=
  match rmatch r s Some with
  | Some rest => Some (List.length s - List.length rest)%nat
  | None => None
  end.

(** Leftmost match in [s]: start offset and length. *)
Fixpoint search (r : regex) (s : list ascii) : option (nat * nat) :=
  match match_here r s with
  | Some len => Some (O, len)
  | None =>
      match s with
      | [] => None
      | _ :: s' =>
          match search r s' with
          | Some (i, len) => Some (S i, len)
          | None => None
          end
      end
  end.

(** [RegExp.prototype.test] on a regular expression with the [g]
    flag: the search starts at [lastIndex], which is left at the end of
    the match, or reset to 0 when there is none. *)
Definition test (r : regex) (lastIndex : nat) (s : list ascii) : bool * nat :=
  if (List.length s <? lastIndex)%nat then (false, O)
  else match search r (skipn lastIndex s) with
       | Some (i, len) => (true, lastIndex + i + len)%nat
       | None => (false, O)
       end.

(** [RegExp.prototype.test] without the [g] flag. *)
Definition test_once (r : regex) (s : list ascii) : bool :=
  match search r s with Some _ => true | None => false end.

(** [String.prototype.replace] with a [g] regular expression and a
    constant replacement. *)
Fixpoint replace_fuel (fuel : nat) (r : regex) (rep s : list ascii) : list ascii :=
  match fuel with
  | O => s
  | S fuel' =>
      match match_here r s with
      | Some (S len) => rep ++ replace_fuel fuel' r rep (skipn (S len) s)
      | Some O =>
          rep ++ match s with
                 | [] => []
                 | c :: s' => c :: replace_fuel fuel' r rep s'
                 end
      | None =>
          match s with
          | [] => []
          | c :: s' => c :: replace_fuel fuel' r rep s'
          end
      end
  end.

Definition replace (r : regex) (rep : string) (s : string) : string :=
  string_of_list_ascii
    (replace_fuel (S (String.length s)) r (list_ascii_of_string rep)
                  (list_ascii_of_string s)).

(** *** Pattern syntax *)

Definition upper_ascii (c : ascii) : ascii :=
  let n := nat_of_ascii c in
  if ((97 <=? n) && (n <=? 122))%nat then ascii_of_nat (n - 32) else c.

(** A literal character under the [i] flag. *)
Definition ci (c : ascii) : regex :=
  Chr (fun d => Ascii.eqb (upper_ascii d) (upper_ascii c)).

(** A literal word under the [i] flag. *)
Fixpoint lit (s : string) : regex :=
  match s with
  | EmptyString => Eps
  | String c EmptyString => ci c
  | String c r => Seq (ci c) (lit r)
  end.

Definition is_line_terminator (c : ascii) : bool :=
  let n := nat_of_ascii c in ((n =? 10) || (n =? 13))%nat.

(** [.] *)
Definition dot : regex := Chr (fun c => negb (is_line_terminator c)).

(** [\w] *)
Definition is_word (c : ascii) : bool :=
  let n := nat_of_ascii c in
  (((97 <=? n) && (n <=? 122)) || ((65 <=? n) && (n <=? 90))
   || ((48 <=? n) && (n <=? 57)) || (n =? 95))%nat.
Definition word : regex := Chr is_word.

(** [\s] *)
Definition is_space (c : ascii) : bool :=
  let n := nat_of_ascii c in
  (((9 <=? n) && (n <=? 13)) || (n =? 32) || (n =? 160))%nat.
Definition space : regex := Chr is_space.

(** [[^...]] *)
Definition none_of (cs : string) : regex :=
  Chr (fun c => negb (existsb (Ascii.eqb c) (list_ascii_of_string cs))).

(** [[...]] *)
Definition one_of (cs : string) : regex :=
  Chr (fun c => existsb (Ascii.eqb c) (list_ascii_of_string cs)).

Definition star (a : regex) : regex := Star true a.
Definition lazy_star (a : regex) : regex := Star false a.
Definition plus (a : regex) : regex := Seq a (Star true a).

Fixpoint seqs (l : list regex) : regex :=
  match l with
  | [] => Eps
  | [a] => a
  | a :: rest => Seq a (seqs rest)
  end.

Fixpoint alts (a : regex) (l : list regex) : regex :=
  match l with
  | [] => a
  | b :: rest => Alt a (alts b rest)
  end.

End Regex.

(** ** Platform services consumed by the code

    The URL parser, the JSON parser and the HTTP client are the
    browser's; the embedding takes them as an environment. *)

Module Platform.

(** The two fields of a parsed [URL] the code reads. *)
Record URL := { protocol : string; hostname : string }.

Inductive HttpResponse (A : Type) : Type :=
| HttpOk (body : A)
| HttpError (status : Z).
Arguments HttpOk {A} body.
Arguments HttpError {A} status.

(** A [File]: a [Blob] with a name; [text] is what [readAsText]
    delivers. *)
Record File := { name : string; size : Z; type : string; text : string }.

Record Env := {
  (** [new URL(s)]; [None] when the constructor throws. *)
  parseURL : string -> option URL;
  (** [JSON.parse(s)]; [None] when it throws. *)
  JSON_parse : string -> option value;
  (** [HttpClient.get(url)] with a JSON body. *)
  http_get : string -> HttpResponse value;
  (** [HttpClient.get(url, { responseType: "blob" })]: size and type. *)
  http_get_blob : string -> HttpResponse (Z * string)
}.

End Platform.
Export Platform.

(** ** SecurityService *)

Module SecurityService.
Import Regex.

Record ValidationResult := {
  isValid : bool;
  errors : list string;
  sanitizedValue : option value
}.

Definition invalid (errs : list string) : ValidationResult :=
  {| isValid := false; errors := errs; sanitizedValue := None |}.

Definition valid : ValidationResult :=
  {| isValid := true; errors := []; sanitizedValue := None |}.

Definition valid_with (v : value) : ValidationResult :=
  {| isValid := true; errors := []; sanitizedValue := Some v |}.

(** [<tag[^>]*>.*?</tag>] *)
Definition paired_tag (tag : string) : regex :=
  seqs [lit ("<" +:+ tag); star (none_of ">"); lit ">"; lazy_star dot;
        lit ("</" +:+ tag +:+ ">")].

(** [<tag[^>]*>] *)
Definition open_tag (tag : string) : regex :=
  seqs [lit ("<" +:+ tag); star (none_of ">"); lit ">"].

Definition XSS_PATTERNS : list regex :=
  [ paired_tag "script";
    paired_tag "iframe";
    paired_tag "object";
    open_tag "embed";
    open_tag "link";
    open_tag "meta";
    lit "javascript:";
    lit "vbscript:";
    lit "data:text/html";
    seqs [lit "on"; plus word; star space; lit "="] ].

Definition backslash : string := String (ascii_of_nat 92) EmptyString.
Definition dquote : string := String (ascii_of_nat 34) EmptyString.
Definition quotes : string := dquote +:+ "'".

(** The attribute pattern: optional spaces, then [on\w+], [href] or
    [src], then [=] between optional spaces, then a quoted run of
    non-quote characters (either quote character opens and closes). *)
Definition ATTRIBUTE_PATTERN : regex :=
  seqs [ star space;
         alts (Seq (lit "on") (plus word)) [lit "href"; lit "src"];
         star space; lit "="; star space;
         one_of quotes; star (none_of quotes); one_of quotes ].

Definition INJECTION_PATTERNS : list regex :=
  [ (* a quote, backslash-quote, semicolon or backslash-semicolon (the
       first group), or a bar, a star, %27, %3B or a plus sign *)
    alts (alts (lit "'") [lit (backslash +:+ "'"); lit ";"; lit (backslash +:+ ";")])
         [lit "|"; lit "*"; lit "%27"; lit "%3B"; lit "+"];
    (* exec, then spaces or plus signs, then sp or xp and a word *)
    seqs [lit "exec"; plus (Alt space (lit "+")); Alt (lit "s") (lit "x");
          lit "p"; plus word];
    seqs [lit "union"; star dot; lit "select"];
    seqs [lit "insert"; star dot; lit "into"];
    seqs [lit "delete"; star dot; lit "from"];
    seqs [lit "update"; star dot; lit "set"];
    seqs [lit "drop"; star dot; lit "table"] ].

Definition DANGEROUS_KEYS : list string :=
  [ "__proto__"; "constructor"; "prototype";
    "__defineGetter__"; "__defineSetter__";
    "__lookupGetter__"; "__lookupSetter__";
    "toString"; "valueOf"; "hasOwnProperty" ].

Definition ALLOWED_FILE_EXTENSIONS : list string :=
  [ ".json"; ".png"; ".jpg"; ".jpeg"; ".gif"; ".webp"; ".svg";
    ".mp3"; ".wav"; ".ogg"; ".txt"; ".md" ].

Definition MAX_FILE_SIZE : Z := 10 * 1024 * 1024.
Definition MAX_STRING_LENGTH : nat := 10000.
Definition MAX_ARRAY_LENGTH : nat := 1000.
Definition MAX_OBJECT_DEPTH : nat := 10.

(** The [lastIndex] of each of the [INJECTION_PATTERNS], which carry
    the [g] flag and are shared by all calls. *)
Definition RegexState := list nat.

Definition fresh_regex_state : RegexState := [0; 0; 0; 0; 0; 0; 0]%nat.

Definition sanitizeHtml (html : value) : string :=
  match html with
  | VStr s =>
      if s =? "" then ""
      else
        let sanitized := fold_left (fun acc pattern => replace pattern "" acc) XSS_PATTERNS s in
        let sanitized := replace ATTRIBUTE_PATTERN "" sanitized in
        let sanitized := replace (lit "&") "&amp;" sanitized in
        let sanitized := replace (lit "<") "&lt;" sanitized in
        let sanitized := replace (lit ">") "&gt;" sanitized in
        let sanitized := replace (lit dquote) "&quot;" sanitized in
        let sanitized := replace (lit "'") "&#x27;" sanitized in
        let sanitized := replace (lit "/") "&#x2F;" sanitized in
        sanitized
  | _ => ""
  end.

(** [patterns.some(pattern => pattern.test(value))]: the patterns are
    tried in order until one matches; each one tried updates its own
    [lastIndex]. *)
Fixpoint some_test (patterns : list regex) (st : RegexState) (s : list ascii)
  : bool * RegexState :=
  match patterns with
  | [] => (false, st)
  | pattern :: rest =>
      let '(found, lastIndex) := test pattern (hd O st) s in
      if found then (true, lastIndex :: tl st)
      else let '(found', st') := some_test rest (tl st) s in
           (found', lastIndex :: st')
  end.

Definition validateString (value : value) (maxLength : nat) (st : RegexState)
  : ValidationResult * RegexState :=
  match value with
  | VNull | VUndefined => (invalid ["Value cannot be null or undefined"], st)
  | VStr s =>
      if (maxLength <? String.length s)%nat then
        (invalid ["String exceeds maximum length of " +:+ show_nat maxLength +:+ " characters"], st)
      else
        let '(hasInjectionPattern, st') :=
          some_test INJECTION_PATTERNS st (list_ascii_of_string s) in
        if hasInjectionPattern then
          (invalid ["String contains potentially malicious content"], st')
        else
          (valid_with (VStr (sanitizeHtml value)), st')
  | _ => (invalid ["Value must be a string"], st)
  end.

Definition is_dangerous (key : string) : bool :=
  includes DANGEROUS_KEYS (toLowerCase key).

(** [Object.keys]. *)
Definition Object_keys (obj : value) : list string :=
  match obj with
  | VObj props => map fst props
  | VArr items => map show_nat (seq 0 (List.length items))
  | _ => []
  end.

(** [Object.entries]. *)
Definition Object_entries (obj : value) : list (string * value) :=
  match obj with
  | VObj props => props
  | VArr items => combine (map show_nat (seq 0 (List.length items))) items
  | _ => []
  end.

Definition validateObjectKeys (obj : value) : ValidationResult :=
  if negb (is_object obj) || negb (truthy obj) then
    invalid ["Value must be a valid object"]
  else
    let errors :=
      flat_map (fun key =>
                  if is_dangerous key
                  then ["Dangerous key '" +:+ key +:+ "' is not allowed"]
                  else [])
               (Object_keys obj) in
    match errors with
    | [] => valid
    | _ => invalid errors
    end.

(** [items.map(item => sanitize(item))], where [sanitize] may throw. *)
Definition map_items (sanitize : value -> RegexState -> Res value * RegexState)
  : list value -> RegexState -> Res (list value) * RegexState :=
  fix go (items : list value) (st : RegexState) {struct items} :=
    match items with
    | [] => (Ok [], st)
    | item :: rest =>
        match sanitize item st with
        | (Ok item', st1) =>
            match go rest st1 with
            | (Ok rest', st2) => (Ok (item' :: rest'), st2)
            | (Throw e, st2) => (Throw e, st2)
            end
        | (Throw e, st1) => (Throw e, st1)
        end
    end.

(** The loop over [Object.entries(obj)]: a dangerous key is skipped, and
    so is a property whose value makes [sanitize] throw. *)
Definition each_entry (sanitize : value -> RegexState -> Res value * RegexState)
  : list (string * value) -> list (string * value) -> RegexState
    -> list (string * value) * RegexState :=
  fix go (entries sanitizedObj : list (string * value)) (st : RegexState) {struct entries} :=
    match entries with
    | [] => (sanitizedObj, st)
    | (key, value) :: rest =>
        if is_dangerous key then go rest sanitizedObj st
        else
          match sanitize value st with
          | (Ok value', st1) => go rest (set_prop key value' sanitizedObj) st1
          | (Throw _, st1) => go rest sanitizedObj st1
          end
    end.

Fixpoint sanitizeObject (obj : value) (depth : nat) (st : RegexState) {struct obj}
  : Res value * RegexState :=
  if (MAX_OBJECT_DEPTH <? depth)%nat then
    (Throw ("Object depth exceeds maximum allowed depth of " +:+ show_nat MAX_OBJECT_DEPTH), st)
  else
    match obj with
    | VNull | VUndefined => (Ok obj, st)
    | VArr items =>
        if (MAX_ARRAY_LENGTH <? List.length items)%nat then
          (Throw ("Array length exceeds maximum allowed length of "
                  +:+ show_nat MAX_ARRAY_LENGTH), st)
        else
          match map_items (fun item => sanitizeObject item (S depth)) items st with
          | (Ok items', st') => (Ok (VArr items'), st')
          | (Throw e, st') => (Throw e, st')
          end
    | VStr _ =>
        let '(result, st') := validateString obj MAX_STRING_LENGTH st in
        if isValid result then
          (Ok (match sanitizedValue result with Some v => v | None => VUndefined end), st')
        else (Throw ("Invalid string: " +:+ join ", " (errors result)), st')
    | VObj props =>
        let keyValidation := validateObjectKeys obj in
        if negb (isValid keyValidation) then
          (Throw ("Invalid object keys: " +:+ join ", " (errors keyValidation)), st)
        else
          let '(sanitizedObj, st') :=
            each_entry (fun value => sanitizeObject value (S depth)) props [] st in
          (Ok (VObj sanitizedObj), st')
    | VBlob _ _ =>
        (* typeof 'object' with no own enumerable property *)
        (Ok (VObj []), st)
    | VBool _ | VNum _ => (Ok obj, st)
    end.

(** [file.name.split('.').pop()]: the part after the last dot, or the
    whole name when there is none. *)
Fixpoint last_segment (acc : string) (s : string) : string :=
  match s with
  | EmptyString => acc
  | String c r =>
      if Ascii.eqb c "."%char then last_segment r r
      else last_segment acc r
  end.

Definition mimeExtensionMap : list (string * list string) :=
  [ (".json", ["application/json"; "text/json"]);
    (".png", ["image/png"]);
    (".jpg", ["image/jpeg"]);
    (".jpeg", ["image/jpeg"]);
    (".gif", ["image/gif"]);
    (".webp", ["image/webp"]);
    (".svg", ["image/svg+xml"]);
    (".mp3", ["audio/mpeg"]);
    (".wav", ["audio/wav"]);
    (".ogg", ["audio/ogg"]);
    (".txt", ["text/plain"]);
    (".md", ["text/markdown"; "text/plain"]) ].

Fixpoint assoc {A} (k : string) (l : list (string * A)) : option A :=
  match l with
  | [] => None
  | (k', a) :: rest => if k =? k' then Some a else assoc k rest
  end.

Definition validateMimeType (mimeType extension : string) : bool :=
  match assoc extension mimeExtensionMap with
  | None => false
  | Some allowedMimeTypes => includes allowedMimeTypes mimeType
  end.

(** [None] stands for an argument that is not a [File]. *)
Definition validateFile (file : option File) : ValidationResult :=
  match file with
  | None => invalid ["Invalid file object"]
  | Some file =>
      let extension := "." +:+ toLowerCase (last_segment (name file) (name file)) in
      let errors :=
        (if (MAX_FILE_SIZE <? size file)%Z
         then ["File size (" +:+ show_Z (size file)
               +:+ " bytes) exceeds maximum allowed size ("
               +:+ show_Z MAX_FILE_SIZE +:+ " bytes)"]
         else [])
        ++ (if negb (includes ALLOWED_FILE_EXTENSIONS extension)
            then ["File extension '" +:+ extension +:+ "' is not allowed"]
            else [])
        ++ (if existsb (fun key => str_includes (toLowerCase (name file)) key) DANGEROUS_KEYS
            then ["File name contains dangerous keywords"]
            else [])
        ++ (if negb (validateMimeType (type file) extension)
            then ["File MIME type does not match extension"]
            else []) in
      match errors with
      | [] => valid
      | _ => invalid errors
      end
  end.

(** The patterns of [validateUrl]; they carry no [g] flag. *)
Definition dangerousPatterns : list regex :=
  [ lit "javascript:"; lit "data:"; lit "vbscript:"; lit "file:"; lit "ftp:" ].

Definition is_local_host (hostname : string) : bool :=
  (hostname =? "localhost")
  || (hostname =? "127.0.0.1")
  || startsWith hostname "192.168."
  || startsWith hostname "10."
  || startsWith hostname "172.".

Definition LOCAL_IP_ERROR : string := "Local/private IP addresses are not allowed".

Section WithEnv.
Variable env : Env.

Definition validateUrl (url : value) : ValidationResult :=
  match url with
  | VStr s =>
      if s =? "" then invalid ["URL must be a non-empty string"]
      else
        let errors :=
          match parseURL env s with
          | Some urlObj =>
              (if negb (includes ["http:"; "https:"] (protocol urlObj))
               then ["Protocol '" +:+ protocol urlObj +:+ "' is not allowed"]
               else [])
              ++ (if existsb (fun pattern => test_once pattern (list_ascii_of_string s))
                             dangerousPatterns
                  then ["URL contains dangerous patterns"]
                  else [])
              ++ (if is_local_host (hostname urlObj) then [LOCAL_IP_ERROR] else [])
          | None => ["Invalid URL format"]
          end in
        match errors with
        | [] => valid
        | _ => invalid errors
        end
  | _ => invalid ["URL must be a non-empty string"]
  end.

(** The checks of one entry of [manifest.images]. *)
Definition validateImage (image : value) (index : nat) : list string :=
  if negb (truthy image) || negb (is_object image) then
    ["Image at index " +:+ show_nat index +:+ " must be an object"]
  else
    (if negb (truthy (get image "key")) || negb (is_string (get image "key"))
     then ["Image at index " +:+ show_nat index +:+ " missing valid key"]
     else [])
    ++ (if negb (truthy (get image "type"))
           || negb (value_eqb (get image "type") (VStr "url")
                    || value_eqb (get image "type") (VStr "local"))
        then ["Image at index " +:+ show_nat index +:+ " must have type 'url' or 'local'"]
        else [])
    ++ (if value_eqb (get image "type") (VStr "url") && truthy (get image "source")
        then
          let urlValidation := validateUrl (get image "source") in
          if negb (isValid urlValidation)
          then ["Image at index " +:+ show_nat index +:+ " has invalid URL: "
                +:+ join ", " (errors urlValidation)]
          else []
        else [])
    ++ (if value_eqb (get image "type") (VStr "local")
           && (negb (truthy (get image "name")) || negb (is_string (get image "name")))
        then ["Local image at index " +:+ show_nat index +:+ " must have a valid name"]
        else []).

Fixpoint validateImages (images : list value) (index : nat) : list string :=
  match images with
  | [] => []
  | image :: rest => validateImage image index ++ validateImages rest (S index)
  end.

Definition validateAvatarManifest (manifest : value) (st : RegexState)
  : ValidationResult * RegexState :=
  if negb (truthy manifest) || negb (is_object manifest) then
    (invalid ["Manifest must be a valid object"], st)
  else
    let required :=
      flat_map (fun field =>
                  if negb (truthy (get manifest field))
                     || negb (is_string (get manifest field))
                  then ["Required field '" +:+ field +:+ "' is missing or invalid"]
                  else [])
               ["key"; "description"] in
    let '(keyErrors, st1) :=
      if truthy (get manifest "key") then
        let '(keyValidation, st') := validateString (get manifest "key") 64 st in
        (if negb (isValid keyValidation)
         then ["Manifest key validation failed: " +:+ join ", " (errors keyValidation)]
         else [], st')
      else ([], st) in
    let '(descErrors, st2) :=
      if truthy (get manifest "description") then
        let '(descValidation, st') := validateString (get manifest "description") 500 st1 in
        (if negb (isValid descValidation)
         then ["Manifest description validation failed: "
               +:+ join ", " (errors descValidation)]
         else [], st')
      else ([], st1) in
    let imageErrors :=
      if truthy (get manifest "images") then
        match get manifest "images" with
        | VArr images =>
            if (50 <? List.length images)%nat
            then ["Too many images in manifest (maximum 50 allowed)"]
            else validateImages images 0
        | _ => ["Images must be an array"]
        end
      else [] in
    match required ++ keyErrors ++ descErrors ++ imageErrors with
    | [] =>
        match sanitizeObject manifest 0 st2 with
        | (Ok sanitizedManifest, st3) => (valid_with sanitizedManifest, st3)
        | (Throw message, st3) =>
            (invalid ["Manifest sanitization failed: " +:+ message], st3)
        end
    | errors => (invalid errors, st2)
    end.

End WithEnv.

(** *** Rate limiting *)

Record RateLimitEntry := { count : Z; resetTime : Z }.

(** [now] is the value [Date.now()] returns to the call. *)
Definition checkRateLimit (now : Z) (key : string) (maxRequests windowMs : Z)
           (rateLimitMap : gmap string RateLimitEntry)
  : bool * gmap string RateLimitEntry :=
  match rateLimitMap !! key with
  | Some entry =>
      if (resetTime entry <? now)%Z then
        (true, <[key := {| count := 1; resetTime := now + windowMs |}]> rateLimitMap)
      else if (maxRequests <=? count entry)%Z then
        (false, rateLimitMap)
      else
        (true, <[key := {| count := count entry + 1; resetTime := resetTime entry |}]>
                 rateLimitMap)
  | None =>
      (true, <[key := {| count := 1; resetTime := now + windowMs |}]> rateLimitMap)
  end.

End SecurityService.

(** ** The storage engine

    The object stores the [DatabaseService] wraps, after the IndexedDB
    interface: named stores of records under a primary key, in-line
    ([keyPath]) or out-of-line, with indexes computed from the records.
    Key generators, key ranges, dotted key paths, dates and binary keys
    are left out: the services use none. Each request placed on the
    engine is recorded in [log]; [fails] tells which requests the engine
    refuses, and a refused request aborts its transaction, which then
    leaves its store as it found it. *)

Module IDB.

Inductive KeyPath :=
| KeyName (p : string)
| KeyNames (ps : list string).

Record Index := { index_name : string; index_keyPath : KeyPath }.

Record ObjectStore := {
  keyPath : option KeyPath;
  indexes : list Index;
  records : list (value * value)    (* primary key, stored value *)
}.

Inductive Request :=
| ReqGet (store : string) (key : value)
| ReqGetAll (store : string)
| ReqGetAllKeys (store : string)
| ReqPut (store : string) (v : value) (key : option value)
| ReqDelete (store : string) (key : value)
| ReqClear (store : string)
| ReqIndexGetAllKeys (store index : string) (query : value).

Record Database := {
  stores : gmap string ObjectStore;
  fails : Request -> bool;
  log : list Request
}.

(** A valid key: a number, a string, or an array of valid keys. *)
Fixpoint valid_key (k : value) : bool :=
  match k with
  | VNum _ | VStr _ => true
  | VArr ks => forallb valid_key ks
  | _ => false
  end.

Definition eval_name (v : value) (p : string) : option value :=
  match v with
  | VObj props =>
      match lookup_prop p props with
      | Some k => if valid_key k then Some k else None
      | None => None
      end
  | _ => None
  end.

Fixpoint eval_names (v : value) (ps : list string) : option (list value) :=
  match ps with
  | [] => Some []
  | p :: rest =>
      match eval_name v p, eval_names v rest with
      | Some k, Some ks => Some (k :: ks)
      | _, _ => None
      end
  end.

(** The key a key path extracts from a value, when it is a valid key. *)
Definition eval_keyPath (kp : KeyPath) (v : value) : option value :=
  match kp with
  | KeyName p => eval_name v p
  | KeyNames ps => option_map VArr (eval_names v ps)
  end.

Definition has_key (k : value) (r : value * value) : bool := value_eqb (fst r) k.

Definition lookup_record (k : value) (rs : list (value * value)) : option value :=
  option_map snd (find (has_key k) rs).

(** The order of keys: a number is less than a string, a string less
    than an array; numbers are ordered by value, strings by code unit,
    arrays component by component, a proper prefix first. Values that
    are no keys are never compared. *)
Fixpoint key_compare (a b : value) {struct a} : comparison :=
  match a, b with
  | VNum x, VNum y => (x ?= y)%Z
  | VNum _, (VStr _ | VArr _) => Lt
  | VStr _, VNum _ => Gt
  | VStr x, VStr y => String.compare x y
  | VStr _, VArr _ => Lt
  | VArr _, (VNum _ | VStr _) => Gt
  | VArr xs, VArr ys =>
      (fix go (xs ys : list value) {struct xs} : comparison :=
         match xs, ys with
         | [], [] => Eq
         | [], _ :: _ => Lt
         | _ :: _, [] => Gt
         | x :: xs', y :: ys' =>
             match key_compare x y with
             | Eq => go xs' ys'
             | c => c
             end
         end) xs ys
  | _, _ => Eq
  end.

Definition delete_record (k : value) (rs : list (value * value)) : list (value * value) :=
  List.filter (fun r => negb (has_key k r)) rs.

(** A store keeps its records in ascending order of their keys. *)
Fixpoint insert_record (k v : value) (rs : list (value * value)) : list (value * value) :=
  match rs with
  | [] => [(k, v)]
  | r :: rest =>
      match key_compare k (fst r) with
      | Gt => r :: insert_record k v rest
      | _ => (k, v) :: r :: rest
      end
  end.

(** The record under [k] is replaced, or a new one takes its place in
    the order. *)
Definition put_record (k v : value) (rs : list (value * value)) : list (value * value) :=
  insert_record k v (delete_record k rs).

Definition delete_records (ks : list value) (rs : list (value * value))
  : list (value * value) :=
  List.filter (fun r => negb (existsb (value_eqb (fst r)) ks)) rs.

Definition with_records (s : ObjectStore) (rs : list (value * value)) : ObjectStore :=
  {| keyPath := keyPath s; indexes := indexes s; records := rs |}.

Definition place (r : Request) (db : Database) : Database :=
  {| stores := stores db; fails := fails db; log := log db ++ [r] |}.

Definition place_all (rs : list Request) (db : Database) : Database :=
  {| stores := stores db; fails := fails db; log := log db ++ rs |}.

Definition set_store (name : string) (s : ObjectStore) (db : Database) : Database :=
  {| stores := <[name := s]> (stores db); fails := fails db; log := log db |}.

Definition NotFoundError : string := "NotFoundError".
Definition DataError : string := "DataError".
Definition RequestError : string := "request error".

(** [db.transaction(name, mode).objectStore(name)]. *)
Definition objectStore (name : string) (db : Database) : Res ObjectStore :=
  match stores db !! name with
  | Some s => Ok s
  | None => Throw NotFoundError
  end.

(** [table.get(key)] and the outcome of the request. *)
Definition store_get (name : string) (key : value) (db : Database)
  : Res value * Database :=
  match objectStore name db with
  | Throw e => (Throw e, db)
  | Ok s =>
      if negb (valid_key key) then (Throw DataError, db)
      else
        let db' := place (ReqGet name key) db in
        if fails db (ReqGet name key) then (Throw RequestError, db')
        else (Ok (match lookup_record key (records s) with
                  | Some v => v
                  | None => VUndefined
                  end), db')
  end.

(** [table.getAll()] and [table.getAllKeys()]: the values and the keys
    in the order of the store, which is ascending in the keys. *)
Definition store_getAll (name : string) (db : Database)
  : Res (list value) * Database :=
  match objectStore name db with
  | Throw e => (Throw e, db)
  | Ok s =>
      let db' := place (ReqGetAll name) db in
      if fails db (ReqGetAll name) then (Throw RequestError, db')
      else (Ok (map snd (records s)), db')
  end.

Definition store_getAllKeys (name : string) (db : Database)
  : Res (list value) * Database :=
  match objectStore name db with
  | Throw e => (Throw e, db)
  | Ok s =>
      let db' := place (ReqGetAllKeys name) db in
      if fails db (ReqGetAllKeys name) then (Throw RequestError, db')
      else (Ok (map fst (records s)), db')
  end.

(** The primary key [table.put(v, key)] stores [v] under. *)
Definition put_key (s : ObjectStore) (v : value) (key : option value) : option value :=
  match keyPath s, key with
  | Some kp, None => eval_keyPath kp v
  | Some _, Some _ => None
  | None, Some k => if valid_key k then Some k else None
  | None, None => None
  end.

Definition store_put (name : string) (v : value) (key : option value) (db : Database)
  : Res unit * Database :=
  match objectStore name db with
  | Throw e => (Throw e, db)
  | Ok s =>
      match put_key s v key with
      | None => (Throw DataError, db)
      | Some k =>
          let db' := place (ReqPut name v key) db in
          if fails db (ReqPut name v key) then (Throw RequestError, db')
          else (Ok tt, set_store name (with_records s (put_record k v (records s))) db')
      end
  end.

Definition store_delete (name : string) (key : value) (db : Database)
  : Res unit * Database :=
  match objectStore name db with
  | Throw e => (Throw e, db)
  | Ok s =>
      if negb (valid_key key) then (Throw DataError, db)
      else
        let db' := place (ReqDelete name key) db in
        if fails db (ReqDelete name key) then (Throw RequestError, db')
        else (Ok tt, set_store name (with_records s (delete_record key (records s))) db')
  end.

Definition store_clear (name : string) (db : Database) : Res unit * Database :=
  match objectStore name db with
  | Throw e => (Throw e, db)
  | Ok s =>
      let db' := place (ReqClear name) db in
      if fails db (ReqClear name) then (Throw RequestError, db')
      else (Ok tt, set_store name (with_records s []) db')
  end.

Definition find_index (index : string) (s : ObjectStore) : option Index :=
  find (fun i => index_name i =? index) (indexes s).

(** Whether a record's index key is [query]. *)
Definition indexed_under (i : Index) (query : value) (r : value * value) : bool :=
  match eval_keyPath (index_keyPath i) (snd r) with
  | Some k => value_eqb k query
  | None => false
  end.

(** The primary keys of the records whose index key is [query], in the
    order of the store: ascending. *)
Definition index_keys (i : Index) (query : value) (rs : list (value * value))
  : list value :=
  map fst (List.filter (indexed_under i query) rs).

End IDB.
Export IDB.

(** ** DatabaseService *)

Module DatabaseService.
Import Regex.

Definition MAX_DB_NAME_LENGTH : nat := 64.
Definition MAX_STORE_NAME_LENGTH : nat := 64.
Definition MAX_INDEX_NAME_LENGTH : nat := 64.

(** The character class of [ALLOWED_STORE_NAME_PATTERN], which is
    anchored at both ends: letters, digits, underscore and hyphen. *)
Definition allowed_name_char (c : ascii) : bool :=
  let n := nat_of_ascii c in
  (((97 <=? n) && (n <=? 122)) || ((65 <=? n) && (n <=? 90))
   || ((48 <=? n) && (n <=? 57)) || (n =? 95) || (n =? 45))%nat.

Definition ALLOWED_STORE_NAME_PATTERN (name : string) : bool :=
  negb (name =? "") && forallb allowed_name_char (list_ascii_of_string name).

Definition RESERVED_NAMES : list string :=
  ["__proto__"; "constructor"; "prototype"; "toString"; "valueOf"].

Definition is_reserved (name : string) : bool :=
  includes RESERVED_NAMES (toLowerCase name).

Definition validateStoreName (name : string) : Res unit :=
  if name =? "" then Throw "Store name must be a non-empty string"
  else if (MAX_STORE_NAME_LENGTH <? String.length name)%nat then
    Throw ("Store name exceeds maximum length of "
           +:+ show_nat MAX_STORE_NAME_LENGTH +:+ " characters")
  else if negb (ALLOWED_STORE_NAME_PATTERN name) then
    Throw "Store name contains invalid characters. Only alphanumeric, underscore, and hyphen are allowed"
  else if is_reserved name then Throw "Store name is reserved and cannot be used"
  else Ok tt.

(** The first array component that is a reserved string, if any. *)
Fixpoint reserved_subkey (subKeys : list value) (index : nat) : option nat :=
  match subKeys with
  | [] => None
  | VStr s :: rest => if is_reserved s then Some index else reserved_subkey rest (S index)
  | _ :: rest => reserved_subkey rest (S index)
  end.

Definition validateKey (key : value) : Res unit :=
  match key with
  | VNull | VUndefined => Throw "Key cannot be null or undefined"
  | VStr s =>
      if is_reserved s then Throw "Key name is reserved and cannot be used" else Ok tt
  | VArr subKeys =>
      match reserved_subkey subKeys 0 with
      | Some index =>
          Throw ("Array key at index " +:+ show_nat index
                 +:+ " is reserved and cannot be used")
      | None => Ok tt
      end
  | _ => Ok tt
  end.

(** [JSON.parse(JSON.stringify(v))] inside an array or an object:
    [None] when [stringify] leaves the value out. *)
Fixpoint json_clone (v : value) : option value :=
  match v with
  | VUndefined => None
  | VNull => Some VNull
  | VBool b => Some (VBool b)
  | VNum n => Some (VNum n)
  | VStr s => Some (VStr s)
  | VArr items =>
      Some (VArr (map (fun item => match json_clone item with
                                   | Some item' => item'
                                   | None => VNull
                                   end) items))
  | VObj props =>
      Some (VObj ((fix clone_props (props : list (string * value)) :=
                     match props with
                     | [] => []
                     | (k, x) :: rest =>
                         match json_clone x with
                         | Some x' => (k, x') :: clone_props rest
                         | None => clone_props rest
                         end
                     end) props))
  | VBlob _ _ => Some (VObj [])
  end.

Definition sanitizeData (data : value) : value :=
  match data with
  | VNull | VUndefined => data
  | _ =>
      match json_clone data with
      | Some (VObj props) =>
          VObj (fold_left (fun clonedData reservedName => delete_prop reservedName clonedData)
                          RESERVED_NAMES props)
      | Some clonedData => clonedData
      | None => VUndefined
      end
  end.

(** The properties [sanitizeData] leaves in place: those whose name is
    not, letter for letter, one of [RESERVED_NAMES]. *)
Definition not_reserved_name (kv : string * value) : bool :=
  negb (includes RESERVED_NAMES (fst kv)).

Definition wrap {A} (message : string) (r : Res A * Database) : Res A * Database :=
  match r with
  | (Ok a, db) => (Ok a, db)
  | (Throw _, db) => (Throw message, db)
  end.

(** The checks [get] makes before it returns its promise; an error here
    is thrown to the caller and reaches no [catch] of the promise. *)
Definition get_check (storeName : string) (key : value) : Res unit :=
  match validateStoreName storeName with
  | Throw e => Throw e
  | Ok _ => validateKey key
  end.

Definition get (db : Database) (storeName : string) (key : value)
  : Res value * Database :=
  match validateStoreName storeName with
  | Throw e => (Throw e, db)
  | Ok _ =>
      match validateKey key with
      | Throw e => (Throw e, db)
      | Ok _ => wrap "Failed to retrieve data from database" (store_get storeName key db)
      end
  end.

Definition getAllKeys (db : Database) (storeName : string)
  : Res (list value) * Database :=
  match validateStoreName storeName with
  | Throw e => (Throw e, db)
  | Ok _ => wrap "Failed to retrieve keys from database" (store_getAllKeys storeName db)
  end.

Definition getAll (db : Database) (storeName : string)
  : Res (list value) * Database :=
  match validateStoreName storeName with
  | Throw e => (Throw e, db)
  | Ok _ => wrap "Failed to retrieve all data from database" (store_getAll storeName db)
  end.

(** The synchronous part of [put]: the checks made before the promise
    is created. *)
Definition put_check (storeName : string) (key : option value) : Res unit :=
  match validateStoreName storeName with
  | Throw e => Throw e
  | Ok _ =>
      match key with
      | Some k => validateKey k
      | None => Ok tt
      end
  end.

(** The promise of [put]. *)
Definition put_run (db : Database) (storeName : string) (blob : value)
           (key : option value) : Res unit * Database :=
  wrap "Failed to store data in database"
       (store_put storeName (sanitizeData blob) key db).

Definition put (db : Database) (storeName : string) (blob : value) (key : option value)
  : Res unit * Database :=
  match put_check storeName key with
  | Throw e => (Throw e, db)
  | Ok _ => put_run db storeName blob key
  end.

Definition delete (db : Database) (storeName : string) (key : value)
  : Res unit * Database :=
  match validateStoreName storeName with
  | Throw e => (Throw e, db)
  | Ok _ =>
      match validateKey key with
      | Throw e => (Throw e, db)
      | Ok _ => wrap "Failed to delete data from database" (store_delete storeName key db)
      end
  end.

Definition clear (db : Database) (storeName : string) : Res unit * Database :=
  match validateStoreName storeName with
  | Throw e => (Throw e, db)
  | Ok _ => wrap "Failed to clear data from database" (store_clear storeName db)
  end.

(** The synchronous part of [clearIndex]. *)
Definition clearIndex_check (storeName indexName : string) (indexQuery : value)
  : Res unit :=
  match validateStoreName storeName with
  | Throw e => Throw e
  | Ok _ =>
      if indexName =? "" then Throw "Index name must be a non-empty string"
      else if is_reserved indexName then Throw "Index name is reserved and cannot be used"
      else if negb (truthy indexQuery) || negb (is_string indexQuery)
      then Throw "Index query must be a non-empty string"
      else Ok tt
  end.

(** The promise of [clearIndex]: one transaction that reads the
    primary keys under the index value, then deletes each key that
    passes [validateKey]. All the delete requests are placed at once. *)
Definition clearIndex_run (db : Database) (storeName indexName indexQuery : string)
  : Res unit * Database :=
  wrap "Failed to clear index from database"
    match objectStore storeName db with
    | Throw e => (Throw e, db)
    | Ok store =>
        match find_index indexName store with
        | None => (Throw NotFoundError, db)
        | Some index =>
            let db1 := place (ReqIndexGetAllKeys storeName indexName (VStr indexQuery)) db in
            if fails db (ReqIndexGetAllKeys storeName indexName (VStr indexQuery))
            then (Throw RequestError, db1)
            else
              let keys := index_keys index (VStr indexQuery) (records store) in
              let validKeys := List.filter (fun key => is_ok (validateKey key)) keys in
              let db2 := place_all (map (ReqDelete storeName) validKeys) db1 in
              if existsb (fun key => negb (valid_key key) || fails db (ReqDelete storeName key))
                         validKeys
              then (Throw RequestError, db2)
              else (Ok tt,
                    set_store storeName
                      (with_records store (delete_records validKeys (records store))) db2)
        end
    end.

Definition clearIndex (db : Database) (storeName indexName : string) (indexQuery : value)
  : Res unit * Database :=
  match clearIndex_check storeName indexName indexQuery, indexQuery with
  | Throw e, _ => (Throw e, db)
  | Ok _, VStr query => clearIndex_run db storeName indexName query
  | Ok _, _ => (Throw "Index query must be a non-empty string", db)
  end.

End DatabaseService.

(** ** AvatarsService

    What an observable or a promise does after its subscription is put
    in one order: the operations of one ingestion run in the order in
    which the code starts them (clear the old images, write the
    abstract, store the local images, then the downloaded ones). A
    promise already created keeps running when the code around it
    fails. *)

Module AvatarsService.
Import SecurityService.

Definition DATABASE_NAME : string := "avatars".
Definition ABSTRACTS_STORE : string := "abstracts".
Definition IMAGES_STORE : string := "images".

(** The stores [onupgradeneeded] creates for the store definitions of
    the service. *)
Definition avatar_stores : gmap string ObjectStore :=
  <[ABSTRACTS_STORE := {| keyPath := Some (KeyName "key"); indexes := []; records := [] |}]>
  (<[IMAGES_STORE :=
      {| keyPath := Some (KeyNames ["key"; "avatarKey"]);
         indexes := [ {| index_name := "avatarKey"; index_keyPath := KeyName "avatarKey" |};
                      {| index_name := "type";
                         index_keyPath := KeyNames ["avatarKey"; "type"] |} ];
         records := [] |}]> ∅).

(** The state the services share. *)
Record World := {
  regexes : RegexState;
  rateLimitMap : gmap string RateLimitEntry;
  database : Database;
  now : Z
}.

Definition with_regex (st : RegexState) (w : World) : World :=
  {| regexes := st; rateLimitMap := rateLimitMap w; database := database w; now := now w |}.

Definition with_rate (m : gmap string RateLimitEntry) (w : World) : World :=
  {| regexes := regexes w; rateLimitMap := m; database := database w; now := now w |}.

Definition with_database (db : Database) (w : World) : World :=
  {| regexes := regexes w; rateLimitMap := rateLimitMap w; database := db; now := now w |}.

Definition generic_message (operation : string) : string :=
  "Avatar " +:+ operation +:+ " failed. Please try again.".

(** [handleError(operation)]: [status] is that of an
    [HttpErrorResponse], [None] for any other error. *)
Definition handleError (operation : string) (status : option Z) : string :=
  match status with
  | Some st =>
      if (st =? 404)%Z then "Avatar resource not found."
      else if (500 <=? st)%Z then "Server error occurred. Please try again later."
      else if (st =? 0)%Z then "Network error. Please check your connection."
      else generic_message operation
  | None => generic_message operation
  end.

(** The [TypeError] of a property read on [null] or [undefined]. *)
Definition cannot_read (v : value) (property : string) : string :=
  "Cannot read properties of "
  +:+ (match v with VNull => "null" | _ => "undefined" end)
  +:+ " (reading '" +:+ property +:+ "')".

(** [def.images.filter((image) => image.type === type)]; a [TypeError]
    when [images] is no array or an entry is [null] or [undefined]. The
    message texts are those of one engine; nothing below depends on
    them. *)
Fixpoint filter_type (images : list value) (type : string) : Res (list value) :=
  match images with
  | [] => Ok []
  | VNull :: _ => Throw (cannot_read VNull "type")
  | VUndefined :: _ => Throw (cannot_read VUndefined "type")
  | image :: rest =>
      match filter_type rest type with
      | Throw e => Throw e
      | Ok rest' =>
          Ok (if value_eqb (get image "type") (VStr type) then image :: rest' else rest')
      end
  end.

Definition images_of_type (def : value) (type : string) : Res (list value) :=
  match get def "images" with
  | VArr images => filter_type images type
  | VNull => Throw (cannot_read VNull "filter")
  | VUndefined => Throw (cannot_read VUndefined "filter")
  | _ => Throw "def.images.filter is not a function"
  end.

Definition template (v : value) : string :=
  match v with VStr s => s | _ => "" end.

Definition file_value (f : File) : value := VBlob (size f) (type f).

Section WithEnv.
Variable env : Env.

(** The part of the URL image pipeline that runs at subscription: the
    images whose download is started. *)
Fixpoint start_downloads (urlImageSources : list value) (w : World)
  : list value * World :=
  match urlImageSources with
  | [] => ([], w)
  | image :: rest =>
      let imageSource := get image "source" in
      if negb (isValid (validateUrl env imageSource)) then start_downloads rest w
      else
        let '(allowed, m) :=
          checkRateLimit (now w) ("image:" +:+ template imageSource) 50 60000
                         (rateLimitMap w) in
        if negb allowed then start_downloads rest (with_rate m w)
        else
          let '(started, w') := start_downloads rest (with_rate m w) in
          (image :: started, w')
  end.

(** The part that runs when the responses arrive; every failure is
    caught and the image left out. *)
Fixpoint finish_downloads (defKey : value) (started : list value) (w : World) : World :=
  match started with
  | [] => w
  | image :: rest =>
      let imageSource := get image "source" in
      match http_get_blob env (template imageSource) with
      | HttpError _ => finish_downloads defKey rest w
      | HttpOk (blobSize, blobType) =>
          if (10 * 1024 * 1024 <? blobSize)%Z then finish_downloads defKey rest w
          else
            match sanitizeObject (VObj [ ("key", get image "key"); ("avatarKey", defKey);
                                         ("source", imageSource);
                                         ("blob", VBlob blobSize blobType) ])
                                 0 (regexes w) with
            | (Throw _, st) => finish_downloads defKey rest (with_regex st w)
            | (Ok sanitizedImageData, st) =>
                match DatabaseService.put_check IMAGES_STORE None with
                | Throw _ => finish_downloads defKey rest (with_regex st w)
                | Ok _ =>
                    let '(_, db) :=
                      DatabaseService.put_run (database w) IMAGES_STORE sanitizedImageData None in
                    finish_downloads defKey rest (with_database db (with_regex st w))
                end
            end
      end
  end.

(** The local image pipeline; it fails only when [sanitizeObject] or the
    synchronous part of [put] throws. *)
Fixpoint store_local_images (defKey : value) (imageFiles : list File)
         (localImageSources : list value) (w : World) : Res unit * World :=
  match localImageSources with
  | [] => (Ok tt, w)
  | image :: rest =>
      match find (fun file => value_eqb (VStr (name file)) (get image "name")) imageFiles with
      | None => store_local_images defKey imageFiles rest w
      | Some imageFile =>
          if negb (isValid (validateFile (Some imageFile)))
          then store_local_images defKey imageFiles rest w
          else
            match sanitizeObject (VObj [ ("key", get image "key"); ("avatarKey", defKey);
                                         ("source", VNull); ("blob", file_value imageFile) ])
                                 0 (regexes w) with
            | (Throw e, st) => (Throw e, with_regex st w)
            | (Ok sanitizedImageData, st) =>
                match DatabaseService.put_check IMAGES_STORE None with
                | Throw e => (Throw e, with_regex st w)
                | Ok _ =>
                    let '(_, db) :=
                      DatabaseService.put_run (database w) IMAGES_STORE sanitizedImageData None in
                    store_local_images defKey imageFiles rest
                                       (with_database db (with_regex st w))
                end
            end
      end
  end.

Definition option_value (o : option string) : value :=
  match o with Some s => VStr s | None => VUndefined end.

Definition extension_failed (message : string) : string :=
  "Extension loading failed: " +:+ message.

Definition loadExtension (def : value) (source : option string) (imageFiles : list File)
           (w : World) : Res unit * World :=
  match def with
  | VNull | VUndefined => (Throw (extension_failed (cannot_read def "key")), w)
  | _ =>
    match DatabaseService.clearIndex_check IMAGES_STORE "avatarKey" (get def "key") with
    | Throw e => (Throw (extension_failed e), w)
    | Ok _ =>
        (* from here on the promise of clearIndex is running *)
        let clear := fun w : World =>
          let '(r, db) :=
            DatabaseService.clearIndex_run (database w) IMAGES_STORE "avatarKey"
                                           (template (get def "key")) in
          (r, with_database db w) in
        match sanitizeObject (VObj [ ("key", get def "key");
                                     ("description", get def "description");
                                     ("source", option_value source) ]) 0 (regexes w) with
        | (Throw e, st) => (Throw (extension_failed e), snd (clear (with_regex st w)))
        | (Ok sanitizedAbstract, st) =>
            let w := with_regex st w in
            match DatabaseService.put_check ABSTRACTS_STORE None with
            | Throw e => (Throw (extension_failed e), snd (clear w))
            | Ok _ =>
                (* and so is the promise of the put of the abstract *)
                let abstractPut := fun w : World =>
                  let '(r, db) :=
                    DatabaseService.put_run (database w) ABSTRACTS_STORE sanitizedAbstract None in
                  (r, with_database db w) in
                match images_of_type def "url", images_of_type def "local" with
                | Throw e, _ | Ok _, Throw e =>
                    (Throw (extension_failed e), snd (abstractPut (snd (clear w))))
                | Ok urlImageSources, Ok localImageSources =>
                    let '(cleared, w) := clear w in
                    let '(abstractStored, w) := abstractPut w in
                    match cleared with
                    | Throw _ => (Throw (handleError "loadExtension" None), w)
                    | Ok _ =>
                        let '(started, w) := start_downloads urlImageSources w in
                        match store_local_images (get def "key") imageFiles
                                                 localImageSources w with
                        | (Throw _, w) => (Throw (handleError "loadExtension" None), w)
                        | (Ok _, w) =>
                            match abstractStored with
                            | Throw _ => (Throw (handleError "loadExtension" None), w)
                            | Ok _ => (Ok tt, finish_downloads (get def "key") started w)
                            end
                        end
                    end
                end
            end
        end
    end
  end.

(** Manifest validation followed by [loadExtension], as both entry
    points do it. *)
Definition ingest (operation : string) (def : value) (source : option string)
           (imageFiles : list File) (w : World) : Res unit * World :=
  let '(manifestValidation, st) := validateAvatarManifest env def (regexes w) in
  let w := with_regex st w in
  if negb (isValid manifestValidation) then (Throw (handleError operation None), w)
  else
    match loadExtension (match sanitizedValue manifestValidation with
                         | Some v => v
                         | None => VUndefined
                         end) source imageFiles w with
    | (Throw _, w) => (Throw (handleError operation None), w)
    | (Ok _, w) => (Ok tt, w)
    end.

Definition download (url : string) (w : World) : Res unit * World :=
  let urlValidation := validateUrl env (VStr url) in
  if negb (isValid urlValidation) then
    (Throw ("Invalid URL: " +:+ join ", " (errors urlValidation)), w)
  else
    let '(allowed, m) :=
      checkRateLimit (now w) ("download:" +:+ url) 10 60000 (rateLimitMap w) in
    let w := with_rate m w in
    if negb allowed then (Throw "Rate limit exceeded for download requests", w)
    else
      match http_get env url with
      | HttpError status => (Throw (handleError "download" (Some status)), w)
      | HttpOk def => ingest "download" def (Some url) [] w
      end.

Definition is_blank (s : string) : bool :=
  forallb Regex.is_space (list_ascii_of_string s).

(** A manifest file after [readAsText] and [JSON.parse]. *)
Definition read_manifest (file : File) : Res value :=
  if is_blank (text file) then Throw "File is empty or contains no readable content"
  else
    match JSON_parse env (text file) with
    | None => Throw "Invalid JSON format"
    | Some parsed =>
        if negb (truthy parsed) || negb (is_object parsed)
        then Throw "Invalid JSON format: Invalid JSON structure"
        else Ok parsed
    end.

Fixpoint import_each (files : list File) (imageFiles : option (list File)) (w : World)
  : Res unit * World :=
  match files with
  | [] => (Ok tt, w)
  | file :: rest =>
      match read_manifest file with
      | Throw _ => (Throw (handleError "import" None), w)
      | Ok def =>
          let validatedImageFiles :=
            match imageFiles with
            | Some fs => List.filter (fun f => isValid (validateFile (Some f))) fs
            | None => []
            end in
          match ingest "import" def None validatedImageFiles w with
          | (Throw e, w) => (Throw e, w)
          | (Ok _, w) => import_each rest imageFiles w
          end
      end
  end.

(** [import]: every manifest file is validated when the pipeline is
    subscribed, before any of them is read. *)
Definition import (files : list File) (imageFiles : option (list File)) (w : World)
  : Res unit * World :=
  match files with
  | [] => (Throw "No files provided for import", w)
  | _ =>
      if negb (forallb (fun file => isValid (validateFile (Some file))) files)
      then (Throw (handleError "import" None), w)
      else import_each files imageFiles w
  end.

End WithEnv.

Definition getAbstracts (w : World) : Res (list value) * World :=
  let '(r, db) := DatabaseService.getAll (database w) ABSTRACTS_STORE in
  (r, with_database db w).

Definition getImage (avatarKey imageKey : string) (w : World) : Res value * World :=
  let '(avatarKeyValidation, st) := validateString (VStr avatarKey) 64 (regexes w) in
  let w := with_regex st w in
  if negb (isValid avatarKeyValidation) then
    (Throw ("Invalid avatar key: " +:+ join ", " (errors avatarKeyValidation)), w)
  else
    let '(imageKeyValidation, st) := validateString (VStr imageKey) 64 (regexes w) in
    let w := with_regex st w in
    if negb (isValid imageKeyValidation) then
      (Throw ("Invalid image key: " +:+ join ", " (errors imageKeyValidation)), w)
    else
      match DatabaseService.get_check IMAGES_STORE
                                      (VArr [VStr imageKey; VStr avatarKey]) with
      | Throw e => (Throw e, w)         (* thrown by [get] itself, past the [catch] *)
      | Ok _ =>
          match DatabaseService.get (database w) IMAGES_STORE
                                    (VArr [VStr imageKey; VStr avatarKey]) with
          | (Throw _, db) => (Throw "Failed to retrieve image", with_database db w)
          | (Ok image, db) => (Ok image, with_database db w)
          end
      end.

Definition delete (key : string) (w : World) : Res unit * World :=
  let '(keyValidation, st) := validateString (VStr key) 64 (regexes w) in
  let w := with_regex st w in
  if negb (isValid keyValidation) then
    (Throw ("Invalid key: " +:+ join ", " (errors keyValidation)), w)
  else
    match DatabaseService.clearIndex_check IMAGES_STORE "avatarKey" (VStr key) with
    | Throw e => (Throw e, w)
    | Ok _ =>
        match DatabaseService.clearIndex_run (database w) IMAGES_STORE "avatarKey" key with
        | (Throw _, db) => (Throw "Failed to delete avatar", with_database db w)
        | (Ok _, db) =>
            match DatabaseService.delete db ABSTRACTS_STORE (VStr key) with
            | (Throw _, db') => (Throw "Failed to delete avatar", with_database db' w)
            | (Ok _, db') => (Ok tt, with_database db' w)
            end
        end
    end.

End AvatarsService.

(** ** A concrete environment for the examples

    A small URL reader for absolute URLs: the scheme up to the first
    colon, and for [http] and [https] the host between the slashes that
    follow and the next slash, question mark, hash or colon. It stands
    for the platform's parser on the URLs of the examples only: it knows
    no user info, no bracketed host and no percent-encoding. *)

Module Example.
Import SecurityService AvatarsService.

Fixpoint split_at (stop : ascii -> bool) (s : string) : string * string :=
  match s with
  | EmptyString => (EmptyString, EmptyString)
  | String c r =>
      if stop c then (EmptyString, s)
      else let '(a, b) := split_at stop r in (String c a, b)
  end.

Fixpoint drop_while (p : ascii -> bool) (s : string) : string :=
  match s with
  | EmptyString => EmptyString
  | String c r => if p c then drop_while p r else s
  end.

Definition is_char (cs : string) (c : ascii) : bool :=
  existsb (Ascii.eqb c) (list_ascii_of_string cs).

Definition simple_parseURL (s : string) : option URL :=
  let '(scheme, rest) := split_at (is_char ":/?#") s in
  match rest with
  | String ":" after =>
      if scheme =? "" then None
      else
        let scheme := toLowerCase scheme in
        if (scheme =? "http") || (scheme =? "https") then
          let '(host, _) := split_at (is_char ":/?#") (drop_while (is_char "/") after) in
          if host =? "" then None
          else Some {| protocol := scheme +:+ ":"; hostname := toLowerCase host |}
        else Some {| protocol := scheme +:+ ":"; hostname := "" |}
  | _ => None
  end.

Definition manifest_url : string := "https://example.com/pack.json".
Definition reachable_url : string := "https://example.com/standard.png".
Definition unreachable_url : string := "https://example.com/missing.png".

(** The manifest of an extension with one image that can be downloaded
    and one that cannot. *)
Definition two_image_manifest : value :=
  VObj [ ("key", VStr "test-avatar");
         ("description", VStr "A test avatar");
         ("images", VArr [ VObj [ ("key", VStr "standard"); ("type", VStr "url");
                                  ("source", VStr reachable_url) ];
                           VObj [ ("key", VStr "broken"); ("type", VStr "url");
                                  ("source", VStr unreachable_url) ] ]) ].

Definition two_image_env : Env :=
  {| parseURL := simple_parseURL;
     JSON_parse := fun _ => None;
     http_get := fun url =>
       if url =? manifest_url then HttpOk two_image_manifest else HttpError 404;
     http_get_blob := fun url =>
       if url =? reachable_url then HttpOk (2048%Z, "image/png") else HttpError 404 |}.

Definition empty_database : Database :=
  {| stores := avatar_stores; fails := fun _ => false; log := [] |}.

Definition fresh_world : World :=
  {| regexes := fresh_regex_state; rateLimitMap := ∅; database := empty_database; now := 1000 |}.

(** The hosts the SSRF guard is meant for: loopback names and the
    private prefixes. *)
Definition private_host (h : string) : Prop :=
  h = "localhost" \/ h = "127.0.0.1"
  \/ startsWith h "192.168." = true
  \/ startsWith h "10." = true
  \/ startsWith h "172.16." = true.

(** Successive calls of [checkRateLimit] for one key and one limit, each
    at its own time; the answers are in call order. *)
Fixpoint checkRateLimit_calls (times : list Z) (key : string) (maxRequests windowMs : Z)
         (m : gmap string RateLimitEntry) : list bool * gmap string RateLimitEntry :=
  match times with
  | [] => ([], m)
  | t :: rest =>
      let '(b, m1) := checkRateLimit t key maxRequests windowMs m in
      let '(bs, m2) := checkRateLimit_calls rest key maxRequests windowMs m1 in
      (b :: bs, m2)
  end.

(** A database with one store with out-of-line keys. *)
Definition notes_database : Database :=
  {| stores := {[ "notes" := {| keyPath := None; indexes := []; records := [] |} ]};
     fails := fun _ => false;
     log := [] |}.

Definition bio_record : value := VObj [("bio", VStr "<b>bold</b>")].

Definition nested_record : value :=
  VObj [ ("constructor", VStr "top");
         ("profile", VObj [("constructor", VStr "nested"); ("toString", VNum 1)]) ].

(** [n] objects nested through the property [nested] below a root
    object, as the deep-object test of the repository builds them. *)
Fixpoint deep_object (n : nat) : value :=
  match n with
  | O => VObj []
  | S n' => VObj [("nested", deep_object n')]
  end.

Definition script_key : string := "<script>alert(1)</script>".

(** A manifest that is acceptable but for its key. *)
Definition script_manifest : value :=
  VObj [ ("key", VStr script_key);
         ("description", VStr "A test avatar");
         ("images", VArr []) ].

Definition script_env : Env :=
  {| parseURL := simple_parseURL;
     JSON_parse := fun _ => Some script_manifest;
     http_get := fun _ => HttpOk script_manifest;
     http_get_blob := fun _ => HttpError 404 |}.

Definition script_file : File :=
  {| name := "manifest.json"; size := 120; type := "application/json";
     text := "{ ... }" |}.

Definition image_record (imageKey avatarKey : string) : value * value :=
  (VArr [VStr imageKey; VStr avatarKey],
   VObj [ ("key", VStr imageKey); ("avatarKey", VStr avatarKey);
          ("source", VNull); ("blob", VObj []) ]).

(** The stores after an import of the extension [test-avatar] with two
    local images. *)
Definition stocked_stores : gmap string ObjectStore :=
  <[ABSTRACTS_STORE :=
      {| keyPath := Some (KeyName "key"); indexes := [];
         records := [ (VStr "test-avatar",
                       VObj [ ("key", VStr "test-avatar");
                              ("description", VStr "A test avatar") ]) ] |}]>
  (<[IMAGES_STORE :=
      {| keyPath := Some (KeyNames ["key"; "avatarKey"]);
         indexes := [ {| index_name := "avatarKey"; index_keyPath := KeyName "avatarKey" |};
                      {| index_name := "type";
                         index_keyPath := KeyNames ["avatarKey"; "type"] |} ];
         records := [ image_record "profile" "test-avatar";
                      image_record "standard" "test-avatar" ] |}]> ∅).

Definition stocked_world : World :=
  {| regexes := fresh_regex_state; rateLimitMap := ∅;
     database := {| stores := stocked_stores; fails := fun _ => false; log := [] |};
     now := 1000 |}.

(** The same stores on an engine that refuses to delete the second
    image. *)
Definition refuses_profile (r : Request) : bool :=
  match r with
  | ReqDelete store key =>
      (store =? IMAGES_STORE) && value_eqb key (VArr [VStr "profile"; VStr "test-avatar"])
  | _ => false
  end.

Definition failing_world : World :=
  {| regexes := fresh_regex_state; rateLimitMap := ∅;
     database := {| stores := stocked_stores; fails := refuses_profile; log := [] |};
     now := 1000 |}.

End Example.

(** ** Static analysis of patterns *)

Module RegexAnalysis.
Import Regex.

(** Whether a pattern matches the empty string. *)
Fixpoint nullable (r : regex) : bool :=
  match r with
  | Eps => true
  | Chr _ => false
  | Seq a b => nullable a && nullable b
  | Alt a b => nullable a || nullable b
  | Star _ _ => true
  end.

(** The characters a non-empty match of the pattern can start with. *)
Fixpoint first_char (r : regex) (c : ascii) : bool :=
  match r with
  | Eps => false
  | Chr p => p c
  | Seq a b => first_char a c || (nullable a && first_char b c)
  | Alt a b => first_char a c || first_char b c
  | Star _ a => first_char a c
  end.

Definition is_digit (c : ascii) : bool :=
  let n := nat_of_ascii c in ((48 <=? n) && (n <=? 57))%nat.

(** The characters left in no output of [sanitizeHtml]. *)
Definition is_markup (c : ascii) : bool :=
  existsb (Ascii.eqb c) (list_ascii_of_string ("<>'/" +:+ SecurityService.dquote)).

Definition digit_or_semicolon (c : ascii) : bool := is_digit c || Ascii.eqb c ";".

(** The first of the injection patterns, the one for single characters. *)
Definition FIRST_PATTERN : regex := hd Eps SecurityService.INJECTION_PATTERNS.

(** Every code unit of the model. *)
Definition all_ascii : list ascii := map ascii_of_nat (seq 0 256).

(** What a literal word under the [i] flag takes from the start of a
    text: the rest of the text, when the word is there. *)
Fixpoint strip_ci (word text : list ascii) : option (list ascii) :=
  match word with
  | [] => Some text
  | c :: word' =>
      match text with
      | d :: text' =>
          if Ascii.eqb (upper_ascii d) (upper_ascii c) then strip_ci word' text' else None
      | [] => None
      end
  end.

(** [word] occurs somewhere in [text]. *)
Definition contains (text word : string) : Prop :=
  exists before after,
    list_ascii_of_string text = before ++ list_ascii_of_string word ++ after.

(** The words [validateUrl] looks for, and the prefixes of the hosts it
    turns down. *)
Definition DANGEROUS_WORDS : list string :=
  [ "javascript:"; "data:"; "vbscript:"; "file:"; "ftp:" ].

Definition LOCAL_PREFIXES : list string := [ "192.168."; "10."; "172." ].

(** A character that the [i] flag and [toLowerCase] treat alike: a code
    unit matches it under the flag exactly when it lower-cases to it. *)
Definition folds_alike (c : ascii) : bool :=
  forallb (fun d => Bool.eqb (Ascii.eqb (upper_ascii d) (upper_ascii c))
                             (Ascii.eqb (JS.lower_ascii d) c))
          all_ascii.

(** The entity encoding at the end of [sanitizeHtml]. *)
Definition encode_entities (s : string) : string :=
  replace (lit "/") "&#x2F;"
    (replace (lit "'") "&#x27;"
       (replace (lit SecurityService.dquote) "&quot;"
          (replace (lit ">") "&gt;"
             (replace (lit "<") "&lt;"
                (replace (lit "&") "&amp;" s))))).

End RegexAnalysis.

(** ** What the sanitizers guarantee *)

Module Invariants.
Import RegexAnalysis SecurityService.

(** The names the reserved-key checks recognise once the key is put in
    lower case. *)
Definition RECOGNISED_KEYS : list string := ["__proto__"; "constructor"; "prototype"].

Definition markup_free (s : string) : bool :=
  forallb (fun c => negb (is_markup c)) (list_ascii_of_string s).

(** No recognised reserved key in any object, no markup character in any
    string value, and no host object, at any depth. *)
Fixpoint sanitized (v : value) : bool :=
  match v with
  | VUndefined | VNull | VBool _ | VNum _ => true
  | VStr s => markup_free s
  | VArr items => forallb sanitized items
  | VObj props =>
      forallb (fun kv => negb (is_dangerous (fst kv)) && sanitized (snd kv)) props
  | VBlob _ _ => false
  end.

(** [v[s1][s2]...]: the value found by following property names and
    array positions; [undefined] where there is nothing to follow. *)
Inductive Step :=
| Property (k : string)
| Element (i : nat).

Definition get_step (v : value) (s : Step) : value :=
  match s with
  | Property k => JS.get v k
  | Element i =>
      match v with
      | VArr items => match nth_error items i with Some x => x | None => VUndefined end
      | _ => VUndefined
      end
  end.

Fixpoint get_path (v : value) (path : list Step) : value :=
  match path with
  | [] => v
  | s :: rest => get_path (get_step v s) rest
  end.

(** A step that does not go through a top-level reserved name. *)
Definition kept_step (s : Step) : bool :=
  match s with
  | Property k => negb (includes DatabaseService.RESERVED_NAMES k)
  | Element _ => true
  end.

(** A store as the engine keeps it: one record per primary key, and
    every primary key a valid key. *)
Definition store_ok (s : ObjectStore) : Prop :=
  List.NoDup (map fst (records s))
  /\ Forall (fun r => valid_key (fst r) = true) (records s).

Definition database_ok (db : Database) : Prop :=
  forall name s, stores db !! name = Some s -> store_ok s.

(** Records in ascending order of their keys, as the engine keeps and
    lists them. *)
Definition records_sorted (rs : list (value * value)) : Prop :=
  StronglySorted (fun a b => key_compare (fst a) (fst b) = Lt) rs.

Definition database_sorted (db : Database) : Prop :=
  forall name s, stores db !! name = Some s -> records_sorted (records s).

End Invariants.

(** ** Opening a database

    [DatabaseService.getDatabase] and the factory it opens databases
    from. A database is kept by the factory under its name with its
    version and its stores; opening an absent name, or a version above
    the stored one, runs the upgrade, which creates the declared stores
    and indexes and aborts when one of them exists already. *)

Module DatabaseOpen.
Import DatabaseService.

(** Store and index definitions as the services give them: a key path
    and nothing else in the options ([autoIncrement], [unique] and
    [multiEntry] are never passed and are outside the model). *)
Record IndexDefinition := { def_index_name : string; def_index_keyPath : KeyPath }.

Record StoreDefinition := {
  def_name : string;
  def_keyPath : option KeyPath;                   (* options.keyPath *)
  def_indexes : option (list IndexDefinition)
}.

(** What the engine decides on its own: whether a key path is
    syntactically valid (identifiers separated by periods, or a
    non-empty list of such strings). *)
Record Engine := { valid_key_path : KeyPath -> bool }.

Record StoredDatabase := { version : Z; objectStores : gmap string ObjectStore }.

Definition Factory := gmap string StoredDatabase.

Definition ConstraintError : string := "ConstraintError".
Definition VersionError : string := "VersionError".
Definition SyntaxError : string := "SyntaxError".
Definition TypeError : string := "TypeError".

(** The largest version [open] takes: 2^53 - 1. *)
Definition MAX_SAFE_INTEGER : Z := 9007199254740991.

(** The same pattern as [ALLOWED_STORE_NAME_PATTERN]. *)
Definition ALLOWED_DB_NAME_PATTERN (name : string) : bool :=
  negb (name =? "") && forallb allowed_name_char (list_ascii_of_string name).

Definition validateDatabaseName (name : string) : Res unit :=
  if name =? "" then Throw "Database name must be a non-empty string"
  else if (MAX_DB_NAME_LENGTH <? String.length name)%nat then
    Throw ("Database name exceeds maximum length of "
           +:+ show_nat MAX_DB_NAME_LENGTH +:+ " characters")
  else if negb (ALLOWED_DB_NAME_PATTERN name) then
    Throw "Database name contains invalid characters. Only alphanumeric, underscore, and hyphen are allowed"
  else if is_reserved name then Throw "Database name is reserved and cannot be used"
  else Ok tt.

Definition validateIndexDefinition (storeName : string) (indexIndex : nat)
           (indexDef : IndexDefinition) : Res IndexDefinition :=
  if def_index_name indexDef =? "" then
    Throw ("Index name at index " +:+ show_nat indexIndex +:+ " for store '"
           +:+ storeName +:+ "' must be a non-empty string")
  else if (MAX_INDEX_NAME_LENGTH <? String.length (def_index_name indexDef))%nat then
    Throw ("Index name '" +:+ def_index_name indexDef +:+ "' exceeds maximum length of "
           +:+ show_nat MAX_INDEX_NAME_LENGTH +:+ " characters")
  else if is_reserved (def_index_name indexDef) then
    Throw ("Index name '" +:+ def_index_name indexDef
           +:+ "' is reserved and cannot be used")
  else Ok indexDef.

Fixpoint validateIndexDefinitions (storeName : string) (indexIndex : nat)
         (indexes : list IndexDefinition) : Res (list IndexDefinition) :=
  match indexes with
  | [] => Ok []
  | indexDef :: rest =>
      match validateIndexDefinition storeName indexIndex indexDef with
      | Throw e => Throw e
      | Ok validated =>
          match validateIndexDefinitions storeName (S indexIndex) rest with
          | Throw e => Throw e
          | Ok rest' => Ok (validated :: rest')
          end
      end
  end.

Definition validateStoreDefinition (storeDef : StoreDefinition) : Res StoreDefinition :=
  match validateStoreName (def_name storeDef) with
  | Throw e => Throw e
  | Ok _ =>
      match def_indexes storeDef with
      | None => Ok {| def_name := def_name storeDef; def_keyPath := def_keyPath storeDef;
                      def_indexes := None |}
      | Some indexes =>
          match validateIndexDefinitions (def_name storeDef) 0 indexes with
          | Throw e => Throw e
          | Ok validated =>
              Ok {| def_name := def_name storeDef; def_keyPath := def_keyPath storeDef;
                    def_indexes := Some validated |}
          end
      end
  end.

Fixpoint validateEach (stores : list StoreDefinition) : Res (list StoreDefinition) :=
  match stores with
  | [] => Ok []
  | storeDef :: rest =>
      match validateStoreDefinition storeDef with
      | Throw e => Throw e
      | Ok validated =>
          match validateEach rest with
          | Throw e => Throw e
          | Ok rest' => Ok (validated :: rest')
          end
      end
  end.

Definition validateStoreDefinitions (stores : list StoreDefinition)
  : Res (list StoreDefinition) :=
  match stores with
  | [] => Throw "Store definitions must be a non-empty array"
  | _ => validateEach stores
  end.

(** The index a definition asks for, and the indexes of a store
    definition ([[]] when it has none). *)
Definition index_of (index : IndexDefinition) : Index :=
  {| index_name := def_index_name index; index_keyPath := def_index_keyPath index |}.

Definition declared_indexes (storeDef : StoreDefinition) : list IndexDefinition :=
  match def_indexes storeDef with
  | Some indexes => indexes
  | None => []
  end.

Section WithEngine.
Variable engine : Engine.

(** [db.createObjectStore(name, options)]. *)
Definition createObjectStore (name : string) (kp : option KeyPath)
           (stores : gmap string ObjectStore) : Res (gmap string ObjectStore) :=
  if match kp with Some p => negb (valid_key_path engine p) | None => false end
  then Throw SyntaxError
  else
    match stores !! name with
    | Some _ => Throw ConstraintError
    | None => Ok (<[name := {| keyPath := kp; indexes := []; records := [] |}]> stores)
    end.

(** [store.createIndex(name, keyPath, options)]. *)
Definition createIndex (storeName : string) (index : IndexDefinition)
           (stores : gmap string ObjectStore) : Res (gmap string ObjectStore) :=
  match stores !! storeName with
  | None => Throw NotFoundError
  | Some store =>
      match find_index (def_index_name index) store with
      | Some _ => Throw ConstraintError
      | None =>
          if negb (valid_key_path engine (def_index_keyPath index)) then Throw SyntaxError
          else
            Ok (<[storeName :=
                   {| keyPath := keyPath store;
                      indexes := indexes store ++ [index_of index];
                      records := records store |}]> stores)
      end
  end.

Fixpoint createIndexes (storeName : string) (indexes : list IndexDefinition)
         (stores : gmap string ObjectStore) : Res (gmap string ObjectStore) :=
  match indexes with
  | [] => Ok stores
  | index :: rest =>
      match createIndex storeName index stores with
      | Throw e => Throw e
      | Ok stores' => createIndexes storeName rest stores'
      end
  end.

(** The [onupgradeneeded] handler of [getDatabase]. *)
Fixpoint onupgradeneeded (validatedStores : list StoreDefinition)
         (stores : gmap string ObjectStore) : Res (gmap string ObjectStore) :=
  match validatedStores with
  | [] => Ok stores
  | storeDef :: rest =>
      match createObjectStore (def_name storeDef) (def_keyPath storeDef) stores with
      | Throw e => Throw e
      | Ok stores1 =>
          match createIndexes (def_name storeDef) (declared_indexes storeDef) stores1 with
          | Throw e => Throw e
          | Ok stores2 => onupgradeneeded rest stores2
          end
      end
  end.

(** [indexedDb.open(name, version)] with its upgrade handler. A version
    that is given is an integer from 1 to 2^53 - 1, or [open] throws. *)
Definition open (name : string) (requested : option Z)
           (upgrade : gmap string ObjectStore -> Res (gmap string ObjectStore))
           (factory : Factory) : Res StoredDatabase * Factory :=
  if match requested with
     | Some v => (v <? 1)%Z || (MAX_SAFE_INTEGER <? v)%Z
     | None => false
     end
  then (Throw TypeError, factory)
  else
  match factory !! name with
  | None =>
      match upgrade ∅ with
      | Throw e => (Throw e, factory)
      | Ok stores =>
          let db := {| version := match requested with Some v => v | None => 1 end;
                       objectStores := stores |} in
          (Ok db, <[name := db]> factory)
      end
  | Some existing =>
      match requested with
      | None => (Ok existing, factory)
      | Some v =>
          if (v <? version existing)%Z then (Throw VersionError, factory)
          else if (v =? version existing)%Z then (Ok existing, factory)
          else
            match upgrade (objectStores existing) with
            | Throw e => (Throw e, factory)
            | Ok stores =>
                let db := {| version := v; objectStores := stores |} in
                (Ok db, <[name := db]> factory)
            end
      end
  end.

Definition getDatabase (name : string) (stores : list StoreDefinition)
           (requested : option Z) (factory : Factory) : Res StoredDatabase * Factory :=
  match validateDatabaseName name with
  | Throw e => (Throw e, factory)
  | Ok _ =>
      match validateStoreDefinitions stores with
      | Throw e => (Throw e, factory)
      | Ok validatedStores =>
          if match requested with Some v => (v <? 1)%Z | None => false end
          then (Throw "Database version must be a positive integer", factory)
          else open name requested (onupgradeneeded validatedStores) factory
      end
  end.

(** The engine accepts every key path of a store definition. *)
Definition key_paths_valid (storeDef : StoreDefinition) : bool :=
  match def_keyPath storeDef with
  | Some p => valid_key_path engine p
  | None => true
  end
  && forallb (fun index => valid_key_path engine (def_index_keyPath index))
             (declared_indexes storeDef).

End WithEngine.

(** The store a definition asks for. *)
Definition declared_store (storeDef : StoreDefinition) : ObjectStore :=
  {| keyPath := def_keyPath storeDef;
     indexes := map index_of (declared_indexes storeDef);
     records := [] |}.

(** The store definitions of [AvatarsService]. *)
Definition avatar_definitions : list StoreDefinition :=
  [ {| def_name := "abstracts"; def_keyPath := Some (KeyName "key"); def_indexes := None |};
    {| def_name := "images"; def_keyPath := Some (KeyNames ["key"; "avatarKey"]);
       def_indexes :=
         Some [ {| def_index_name := "avatarKey"; def_index_keyPath := KeyName "avatarKey" |};
                {| def_index_name := "type";
                   def_index_keyPath := KeyNames ["avatarKey"; "type"] |} ] |} ].

End DatabaseOpen.

(** ** ValidationService and the character effects

    The checks [CharacterEffects.saveCharacter] runs and the [put] it
    makes. The outcome is the action the effect emits, or the error its
    stream fails with. *)

Module CharacterEffects.
Import DatabaseService DatabaseOpen.

Record CharacterValidation := { characterValid : bool; characterErrors : list string }.

(** The class of [isValidName]: letters, white space, hyphen and
    apostrophe; the pattern is anchored at both ends. *)
Definition name_char (c : ascii) : bool :=
  let n := nat_of_ascii c in
  (((97 <=? n) && (n <=? 122)) || ((65 <=? n) && (n <=? 90)))%nat
  || Regex.is_space c || Ascii.eqb c "-" || Ascii.eqb c "'".

Definition isValidName (name : value) : bool :=
  match name with
  | VStr s =>
      negb (s =? "")
      && negb ((String.length s <? 1)%nat || (50 <? String.length s)%nat)
      && forallb name_char (list_ascii_of_string s)
  | _ => false
  end.

(** [list.includes(v?.toLowerCase())]: a [TypeError] when [v] is
    neither a string nor [null] nor [undefined]. *)
Definition includes_lower (list : list string) (v : value) : Res bool :=
  match v with
  | VStr s => Ok (includes list (toLowerCase s))
  | VNull | VUndefined => Ok false
  | _ => Throw "toLowerCase is not a function"
  end.

Definition isValidGender (gender : value) : Res bool :=
  includes_lower ["male"; "female"; "non-binary"] gender.

Definition isValidPronouns (pronouns : value) : Res bool :=
  includes_lower ["he/him"; "she/her"; "they/them"] pronouns.

Definition NAME_RULE : string :=
  " must be between 1-50 characters and contain only letters, spaces, hyphens, and apostrophes".

Definition name_errors (label : string) (v : value) : list string :=
  if negb (truthy v) || negb (isValidName v) then [label +:+ NAME_RULE] else [].

Definition validateCharacter (character : value) : Res CharacterValidation :=
  match character with
  | VNull | VUndefined => Throw (AvatarsService.cannot_read character "givenName")
  | _ =>
      let names :=
        name_errors "Given name" (JS.get character "givenName")
        ++ name_errors "Surname" (JS.get character "surname")
        ++ name_errors "Preferred name" (JS.get character "preferredName") in
      match (if truthy (JS.get character "gender")
             then isValidGender (JS.get character "gender") else Ok false) with
      | Throw e => Throw e
      | Ok genderOk =>
          match (if truthy (JS.get character "pronouns")
                 then isValidPronouns (JS.get character "pronouns") else Ok false) with
          | Throw e => Throw e
          | Ok pronounsOk =>
              let errors :=
                names
                ++ (if genderOk then []
                    else ["Gender must be one of: male, female, non-binary"])
                ++ (if pronounsOk then []
                    else ["Pronouns must be one of: he/him, she/her, they/them"]) in
              Ok {| characterValid := match errors with [] => true | _ => false end;
                    characterErrors := errors |}
          end
      end
  end.

Definition DATABASE_NAME : string := "characters".
Definition STORE_NAME : string := "characters".

Definition character_definitions : list StoreDefinition :=
  [ {| def_name := STORE_NAME; def_keyPath := Some (KeyName "key"); def_indexes := None |} ].

Inductive CharacterAction :=
| saveCharacterSuccess (character : value)
| saveCharacterFailure (message : string).

(** An argument that may be [undefined]. *)
Definition optional (v : value) : option value :=
  match v with VUndefined => None | _ => Some v end.

(** [this.errorHandler.sanitizeError(error)]: [ErrorHandlerService]
    declares no method of that name, so the call is a [TypeError]. *)
Definition sanitizeError (error : string) : Res string :=
  Throw "this.errorHandler.sanitizeError is not a function".

(** What the effect does with one action: it emits an action, or its
    stream fails with an error. *)
Inductive Outcome :=
| Emitted (action : CharacterAction)
| Failed (error : string).

(** [saveCharacterFailure({ error: this.errorHandler.sanitizeError(error) })]. *)
Definition failure (error : string) : Res CharacterAction :=
  match sanitizeError error with
  | Ok sanitized => Ok (saveCharacterFailure sanitized)
  | Throw e => Throw e
  end.

(** The [catchError] that closes the pipe: an error of the inner
    observable becomes a failure action, unless building that action
    throws in its turn. *)
Definition catchError (inner : Res CharacterAction) : Outcome :=
  match inner with
  | Ok action => Emitted action
  | Throw error =>
      match failure error with
      | Ok action => Emitted action
      | Throw e => Failed e
      end
  end.

(** The body of the [saveCharacter$] effect for one action. An error of
    the validation, or one thrown by [put] itself, reaches the [catch]
    block; a rejected [put] reaches the rejection handler of [then]. *)
Definition saveCharacter (character : value) (db : Database) : Outcome * Database :=
  match validateCharacter character with
  | Throw e => (catchError (failure e), db)
  | Ok validationResult =>
      if negb (characterValid validationResult) then
        (catchError (failure ("Character validation failed: "
                              +:+ join ", " (characterErrors validationResult))), db)
      else
        match put_check STORE_NAME (optional (JS.get character "key")) with
        | Throw e => (catchError (failure e), db)
        | Ok _ =>
            match put_run db STORE_NAME character (optional (JS.get character "key")) with
            | (Ok _, db') => (catchError (Ok (saveCharacterSuccess character)), db')
            | (Throw e, db') => (catchError (failure e), db')
            end
        end
  end.

End CharacterEffects.

(** ** Examples for the character effects and the import of manifests *)

Module Scenario.
Import DatabaseService DatabaseOpen CharacterEffects.

Definition ada : value :=
  VObj [ ("key", VStr "ada"); ("givenName", VStr "Ada"); ("surname", VStr "Lovelace");
         ("preferredName", VStr "Ada"); ("gender", VStr "Female");
         ("pronouns", VStr "she/her") ].

(** The database of the character effects as [getDatabase] creates it. *)
Definition character_database : Database :=
  {| stores := <[STORE_NAME := declared_store {| def_name := STORE_NAME;
                                                 def_keyPath := Some (KeyName "key");
                                                 def_indexes := None |}]> ∅;
     fails := fun _ => false;
     log := [] |}.

(** A stand-in for the engine's check of key paths, enough for those of
    the services: names made of letters. *)
Definition plain_name (p : string) : bool :=
  negb (p =? "")
  && forallb (fun c => let n := nat_of_ascii c in
                       (((97 <=? n) && (n <=? 122)) || ((65 <=? n) && (n <=? 90)))%nat)
             (list_ascii_of_string p).

Definition plain_engine : Engine :=
  {| valid_key_path := fun kp =>
       match kp with
       | KeyName p => plain_name p
       | KeyNames ps => match ps with [] => false | _ => forallb plain_name ps end
       end |}.

(** A manifest without images, and a stored image. *)
Definition plain_manifest : value :=
  VObj [ ("key", VStr "pack"); ("description", VStr "A pack") ].

(** A manifest whose key is a reserved name. *)
Definition reserved_manifest : value :=
  VObj [ ("key", VStr "constructor"); ("description", VStr "A pack");
         ("images", VArr []) ].

Definition stored_image : value :=
  VObj [ ("key", VStr "standard"); ("avatarKey", VStr "pack"); ("source", VNull);
         ("blob", VObj []) ].

End Scenario.

(** * Properties *)

(** ** Strings and values *)

Module Facts.

Lemma startsWith_app (s p q : string) :
  startsWith s (p +:+ q) = true -> startsWith s p = true.
Proof.
  revert s; induction p as [|c p IH]; intros s H; [now destruct s|].
  destruct s as [|d s]; simpl in *; [discriminate|].
  apply andb_true_iff in H as [Hc Hs].
  rewrite Hc; simpl. now apply IH.
Qed.

Lemma includes_true (l : list string) (s : string) :
  includes l s = true <-> In s l.
Proof.
  unfold includes. rewrite existsb_exists. split.
  - intros [x [Hx Heq]]. apply String.eqb_eq in Heq. now subst.
  - intros H. exists s. split; [assumption | apply String.eqb_refl].
Qed.

End Facts.

(** ** URL validation *)

Module UrlProps.
Import SecurityService Example Facts.

Lemma is_local_host_private (h : string) : private_host h -> is_local_host h = true.
Proof.
  unfold private_host, is_local_host.
  intros [-> | [-> | [H | [H | H]]]]; try reflexivity.
  - rewrite H. now rewrite !orb_true_r.
  - rewrite H. now rewrite !orb_true_r.
  - apply (startsWith_app h "172." "16.") in H. rewrite H. now rewrite !orb_true_r.
Qed.

Lemma errors_nonempty_invalid (errs : list string) :
  errs <> [] ->
  isValid (match errs with [] => valid | _ => invalid errs end) = false.
Proof. destruct errs; [congruence | reflexivity]. Qed.

(** C8. A URL is rejected by [validateUrl] when it does not parse, when
    its scheme is neither http nor https, or when its host is a loopback
    name or starts with one of the private prefixes. *)
Theorem validateUrl_rejects_unsafe (env : Env) (url : string) :
  match parseURL env url with
  | None => True
  | Some u =>
      (protocol u <> "http:" /\ protocol u <> "https:") \/ private_host (hostname u)
  end ->
  isValid (validateUrl env (VStr url)) = false.
Proof.
  intros H. unfold validateUrl.
  destruct (String.eqb url "") eqn:Hempty; [reflexivity|].
  destruct (parseURL env url) as [u|]; [|reflexivity].
  apply errors_nonempty_invalid.
  destruct H as [[Hhttp Hhttps] | Hpriv].
  - assert (Hinc : includes ["http:"; "https:"] (protocol u) = false).
    { destruct (includes _ _) eqn:E; [|reflexivity].
      apply includes_true in E. simpl in E. intuition congruence. }
    rewrite Hinc. simpl. discriminate.
  - rewrite (is_local_host_private _ Hpriv).
    intros Habs. apply (f_equal (@List.length string)) in Habs.
    rewrite !length_app in Habs. simpl in Habs. lia.
Qed.

Lemma validateUrl_rejects_unsafe_witness :
  isValid (validateUrl two_image_env (VStr "http://192.168.1.1/admin")) = false.
Proof.
  apply validateUrl_rejects_unsafe. vm_compute.
  right. right. right. left. reflexivity.
Defined.

(** C10. Every URL that parses with a host starting with [172.] is
    rejected with the local/private-IP error, whatever follows the
    prefix: the check is broader than the 172.16 block. *)
Theorem validateUrl_rejects_all_172 (env : Env) (url : string) (u : URL) :
  url <> "" ->
  parseURL env url = Some u ->
  startsWith (hostname u) "172." = true ->
  isValid (validateUrl env (VStr url)) = false
  /\ In LOCAL_IP_ERROR (errors (validateUrl env (VStr url))).
Proof.
  intros Hne Hparse H172. unfold validateUrl.
  apply String.eqb_neq in Hne. rewrite Hne, Hparse.
  assert (Hlocal : is_local_host (hostname u) = true).
  { unfold is_local_host. rewrite H172. now rewrite !orb_true_r. }
  rewrite Hlocal.
  set (errs := (_ ++ _ ++ [LOCAL_IP_ERROR])%list).
  assert (Hin : In LOCAL_IP_ERROR errs).
  { unfold errs. rewrite !in_app_iff. right. right. now left. }
  destruct errs as [|e errs']; [destruct Hin|].
  split; [reflexivity | exact Hin].
Qed.

Lemma validateUrl_rejects_all_172_witness :
  isValid (validateUrl two_image_env (VStr "https://172.217.0.0/logo.png")) = false
  /\ In LOCAL_IP_ERROR (errors (validateUrl two_image_env (VStr "https://172.217.0.0/logo.png"))).
Proof.
  apply (validateUrl_rejects_all_172 two_image_env "https://172.217.0.0/logo.png"
           {| protocol := "https:"; hostname := "172.217.0.0" |});
    [discriminate | reflexivity | reflexivity].
Defined.

End UrlProps.

(** ** Rate limiting *)

Module RateProps.
Import SecurityService Example.

Lemma calls_app (a b : list Z) (k : string) (n w : Z) (m : gmap string RateLimitEntry) :
  checkRateLimit_calls (a ++ b) k n w m =
  let '(x, m1) := checkRateLimit_calls a k n w m in
  let '(y, m2) := checkRateLimit_calls b k n w m1 in
  (x ++ y, m2).
Proof.
  revert m; induction a as [|t a IH]; intros m; simpl.
  - now destruct (checkRateLimit_calls b k n w m).
  - destruct (checkRateLimit t k n w m) as [r m1]. rewrite IH.
    destruct (checkRateLimit_calls a k n w m1) as [x m2].
    now destruct (checkRateLimit_calls b k n w m2).
Qed.

(** Inside a window, while the count stays below the limit, every call
    is allowed and counted. *)
Lemma calls_inside_window (ts : list Z) (k : string) (n w c r : Z)
      (m : gmap string RateLimitEntry) :
  m !! k = Some {| count := c; resetTime := r |} ->
  Forall (fun t => (t <= r)%Z) ts ->
  (c + Z.of_nat (List.length ts) <= n)%Z ->
  checkRateLimit_calls ts k n w m =
  (repeat true (List.length ts),
   <[k := {| count := c + Z.of_nat (List.length ts); resetTime := r |}]> m).
Proof.
  revert c m; induction ts as [|t ts IH]; intros c m Hk Hts Hc.
  - simpl. rewrite Z.add_0_r. now rewrite insert_id.
  - inversion Hts as [|? ? Ht Hts']; subst.
    cbn [checkRateLimit_calls]. unfold checkRateLimit. rewrite Hk. cbn [resetTime count].
    assert (Hr : (r <? t)%Z = false) by (apply Z.ltb_ge; lia).
    assert (Hn : (n <=? c)%Z = false) by (apply Z.leb_gt; cbn [List.length] in Hc; lia).
    rewrite Hr, Hn.
    rewrite (IH (c + 1)%Z); [ | apply lookup_insert_eq | assumption
                              | cbn [List.length] in Hc; lia ].
    rewrite insert_insert_eq. cbn [List.length repeat].
    do 3 f_equal. lia.
Qed.

Lemma first_call_opens_window (t0 : Z) (k : string) (n w : Z)
      (m : gmap string RateLimitEntry) :
  (m !! k = None \/ exists e, m !! k = Some e /\ (resetTime e < t0)%Z) ->
  checkRateLimit t0 k n w m =
  (true, <[k := {| count := 1; resetTime := t0 + w |}]> m).
Proof.
  unfold checkRateLimit. intros [-> | [e [-> He]]]; [reflexivity|].
  apply Z.ltb_lt in He. now rewrite He.
Qed.

Lemma checkRateLimit_other_key (t : Z) (k k' : string) (n w : Z)
      (m : gmap string RateLimitEntry) :
  k' <> k -> snd (checkRateLimit t k n w m) !! k' = m !! k'.
Proof.
  intros Hne. unfold checkRateLimit.
  destruct (m !! k) as [e|]; simpl.
  - destruct (resetTime e <? t)%Z; simpl; [now rewrite lookup_insert_ne|].
    destruct (n <=? count e)%Z; simpl; [reflexivity | now rewrite lookup_insert_ne].
  - now rewrite lookup_insert_ne.
Qed.

Lemma calls_other_key (ts : list Z) (k k' : string) (n w : Z)
      (m : gmap string RateLimitEntry) :
  k' <> k -> snd (checkRateLimit_calls ts k n w m) !! k' = m !! k'.
Proof.
  intros Hne. revert m; induction ts as [|t ts IH]; intros m; [reflexivity|].
  simpl. pose proof (checkRateLimit_other_key t k k' n w m Hne) as H1.
  destruct (checkRateLimit t k n w m) as [b m1]. simpl in H1.
  specialize (IH m1). destruct (checkRateLimit_calls ts k n w m1) as [bs m2].
  simpl in *. congruence.
Qed.

(** C7. Starting a window for key [k] with limit [n >= 1]: of [n + 1]
    calls inside the window the first [n] are allowed and the last is
    refused and changes nothing, the count staying at [n]; a call after
    the reset time is allowed again; entries of other keys are neither
    read nor written. *)
Theorem checkRateLimit_fixed_window
        (k : string) (n : nat) (w t0 : Z) (ts : list Z) (m : gmap string RateLimitEntry) :
  (1 <= n)%nat ->
  (m !! k = None \/ exists e, m !! k = Some e /\ (resetTime e < t0)%Z) ->
  List.length ts = n ->
  Forall (fun t => (t <= t0 + w)%Z) ts ->
  let run := checkRateLimit_calls (t0 :: ts) k (Z.of_nat n) w m in
  fst run = repeat true n ++ [false]
  /\ snd run !! k = Some {| count := Z.of_nat n; resetTime := t0 + w |}
  /\ snd run = snd (checkRateLimit_calls (t0 :: removelast ts) k (Z.of_nat n) w m)
  /\ (forall t, (t0 + w < t)%Z -> fst (checkRateLimit t k (Z.of_nat n) w (snd run)) = true)
  /\ (forall k', k' <> k -> snd run !! k' = m !! k')
  /\ (forall t m2, m2 !! k = snd run !! k ->
        fst (checkRateLimit t k (Z.of_nat n) w m2)
        = fst (checkRateLimit t k (Z.of_nat n) w (snd run))).
Proof.
  intros Hn Hfresh Hlen Hts run.
  destruct (exists_last (l := ts)) as [ts1 [tl Hsplit]];
    [intros ->; simpl in Hlen; lia|].
  assert (Hlen1 : List.length ts1 = (n - 1)%nat).
  { rewrite Hsplit, length_app in Hlen. simpl in Hlen. lia. }
  assert (Hts1 : Forall (fun t => (t <= t0 + w)%Z) ts1 /\ (tl <= t0 + w)%Z).
  { rewrite Hsplit in Hts. apply Forall_app in Hts as [H1 H2].
    split; [assumption | now inversion H2]. }
  destruct Hts1 as [Hts1 Htl].
  set (m1 := <[k := {| count := 1; resetTime := t0 + w |}]> m).
  set (mn := <[k := {| count := Z.of_nat n; resetTime := t0 + w |}]> m).
  assert (Hprefix : checkRateLimit_calls (t0 :: ts1) k (Z.of_nat n) w m = (repeat true n, mn)).
  { cbn [checkRateLimit_calls]. rewrite (first_call_opens_window _ _ _ _ _ Hfresh).
    fold m1.
    rewrite (calls_inside_window ts1 k (Z.of_nat n) w 1 (t0 + w) m1);
      [ | apply lookup_insert_eq | assumption | lia ].
    unfold m1. rewrite insert_insert_eq. rewrite Hlen1.
    replace (1 + Z.of_nat (n - 1))%Z with (Z.of_nat n) by lia.
    replace n with (S (n - 1)) at 3 by lia. reflexivity. }
  assert (Hlast : checkRateLimit tl k (Z.of_nat n) w mn = (false, mn)).
  { unfold checkRateLimit, mn. rewrite lookup_insert_eq. cbn [resetTime count].
    assert (Hr : (t0 + w <? tl)%Z = false) by (apply Z.ltb_ge; lia).
    rewrite Hr, Z.leb_refl. reflexivity. }
  assert (Hrun : run = (repeat true n ++ [false], mn)).
  { unfold run. rewrite Hsplit.
    change (t0 :: ts1 ++ [tl]) with ((t0 :: ts1) ++ [tl]).
    rewrite calls_app, Hprefix. cbn [checkRateLimit_calls]. now rewrite Hlast. }
  rewrite Hrun. cbn [fst snd].
  split; [reflexivity|].
  split; [apply lookup_insert_eq|].
  split.
  { rewrite Hsplit, removelast_last, Hprefix. reflexivity. }
  split.
  { intros t Ht. unfold checkRateLimit, mn. rewrite lookup_insert_eq. cbn [resetTime].
    apply Z.ltb_lt in Ht. now rewrite Ht. }
  split.
  { intros k' Hne. unfold mn. now rewrite lookup_insert_ne. }
  intros t m2 Heq. unfold checkRateLimit. rewrite Heq.
  destruct (mn !! k) as [e|]; [|reflexivity].
  destruct (resetTime e <? t)%Z; [reflexivity|].
  now destruct (Z.of_nat n <=? count e)%Z.
Qed.

Lemma checkRateLimit_fixed_window_witness :
  fst (checkRateLimit_calls [1000; 1001; 1002; 1003]%Z "download:x" 3 60000 ∅)
  = [true; true; true; false].
Proof.
  pose proof (checkRateLimit_fixed_window "download:x" 3 60000 1000
                [1001; 1002; 1003]%Z ∅) as H.
  apply H.
  - lia.
  - left. reflexivity.
  - reflexivity.
  - repeat constructor; lia.
Defined.

End RateProps.

(** ** The object store *)

Module StoreProps.
Import SecurityService DatabaseService Example Facts Invariants.

(** Induction on values that reaches the elements of arrays and the
    property values of objects. *)
Lemma value_nested_ind (P : value -> Prop) :
  P VUndefined -> P VNull ->
  (forall b, P (VBool b)) -> (forall n, P (VNum n)) -> (forall s, P (VStr s)) ->
  (forall items, Forall P items -> P (VArr items)) ->
  (forall props, Forall (fun kv => P (snd kv)) props -> P (VObj props)) ->
  (forall size type, P (VBlob size type)) ->
  forall v, P v.
Proof.
  intros Hu Hn Hb Hz Hs Ha Ho Hbl.
  fix IH 1. intros [ | | b | n | s | items | props | size type ].
  - exact Hu.
  - exact Hn.
  - apply Hb.
  - apply Hz.
  - apply Hs.
  - apply Ha. induction items as [|x xs IHxs]; constructor; [apply IH | exact IHxs].
  - apply Ho. induction props as [|[k x] ps IHps]; constructor; [apply IH | exact IHps].
  - apply Hbl.
Qed.

Lemma value_eqb_refl (v : value) : value_eqb v v = true.
Proof.
  induction v as [ | | b | n | s | items IH | props IH | size type ] using value_nested_ind;
    simpl.
  - reflexivity.
  - reflexivity.
  - now destruct b.
  - apply Z.eqb_refl.
  - apply String.eqb_refl.
  - induction IH as [|x xs Hx _ IHxs]; [reflexivity|]. now rewrite Hx, IHxs.
  - induction IH as [|[k x] ps Hx _ IHps]; [reflexivity|].
    simpl in Hx. now rewrite String.eqb_refl, Hx, IHps.
  - now rewrite Z.eqb_refl, String.eqb_refl.
Qed.

Lemma has_key_refl (k v : value) : has_key k (k, v) = true.
Proof. unfold has_key. cbn [fst]. apply value_eqb_refl. Qed.

Lemma find_insert_record (k v : value) (rs : list (value * value)) :
  (forall r, In r rs -> has_key k r = false) ->
  find (has_key k) (insert_record k v rs) = Some (k, v).
Proof.
  induction rs as [|r rs IH]; intros Hnone; cbn [insert_record].
  - cbn [find]. now rewrite has_key_refl.
  - destruct (key_compare k (fst r)); cbn [find]; try now rewrite has_key_refl.
    rewrite (Hnone r (or_introl eq_refl)). apply IH.
    intros r' Hr'. apply Hnone. now right.
Qed.

Lemma lookup_put_record (k v : value) (rs : list (value * value)) :
  lookup_record k (put_record k v rs) = Some v.
Proof.
  unfold lookup_record, put_record, delete_record.
  rewrite find_insert_record; [reflexivity|].
  intros r Hr. apply filter_In in Hr as [_ Hr]. now apply negb_true_iff in Hr.
Qed.

Lemma json_clone_id (v : value) : is_json v = true -> json_clone v = Some v.
Proof.
  induction v as [ | | b | n | s | items IH | props IH | size type ] using value_nested_ind;
    simpl; intros H; try reflexivity; try discriminate.
  - do 2 f_equal. induction IH as [|x xs Hx _ IHxs]; [reflexivity|].
    simpl in H. apply andb_true_iff in H as [H1 H2].
    simpl. now rewrite (Hx H1), (IHxs H2).
  - do 2 f_equal. induction IH as [|[k x] ps Hx _ IHps]; [reflexivity|].
    simpl in H, Hx. apply andb_true_iff in H as [H1 H2].
    now rewrite (Hx H1), (IHps H2).
Qed.

Lemma delete_prop_filter (k : string) (props : list (string * value)) :
  delete_prop k props = List.filter (fun kv => negb (String.eqb k (fst kv))) props.
Proof.
  induction props as [|[k' x] ps IH]; [reflexivity|].
  simpl. destruct (String.eqb k k'); simpl; now rewrite IH.
Qed.

Lemma filter_filter {A} (f g : A -> bool) (l : list A) :
  List.filter f (List.filter g l) = List.filter (fun x => g x && f x) l.
Proof.
  induction l as [|x l IH]; [reflexivity|].
  simpl. destruct (g x); simpl; [destruct (f x)|]; now rewrite IH.
Qed.

Lemma delete_reserved_filter (props : list (string * value)) :
  fold_left (fun clonedData reservedName => delete_prop reservedName clonedData)
            RESERVED_NAMES props
  = List.filter not_reserved_name props.
Proof.
  unfold RESERVED_NAMES. cbn [fold_left].
  rewrite !delete_prop_filter, !filter_filter.
  apply filter_ext. intros [k x]. unfold not_reserved_name, includes.
  unfold RESERVED_NAMES. cbn [fst existsb].
  rewrite !(String.eqb_sym k).
  destruct (String.eqb "__proto__" k), (String.eqb "constructor" k),
    (String.eqb "prototype" k), (String.eqb "toString" k), (String.eqb "valueOf" k);
    reflexivity.
Qed.

Lemma sanitizeData_object (props cloned : list (string * value)) :
  json_clone (VObj props) = Some (VObj cloned) ->
  sanitizeData (VObj props) = VObj (List.filter not_reserved_name cloned).
Proof.
  intros H. unfold sanitizeData. rewrite H. now rewrite delete_reserved_filter.
Qed.

Lemma lookup_filter_first (p : string * value -> bool) (k : string) (x : value)
      (props : list (string * value)) :
  lookup_prop k props = Some x -> p (k, x) = true ->
  lookup_prop k (List.filter p props) = Some x.
Proof.
  induction props as [|[k' y] ps IH]; simpl; [discriminate|].
  destruct (String.eqb k k') eqn:E.
  - intros [= ->] Hp. apply String.eqb_eq in E; subst k'.
    rewrite Hp. simpl. now rewrite String.eqb_refl.
  - intros Hl Hp. destruct (p (k', y)); simpl; [rewrite E|]; now apply IH.
Qed.

Lemma json_clone_object (props : list (string * value)) :
  exists cloned, json_clone (VObj props) = Some (VObj cloned).
Proof. cbn [json_clone]. eauto. Qed.

(** The JSON copy of an object holds, under each name, the copy of the
    value the object holds there. *)
Lemma json_clone_lookup (props : list (string * value)) :
  forall (cloned : list (string * value)) (k : string) (y copy : value),
    json_clone (VObj props) = Some (VObj cloned) ->
    lookup_prop k props = Some y ->
    json_clone y = Some copy ->
    lookup_prop k cloned = Some copy.
Proof.
  induction props as [|[k0 y0] rest IH]; intros cloned k y copy Hclone Hk Hy;
    [discriminate|].
  cbn [json_clone] in Hclone. injection Hclone as <-.
  cbn [lookup_prop] in Hk. destruct (String.eqb k k0) eqn:E.
  - injection Hk as ->. rewrite Hy. cbn [lookup_prop]. now rewrite E.
  - destruct (json_clone y0) as [x0|].
    + cbn [lookup_prop]. rewrite E. now apply (IH _ k y copy eq_refl).
    + now apply (IH _ k y copy eq_refl).
Qed.

Lemma json_clone_step (v c1 : value) (s : Step) :
  json_clone (get_step v s) = Some c1 ->
  exists c, json_clone v = Some c /\ get_step c s = c1.
Proof.
  intros Hc1. destruct s as [k|i].
  - destruct v as [ | | b | n | str | items | props | size type ]; try discriminate Hc1.
    cbn [get_step JS.get] in Hc1.
    destruct (lookup_prop k props) as [y|] eqn:Hk; [|discriminate].
    destruct (json_clone_object props) as [cloned Hcloned].
    exists (VObj cloned). split; [exact Hcloned|].
    cbn [get_step JS.get]. now rewrite (json_clone_lookup props cloned k y c1 Hcloned Hk Hc1).
  - destruct v as [ | | b | n | str | items | props | size type ]; try discriminate Hc1.
    cbn [get_step] in Hc1.
    destruct (nth_error items i) as [x|] eqn:Hi; [|discriminate].
    exists (VArr (map (fun item => match json_clone item with
                                   | Some item' => item'
                                   | None => VNull
                                   end) items)).
    split; [reflexivity|].
    cbn [get_step]. rewrite nth_error_map, Hi.
    cbv beta iota delta [option_map]. now rewrite Hc1.
Qed.

Lemma json_clone_path (path : list Step) :
  forall (v copy : value),
    json_clone (get_path v path) = Some copy ->
    exists c, json_clone v = Some c /\ get_path c path = copy.
Proof.
  induction path as [|s rest IH]; intros v copy Hcopy.
  - exists copy. split; [exact Hcopy|reflexivity].
  - cbn [get_path] in Hcopy.
    destruct (IH _ _ Hcopy) as (c1 & Hc1 & Hrest).
    destruct (json_clone_step v c1 s Hc1) as (c & Hc & Hstep).
    exists c. split; [exact Hc|]. cbn [get_path]. now rewrite Hstep.
Qed.

Lemma lookup_filter_reserved (k : string) (props : list (string * value)) :
  includes RESERVED_NAMES k = true ->
  lookup_prop k (List.filter not_reserved_name props) = None.
Proof.
  intros Hk. induction props as [|[k0 y0] rest IH]; [reflexivity|].
  cbn [List.filter]. unfold not_reserved_name at 1. cbn [fst].
  destruct (includes RESERVED_NAMES k0) eqn:E0; cbn [negb]; [exact IH|].
  cbn [lookup_prop]. destruct (String.eqb_spec k k0) as [->|Hne]; [congruence|exact IH].
Qed.

Lemma lookup_filter_none (p : string * value -> bool) (k : string)
      (props : list (string * value)) :
  lookup_prop k props = None -> lookup_prop k (List.filter p props) = None.
Proof.
  induction props as [|[k0 y0] rest IH]; [reflexivity|].
  cbn [lookup_prop List.filter]. destruct (String.eqb k k0) eqn:E; [discriminate|].
  intros H. destruct (p (k0, y0)); [cbn [lookup_prop]; rewrite E|]; now apply IH.
Qed.

(** [sanitizeData] is the JSON copy, less the top-level reserved names
    when the copy is an object. *)
Lemma sanitizeData_copy (record copy : value) :
  json_clone record = Some copy ->
  sanitizeData record
  = match copy with
    | VObj cloned => VObj (List.filter not_reserved_name cloned)
    | _ => copy
    end.
Proof.
  intros Hcopy. unfold sanitizeData.
  destruct record as [ | | b | n | str | items | props | size type ];
    try discriminate Hcopy; try (injection Hcopy as <-; reflexivity).
  rewrite Hcopy. destruct copy; try reflexivity. now rewrite delete_reserved_filter.
Qed.

(** One step into the sanitized record, past a kept name, meets what
    the same step meets in the JSON copy. *)
Lemma sanitized_step (copy : value) (s : Step) :
  kept_step s = true ->
  get_step match copy with
           | VObj cloned => VObj (List.filter not_reserved_name cloned)
           | _ => copy
           end s
  = get_step copy s.
Proof.
  intros Hkept. destruct copy as [ | | b | n | str | items | cloned | size type ];
    try reflexivity.
  destruct s as [k|i]; [|reflexivity]. cbn [kept_step] in Hkept.
  apply negb_true_iff in Hkept. cbn [get_step JS.get].
  destruct (lookup_prop k cloned) as [x|] eqn:Hx.
  - rewrite (lookup_filter_first not_reserved_name k x cloned Hx); [reflexivity|].
    unfold not_reserved_name. cbn [fst]. now rewrite Hkept.
  - now rewrite (lookup_filter_none not_reserved_name k cloned Hx).
Qed.

(** Below a first step that is kept, [sanitizeData] holds the JSON copy
    of what the record holds. *)
Lemma sanitizeData_path (record : value) (first : Step) (path : list Step) (copy : value) :
  kept_step first = true ->
  json_clone (get_path record (first :: path)) = Some copy ->
  get_path (sanitizeData record) (first :: path) = copy.
Proof.
  intros Hkept Hcopy.
  destruct (json_clone_path (first :: path) record copy Hcopy) as (c & Hc & Hget).
  rewrite (sanitizeData_copy record c Hc).
  cbn [get_path] in Hget |- *. now rewrite sanitized_step.
Qed.

(** C9. For every record, the sanitization [put] applies before storage
    is the JSON deep copy of the record without its top-level properties
    named by [RESERVED_NAMES], and nothing else is removed: whatever the
    record holds below a first step that is kept, at any depth, through
    objects and arrays, and under any name, a reserved one included, the
    sanitized record holds its JSON copy there, which is the value
    itself when that value is JSON data. Whenever [put] succeeds, the
    store holds this sanitized record under the primary key, so the
    nested reserved key is in the store with its value unchanged. *)
Theorem sanitizeData_top_level_only (record : value) :
  (forall copy,
      json_clone record = Some copy ->
      sanitizeData record
      = match copy with
        | VObj cloned => VObj (List.filter not_reserved_name cloned)
        | _ => copy
        end)
  /\ (forall k, includes RESERVED_NAMES k = true ->
        JS.get (sanitizeData record) k = VUndefined)
  /\ (forall first path copy,
        kept_step first = true ->
        json_clone (get_path record (first :: path)) = Some copy ->
        get_path (sanitizeData record) (first :: path) = copy)
  /\ (forall first path,
        kept_step first = true ->
        is_json (get_path record (first :: path)) = true ->
        get_path (sanitizeData record) (first :: path) = get_path record (first :: path))
  /\ (forall db storeName key,
        fst (put db storeName record key) = Ok tt ->
        exists store primaryKey stored,
          stores (snd (put db storeName record key)) !! storeName = Some store
          /\ lookup_record primaryKey (records store) = Some stored
          /\ stored = sanitizeData record
          /\ (forall first path copy,
                kept_step first = true ->
                json_clone (get_path record (first :: path)) = Some copy ->
                get_path stored (first :: path) = copy)
          /\ (forall first path,
                kept_step first = true ->
                is_json (get_path record (first :: path)) = true ->
                get_path stored (first :: path) = get_path record (first :: path))).
Proof.
  assert (Hjson : forall first path,
             kept_step first = true ->
             is_json (get_path record (first :: path)) = true ->
             get_path (sanitizeData record) (first :: path)
             = get_path record (first :: path)).
  { intros first path Hk Hj. apply sanitizeData_path; [exact Hk|now apply json_clone_id]. }
  split; [|split; [|split; [|split]]].
  - apply sanitizeData_copy.
  - intros k Hk. destruct (json_clone record) as [copy|] eqn:Hcopy.
    + rewrite (sanitizeData_copy record copy Hcopy).
      destruct copy; try reflexivity. cbn [JS.get]. now rewrite lookup_filter_reserved.
    + destruct record; try discriminate Hcopy. reflexivity.
  - intros first path copy. apply sanitizeData_path.
  - exact Hjson.
  - intros db storeName key. unfold put.
    destruct (put_check storeName key); [|discriminate].
    unfold put_run, store_put, objectStore.
    destruct (stores db !! storeName) as [store|]; [|discriminate].
    destruct (put_key store (sanitizeData record) key) as [primaryKey|]; [|discriminate].
    destruct (fails db _); [discriminate|]. intros _.
    cbn [wrap snd set_store stores].
    exists (with_records store (put_record primaryKey (sanitizeData record) (records store))),
           primaryKey, (sanitizeData record).
    split; [apply lookup_insert_eq|]. split; [apply lookup_put_record|].
    split; [reflexivity|]. split; [|exact Hjson].
    intros first path copy. apply sanitizeData_path.
Qed.

Lemma sanitizeData_top_level_only_witness :
  sanitizeData nested_record
  = VObj [("profile", VObj [("constructor", VStr "nested"); ("toString", VNum 1)])]
  /\ exists store primaryKey stored,
      stores (snd (put notes_database "notes" nested_record (Some (VStr "k1")))) !! "notes"
      = Some store
      /\ lookup_record primaryKey (records store) = Some stored
      /\ get_path stored [Property "profile"; Property "constructor"] = VStr "nested".
Proof.
  split; [reflexivity|].
  destruct (sanitizeData_top_level_only nested_record) as (_ & _ & _ & _ & Hput).
  destruct (Hput notes_database "notes" (Some (VStr "k1")) eq_refl)
    as (store & primaryKey & stored & Hstore & Hrecord & _ & _ & Hnested).
  exists store, primaryKey, stored. split; [exact Hstore|]. split; [exact Hrecord|].
  exact (Hnested (Property "profile") [Property "constructor"] eq_refl eq_refl).
Defined.

(** C5, as the code has it. After [put] on a store with out-of-line keys,
    [get] under the same key returns [sanitizeData] of the record: its
    JSON deep copy without the top-level reserved names. *)
Theorem put_then_get_sanitizeData
        (db : Database) (storeName : string) (s : ObjectStore) (r k : value) :
  validateStoreName storeName = Ok tt ->
  validateKey k = Ok tt ->
  valid_key k = true ->
  stores db !! storeName = Some s ->
  keyPath s = None ->
  fails db (ReqPut storeName (sanitizeData r) (Some k)) = false ->
  fails db (ReqGet storeName k) = false ->
  fst (put db storeName r (Some k)) = Ok tt
  /\ fst (get (snd (put db storeName r (Some k))) storeName k) = Ok (sanitizeData r).
Proof.
  intros Hname Hkey Hvalid Hstore Hpath Hput Hget.
  unfold put, put_check, put_run, store_put, objectStore.
  rewrite Hname, Hkey, Hstore. unfold put_key. rewrite Hpath, Hvalid, Hput.
  cbn [wrap fst snd]. split; [reflexivity|].
  unfold get, store_get, objectStore. rewrite Hname, Hkey.
  cbn [set_store place stores fails]. rewrite lookup_insert_eq, Hvalid, Hget.
  cbn [negb wrap fst with_records records]. now rewrite lookup_put_record.
Qed.

Lemma put_then_get_sanitizeData_witness :
  fst (put notes_database "notes" nested_record (Some (VStr "k1"))) = Ok tt
  /\ fst (get (snd (put notes_database "notes" nested_record (Some (VStr "k1"))))
              "notes" (VStr "k1"))
     = Ok (sanitizeData nested_record).
Proof.
  apply (put_then_get_sanitizeData notes_database "notes"
           {| keyPath := None; indexes := []; records := [] |});
    reflexivity.
Defined.

(** C5, as stated, fails: what [get] returns after [put] is the record
    with its markup intact, while [sanitizeObject] encodes it. *)
Lemma put_then_get_is_not_sanitizeObject :
  fst (put notes_database "notes" bio_record (Some (VStr "k1"))) = Ok tt
  /\ fst (get (snd (put notes_database "notes" bio_record (Some (VStr "k1"))))
              "notes" (VStr "k1"))
     = Ok (VObj [("bio", VStr "<b>bold</b>")])
  /\ fst (sanitizeObject bio_record 0 fresh_regex_state)
     = Ok (VObj [("bio", VStr "&lt;b&gt;bold&lt;&#x2F;b&gt;")])
  /\ VObj [("bio", VStr "<b>bold</b>")]
     <> VObj [("bio", VStr "&lt;b&gt;bold&lt;&#x2F;b&gt;")].
Proof.
  split; [vm_compute; reflexivity|].
  split; [vm_compute; reflexivity|].
  split; [vm_compute; reflexivity|].
  discriminate.
Qed.

End StoreProps.

(** ** Deep sanitization *)

Module SanitizeProps.
Import Regex SecurityService Example Facts.

Lemma sanitizeObject_too_deep (obj : value) (depth : nat) (st : RegexState) :
  (MAX_OBJECT_DEPTH < depth)%nat ->
  sanitizeObject obj depth st
  = (Throw ("Object depth exceeds maximum allowed depth of " +:+ show_nat MAX_OBJECT_DEPTH),
     st).
Proof.
  intros H. apply Nat.ltb_lt in H.
  destruct obj; cbn [sanitizeObject]; now rewrite H.
Qed.

Lemma sanitizeObject_object (props : list (string * value)) (depth : nat) (st : RegexState) :
  (depth <= MAX_OBJECT_DEPTH)%nat ->
  sanitizeObject (VObj props) depth st
  = let keyValidation := validateObjectKeys (VObj props) in
    if negb (isValid keyValidation) then
      (Throw ("Invalid object keys: " +:+ join ", " (errors keyValidation)), st)
    else
      let '(sanitizedObj, st') :=
        each_entry (fun value => sanitizeObject value (S depth)) props [] st in
      (Ok (VObj sanitizedObj), st').
Proof.
  intros H. apply Nat.ltb_ge in H. cbn [sanitizeObject]. now rewrite H.
Qed.

(** A top-level array beyond the limit makes [sanitizeObject] throw. *)
Lemma sanitizeObject_long_array (items : list value) (depth : nat) (st : RegexState) :
  (depth <= MAX_OBJECT_DEPTH)%nat ->
  (MAX_ARRAY_LENGTH < List.length items)%nat ->
  sanitizeObject (VArr items) depth st
  = (Throw ("Array length exceeds maximum allowed length of " +:+ show_nat MAX_ARRAY_LENGTH),
     st).
Proof.
  intros Hd Hl. apply Nat.ltb_ge in Hd. apply Nat.ltb_lt in Hl.
  cbn [sanitizeObject]. now rewrite Hd, Hl.
Qed.

Lemma sanitizeObject_deep_object (n depth : nat) (st : RegexState) :
  (depth <= MAX_OBJECT_DEPTH)%nat ->
  sanitizeObject (deep_object n) depth st
  = (Ok (deep_object (Nat.min n (MAX_OBJECT_DEPTH - depth))), st).
Proof.
  revert depth; induction n as [|n IH]; intros depth Hd.
  - cbn [deep_object]. rewrite sanitizeObject_object by assumption. reflexivity.
  - cbn [deep_object]. rewrite sanitizeObject_object by assumption.
    change (validateObjectKeys (VObj [("nested", deep_object n)])) with valid.
    cbn [isValid valid negb each_entry].
    change (is_dangerous "nested") with false. cbv iota.
    destruct (Nat.eq_dec depth MAX_OBJECT_DEPTH) as [-> | Hne].
    + rewrite sanitizeObject_too_deep by (unfold MAX_OBJECT_DEPTH; lia).
      rewrite Nat.sub_diag, Nat.min_0_r. reflexivity.
    + rewrite IH by (unfold MAX_OBJECT_DEPTH in *; lia).
      cbn [set_prop].
      replace (Nat.min (S n) (MAX_OBJECT_DEPTH - depth))
        with (S (Nat.min n (MAX_OBJECT_DEPTH - S depth)))
        by (unfold MAX_OBJECT_DEPTH in *; lia).
      reflexivity.
Qed.

(** C3, on the code. An object nested more than ten levels deep through
    object properties does not make [sanitizeObject] throw: the error
    raised at depth eleven is caught by the loop over the properties of
    the object at depth ten, and the result is the input cut at that
    depth. *)
Theorem sanitizeObject_truncates_deep_object (n : nat) (st : RegexState) :
  (MAX_OBJECT_DEPTH < n)%nat ->
  sanitizeObject (deep_object n) 0 st = (Ok (deep_object MAX_OBJECT_DEPTH), st).
Proof.
  intros H. rewrite sanitizeObject_deep_object by (unfold MAX_OBJECT_DEPTH; lia).
  rewrite Nat.sub_0_r, Nat.min_r by lia. reflexivity.
Qed.

Lemma sanitizeObject_truncates_deep_object_witness :
  sanitizeObject (deep_object 15) 0 fresh_regex_state
  = (Ok (deep_object MAX_OBJECT_DEPTH), fresh_regex_state).
Proof.
  apply sanitizeObject_truncates_deep_object. unfold MAX_OBJECT_DEPTH. lia.
Defined.

(** At the limits themselves the call succeeds. *)
Lemma sanitizeObject_at_depth_limit (st : RegexState) :
  sanitizeObject (deep_object MAX_OBJECT_DEPTH) 0 st
  = (Ok (deep_object MAX_OBJECT_DEPTH), st).
Proof.
  rewrite sanitizeObject_deep_object by (unfold MAX_OBJECT_DEPTH; lia).
  rewrite Nat.sub_0_r, Nat.min_id. reflexivity.
Qed.

Lemma map_items_numbers (n depth : nat) (st : RegexState) :
  (depth <= MAX_OBJECT_DEPTH)%nat ->
  map_items (fun item => sanitizeObject item depth) (repeat (VNum 0) n) st
  = (Ok (repeat (VNum 0) n), st).
Proof.
  intros Hd. apply Nat.ltb_ge in Hd.
  induction n as [|n IH]; [reflexivity|].
  cbn [repeat map_items sanitizeObject]. rewrite Hd.
  cbn [map_items] in IH. now rewrite IH.
Qed.

Lemma sanitizeObject_array_at_limit (st : RegexState) :
  sanitizeObject (VArr (repeat (VNum 0) MAX_ARRAY_LENGTH)) 0 st
  = (Ok (VArr (repeat (VNum 0) MAX_ARRAY_LENGTH)), st).
Proof.
  cbn [sanitizeObject]. change (MAX_OBJECT_DEPTH <? 0)%nat with false. cbv iota.
  rewrite repeat_length, Nat.ltb_irrefl.
  rewrite map_items_numbers by (unfold MAX_OBJECT_DEPTH; lia). reflexivity.
Qed.

(** An array beyond the limit below an object property is dropped with
    its property; the call succeeds. *)
Lemma sanitizeObject_drops_long_array (st : RegexState) :
  sanitizeObject (VObj [("items", VArr (repeat (VNum 0) 1001))]) 0 st = (Ok (VObj []), st).
Proof.
  rewrite sanitizeObject_object by (unfold MAX_OBJECT_DEPTH; lia).
  change (validateObjectKeys _) with valid.
  cbn [isValid valid negb each_entry].
  change (is_dangerous "items") with false. cbv iota.
  rewrite sanitizeObject_long_array;
    [reflexivity | unfold MAX_OBJECT_DEPTH; lia
     | rewrite repeat_length; unfold MAX_ARRAY_LENGTH; lia].
Qed.

Lemma validateObjectKeys_dangerous (props : list (string * value)) :
  existsb is_dangerous (map fst props) = true ->
  isValid (validateObjectKeys (VObj props)) = false.
Proof.
  intros H. unfold validateObjectKeys. cbn [is_object typeof truthy negb orb Object_keys].
  set (errs := flat_map _ _).
  assert (Hne : errs <> []).
  { unfold errs. clear errs. induction (map fst props) as [|k ks IH]; [discriminate|].
    simpl in H. cbn [flat_map]. destruct (is_dangerous k); [discriminate|].
    simpl in *. now apply IH. }
  destruct errs; [congruence | reflexivity].
Qed.

(** An object with a key [is_dangerous] recognises makes [sanitizeObject]
    throw: the loop that would skip the key is never reached. *)
Lemma sanitizeObject_dangerous_key_throws
      (props : list (string * value)) (depth : nat) (st : RegexState) :
  existsb is_dangerous (map fst props) = true ->
  exists message, sanitizeObject (VObj props) depth st = (Throw message, st).
Proof.
  intros H. destruct (Nat.ltb MAX_OBJECT_DEPTH depth) eqn:Hd.
  - apply Nat.ltb_lt in Hd. rewrite sanitizeObject_too_deep by assumption. eauto.
  - apply Nat.ltb_ge in Hd. rewrite sanitizeObject_object by assumption.
    cbv zeta. rewrite (validateObjectKeys_dangerous _ H). cbn [negb]. eauto.
Qed.

(** C4, on the code. The object of the repository's own test, with the
    reserved key [constructor], makes [sanitizeObject] throw instead of
    returning the object without that key; below another object the
    whole sub-object is lost; and the reserved key [toString], spelt with
    a capital, is not recognised and stays. *)
Theorem sanitizeObject_reserved_key_behaviour :
  sanitizeObject (VObj [("name", VStr "John"); ("constructor", VStr "bad"); ("age", VNum 30)])
                 0 fresh_regex_state
  = (Throw "Invalid object keys: Dangerous key 'constructor' is not allowed",
     fresh_regex_state)
  /\ sanitizeObject (VObj [("user", VObj [("name", VStr "John"); ("constructor", VStr "bad")])])
                    0 fresh_regex_state
     = (Ok (VObj []), fresh_regex_state)
  /\ sanitizeObject (VObj [("name", VStr "John"); ("toString", VStr "bad")])
                    0 fresh_regex_state
     = (Ok (VObj [("name", VStr "John"); ("toString", VStr "bad")]), fresh_regex_state).
Proof. repeat split; vm_compute; reflexivity. Qed.

End SanitizeProps.

(** ** Ingestion *)

Module IngestProps.
Import Regex SecurityService AvatarsService Example Facts SanitizeProps.

Lemma some_test_none (patterns : list regex) (s : list ascii) :
  (forall p i, In p patterns -> fst (test p i s) = false) ->
  forall st, fst (some_test patterns st s) = false.
Proof.
  induction patterns as [|p rest IH]; intros H st; [reflexivity|].
  cbn [some_test].
  pose proof (H p (hd O st) (or_introl eq_refl)) as Hp.
  destruct (test p (hd O st) s) as [found lastIndex]. cbn [fst] in Hp. subst found.
  specialize (IH (fun q i Hq => H q i (or_intror Hq)) (tl st)).
  destruct (some_test rest (tl st) s) as [found' st']. exact IH.
Qed.

(** No injection pattern matches the script key, wherever its
    [lastIndex] stands. *)
Lemma script_key_no_injection (p : regex) (i : nat) :
  In p INJECTION_PATTERNS -> fst (test p i (list_ascii_of_string script_key)) = false.
Proof.
  intros Hp.
  destruct (Nat.ltb 25 i) eqn:Hi.
  - unfold test.
    change (List.length (list_ascii_of_string script_key)) with 25%nat.
    now rewrite Hi.
  - apply Nat.ltb_ge in Hi.
    assert (Hall : forallb (fun i =>
                     forallb (fun p => negb (fst (test p i (list_ascii_of_string script_key))))
                             INJECTION_PATTERNS) (seq 0 26) = true)
      by (vm_compute; reflexivity).
    rewrite forallb_forall in Hall.
    specialize (Hall i). rewrite in_seq in Hall.
    assert (Hrange : (0 <= i < 0 + 26)%nat) by lia.
    specialize (Hall Hrange). rewrite forallb_forall in Hall.
    specialize (Hall p Hp). now apply negb_true_iff in Hall.
Qed.

Lemma validateString_script_key (maxLength : nat) (st : RegexState) :
  (25 <= maxLength)%nat ->
  exists st', validateString (VStr script_key) maxLength st = (valid_with (VStr ""), st').
Proof.
  intros Hmax. unfold validateString.
  change (String.length script_key) with 25%nat.
  apply Nat.ltb_ge in Hmax. rewrite Hmax.
  pose proof (some_test_none INJECTION_PATTERNS (list_ascii_of_string script_key)
                (fun p i Hp => script_key_no_injection p i Hp) st) as Hnone.
  destruct (some_test INJECTION_PATTERNS st (list_ascii_of_string script_key))
    as [found st']. cbn [fst] in Hnone. subst found.
  exists st'.
  assert (Hhtml : sanitizeHtml (VStr script_key) = "") by (vm_compute; reflexivity).
  now rewrite Hhtml.
Qed.

Lemma sanitizeObject_script_key (depth : nat) (st : RegexState) :
  (depth <= MAX_OBJECT_DEPTH)%nat ->
  exists st', sanitizeObject (VStr script_key) depth st = (Ok (VStr ""), st').
Proof.
  intros Hd. apply Nat.ltb_ge in Hd. cbn [sanitizeObject]. rewrite Hd.
  assert (Hmax : (25 <= MAX_STRING_LENGTH)%nat)
    by (apply Nat.leb_le; vm_compute; reflexivity).
  destruct (validateString_script_key MAX_STRING_LENGTH st Hmax) as [st' ->].
  exists st'. reflexivity.
Qed.

Lemma lookup_set_prop_eq (k : string) (v : value) (props : list (string * value)) :
  lookup_prop k (set_prop k v props) = Some v.
Proof.
  induction props as [|[k' x] ps IH]; simpl.
  - now rewrite String.eqb_refl.
  - destruct (String.eqb k k') eqn:E; simpl; rewrite E; [reflexivity | exact IH].
Qed.

Lemma lookup_set_prop_ne (k k' : string) (v : value) (props : list (string * value)) :
  k <> k' -> lookup_prop k (set_prop k' v props) = lookup_prop k props.
Proof.
  intros Hne. induction props as [|[k2 x] ps IH]; simpl.
  - apply String.eqb_neq in Hne. now rewrite Hne.
  - destruct (String.eqb k' k2) eqn:E; simpl.
    + apply String.eqb_eq in E; subst k2.
      apply String.eqb_neq in Hne. now rewrite Hne.
    + destruct (String.eqb k k2); [reflexivity | exact IH].
Qed.

Lemma lookup_prop_In (k : string) (v : value) (props : list (string * value)) :
  lookup_prop k props = Some v -> In (k, v) props.
Proof.
  induction props as [|[k' x] ps IH]; simpl; [discriminate|].
  destruct (String.eqb k k') eqn:E.
  - intros [= ->]. apply String.eqb_eq in E; subst. now left.
  - intros H. right. now apply IH.
Qed.

(** The loop over the entries never touches a property it does not
    meet. *)
Lemma each_entry_preserves (sanitize : value -> RegexState -> Res value * RegexState)
      (entries acc : list (string * value)) (st : RegexState) (k : string) :
  ~ In k (map fst entries) ->
  lookup_prop k (fst (each_entry sanitize entries acc st)) = lookup_prop k acc.
Proof.
  revert acc st; induction entries as [|[k' x] rest IH]; intros acc st Hnot; [reflexivity|].
  cbn [each_entry]. cbn [map fst In] in Hnot.
  assert (Hne : k <> k') by (intros ->; apply Hnot; now left).
  assert (Hrest : ~ In k (map fst rest)) by (intros Hin; apply Hnot; now right).
  destruct (is_dangerous k'); [now apply IH|].
  destruct (sanitize x st) as [[x'|e] st1].
  - rewrite IH by assumption. now apply lookup_set_prop_ne.
  - now apply IH.
Qed.

(** A property with a harmless name whose value is sanitized without
    error ends up in the result with the sanitized value. *)
Lemma each_entry_lookup (sanitize : value -> RegexState -> Res value * RegexState)
      (entries acc : list (string * value)) (st : RegexState) (k : string) (v v' : value) :
  List.NoDup (map fst entries) ->
  In (k, v) entries ->
  is_dangerous k = false ->
  (forall st, exists st', sanitize v st = (Ok v', st')) ->
  lookup_prop k (fst (each_entry sanitize entries acc st)) = Some v'.
Proof.
  intros Hnodup Hin Hsafe Hok.
  revert acc st; induction entries as [|[k' x] rest IH]; intros acc st; [destruct Hin|].
  cbn [map fst] in Hnodup. inversion Hnodup as [|? ? Hfresh Hnodup']; subst.
  cbn [each_entry]. destruct Hin as [Heq | Hin].
  - inversion Heq; subst k' x. rewrite Hsafe.
    destruct (Hok st) as [st1 ->].
    rewrite each_entry_preserves by assumption. apply lookup_set_prop_eq.
  - destruct (is_dangerous k'); [now apply IH|].
    destruct (sanitize x st) as [[x'|e] st1]; now apply IH.
Qed.

Lemma sanitizeObject_script_manifest_key
      (props : list (string * value)) (st st' : RegexState) (v : value) :
  List.NoDup (map fst props) ->
  lookup_prop "key" props = Some (VStr script_key) ->
  sanitizeObject (VObj props) 0 st = (Ok v, st') ->
  JS.get v "key" = VStr "".
Proof.
  intros Hnodup Hkey. rewrite sanitizeObject_object by (unfold MAX_OBJECT_DEPTH; lia).
  cbv zeta. destruct (negb (isValid (validateObjectKeys (VObj props)))); [discriminate|].
  pose proof (each_entry_lookup (fun value => sanitizeObject value 1) props [] st
                "key" (VStr script_key) (VStr "") Hnodup (lookup_prop_In _ _ _ Hkey)
                eq_refl) as Hlookup.
  destruct (each_entry (fun value => sanitizeObject value 1) props [] st)
    as [sanitizedObj st1].
  intros [= <- <-]. cbn [JS.get]. cbn [fst] in Hlookup. rewrite Hlookup; [reflexivity|].
  intros st0. apply sanitizeObject_script_key. unfold MAX_OBJECT_DEPTH. lia.
Qed.

(** A manifest reported valid comes back sanitized by [sanitizeObject]. *)
Lemma validateAvatarManifest_valid (env : Env) (manifest : value) (st : RegexState) :
  isValid (fst (validateAvatarManifest env manifest st)) = true ->
  exists v st2 st3,
    sanitizeObject manifest 0 st2 = (Ok v, st3)
    /\ sanitizedValue (fst (validateAvatarManifest env manifest st)) = Some v.
Proof.
  unfold validateAvatarManifest.
  destruct (negb (truthy manifest) || negb (is_object manifest)); [discriminate|].
  cbv zeta.
  do 2 match goal with
       | |- context [let '(_, _) := ?e in _] => destruct e
       end.
  destruct (flat_map _ _ ++ _ ++ _ ++ _)%list as [|e errs].
  - match goal with
    | |- context [sanitizeObject manifest 0 ?s] =>
        destruct (sanitizeObject manifest 0 s) as [[v|message] st3] eqn:Hs
    end.
    + intros _. eauto.
    + discriminate.
  - discriminate.
Qed.

Lemma clearIndex_check_empty :
  DatabaseService.clearIndex_check IMAGES_STORE "avatarKey" (VStr "")
  = Throw "Index query must be a non-empty string".
Proof. reflexivity. Qed.

Lemma ingest_script_manifest (env : Env) (operation : string)
      (props : list (string * value)) (source : option string) (imageFiles : list File)
      (w : World) :
  List.NoDup (map fst props) ->
  lookup_prop "key" props = Some (VStr script_key) ->
  fst (ingest env operation (VObj props) source imageFiles w)
  = Throw (handleError operation None)
  /\ database (snd (ingest env operation (VObj props) source imageFiles w)) = database w.
Proof.
  intros Hnodup Hkey. unfold ingest.
  pose proof (validateAvatarManifest_valid env (VObj props) (regexes w)) as Hvalid.
  destruct (validateAvatarManifest env (VObj props) (regexes w)) as [result st].
  cbn [fst] in Hvalid. destruct (isValid result); cbn [negb].
  - destruct (Hvalid eq_refl) as [v [st2 [st3 [Hsan ->]]]].
    unfold loadExtension.
    rewrite (sanitizeObject_script_manifest_key props st2 st3 v Hnodup Hkey Hsan).
    rewrite clearIndex_check_empty. destruct v; split; reflexivity.
  - split; reflexivity.
Qed.

(** C1, as the code has it. A manifest with the script key is not turned
    down for its key: when validation reports it valid the sanitized
    manifest carries the empty key. Its ingestion, by download or by
    import, fails all the same and places no request on the store, since
    clearing the image index refuses the empty key. *)
Theorem script_key_manifest_writes_nothing (env : Env) (props : list (string * value)) :
  List.NoDup (map fst props) ->
  lookup_prop "key" props = Some (VStr script_key) ->
  (forall st,
      isValid (fst (validateAvatarManifest env (VObj props) st)) = true ->
      exists v,
        sanitizedValue (fst (validateAvatarManifest env (VObj props) st)) = Some v
        /\ JS.get v "key" = VStr "")
  /\ (forall url w,
        http_get env url = HttpOk (VObj props) ->
        is_ok (fst (download env url w)) = false
        /\ database (snd (download env url w)) = database w)
  /\ (forall file rest imageFiles w,
        read_manifest env file = Ok (VObj props) ->
        is_ok (fst (import env (file :: rest) imageFiles w)) = false
        /\ database (snd (import env (file :: rest) imageFiles w)) = database w).
Proof.
  intros Hnodup Hkey. split; [|split].
  - intros st Hvalid.
    destruct (validateAvatarManifest_valid env (VObj props) st Hvalid)
      as [v [st2 [st3 [Hsan Hv]]]].
    exists v. split; [exact Hv|].
    exact (sanitizeObject_script_manifest_key props st2 st3 v Hnodup Hkey Hsan).
  - intros url w Hget. unfold download.
    destruct (negb (isValid (validateUrl env (VStr url)))); [split; reflexivity|].
    destruct (checkRateLimit _ _ _ _ _) as [allowed m].
    destruct (negb allowed); [split; reflexivity|].
    rewrite Hget.
    destruct (ingest_script_manifest env "download" props (Some url) [] (with_rate m w)
                Hnodup Hkey) as [-> ->].
    split; reflexivity.
  - intros file rest imageFiles w Hread. unfold import.
    destruct (negb (forallb _ _)); [split; reflexivity|].
    cbn [import_each]. rewrite Hread.
    match goal with
    | |- context [ingest env "import" (VObj props) None ?fs w] =>
        pose proof (ingest_script_manifest env "import" props None fs w Hnodup Hkey)
          as [Hr Hdb];
        destruct (ingest env "import" (VObj props) None fs w) as [r w']
    end.
    cbn [fst snd] in *. subst r. split; [reflexivity | exact Hdb].
Qed.

Lemma script_key_manifest_writes_nothing_witness :
  is_ok (fst (download script_env manifest_url fresh_world)) = false
  /\ database (snd (download script_env manifest_url fresh_world)) = database fresh_world.
Proof.
  assert (Hnodup : List.NoDup (map fst [ ("key", VStr script_key);
                                         ("description", VStr "A test avatar");
                                         ("images", VArr []) ])).
  { simpl. repeat constructor; simpl; intuition discriminate. }
  destruct (script_key_manifest_writes_nothing script_env _ Hnodup eq_refl)
    as [_ [Hdownload _]].
  apply Hdownload. reflexivity.
Defined.

(** C1, as stated, fails: validation reports the manifest with the
    script key valid. *)
Lemma script_key_manifest_is_reported_valid :
  isValid (fst (validateAvatarManifest script_env script_manifest fresh_regex_state)) = true
  /\ sanitizedValue (fst (validateAvatarManifest script_env script_manifest fresh_regex_state))
     = Some (VObj [ ("key", VStr ""); ("description", VStr "A test avatar");
                    ("images", VArr []) ]).
Proof. split; vm_compute; reflexivity. Qed.

(** C6, on the code. The ingestion of the manifest with one reachable
    and one unreachable image URL succeeds and stores the abstract, but
    no image: the sanitized manifest carries the image URLs with their
    slashes encoded, and those are the URLs the code downloads. *)
Theorem two_image_ingestion_stores_no_image :
  http_get_blob two_image_env reachable_url = HttpOk (2048%Z, "image/png")
  /\ fst (download two_image_env manifest_url fresh_world) = Ok tt
  /\ fst (getAbstracts (snd (download two_image_env manifest_url fresh_world)))
     = Ok [ VObj [ ("key", VStr "test-avatar");
                   ("description", VStr "A test avatar");
                   ("source", VStr "https:&#x2F;&#x2F;example.com&#x2F;pack.json") ] ]
  /\ option_map records
       (stores (database (snd (download two_image_env manifest_url fresh_world)))
          !! IMAGES_STORE)
     = Some []
  /\ fst (sanitizeObject (VStr reachable_url) 2 fresh_regex_state)
     = Ok (VStr "https:&#x2F;&#x2F;example.com&#x2F;standard.png")
  /\ List.length (log (database (snd (download two_image_env manifest_url fresh_world))))
     = 2%nat.
Proof. repeat split; vm_compute; reflexivity. Qed.

End IngestProps.

(** ** Deletion of an extension *)

Module DeleteProps.
Import SecurityService DatabaseService AvatarsService Example Facts StoreProps.

Lemma lookup_delete_record (k : value) (rs : list (value * value)) :
  lookup_record k (delete_record k rs) = None.
Proof.
  unfold lookup_record, delete_record.
  induction rs as [|r rs IH]; [reflexivity|].
  simpl. destruct (has_key k r) eqn:E; simpl; [exact IH | now rewrite E].
Qed.

(** What the promise of [clearIndex] does to the database: requests on
    its own store only, and no change to the other stores. *)
Lemma clearIndex_run_frame (db : Database) (storeName indexName indexQuery : string) :
  let db' := snd (clearIndex_run db storeName indexName indexQuery) in
  fails db' = fails db
  /\ (forall other, other <> storeName -> stores db' !! other = stores db !! other)
  /\ (forall e, fst (clearIndex_run db storeName indexName indexQuery) = Throw e ->
        stores db' = stores db)
  /\ exists placed,
      log db' = log db ++ placed
      /\ forall other key, other <> storeName -> ~ In (ReqDelete other key) placed.
Proof.
  unfold clearIndex_run.
  destruct (objectStore storeName db) as [store|e0].
  2:{ cbn. repeat split; try reflexivity. exists []. split; [now rewrite app_nil_r|].
      intros ? ? _ []. }
  destruct (find_index indexName store) as [index|].
  2:{ cbn. repeat split; try reflexivity. exists []. split; [now rewrite app_nil_r|].
      intros ? ? _ []. }
  destruct (fails db (ReqIndexGetAllKeys storeName indexName (VStr indexQuery))).
  { cbn. repeat split; try reflexivity. eexists. split; [reflexivity|].
    intros other key _ [H|[]]. discriminate. }
  set (validKeys := List.filter _ _).
  assert (Hplaced : forall other key, other <> storeName ->
            ~ In (ReqDelete other key)
                 ([ReqIndexGetAllKeys storeName indexName (VStr indexQuery)]
                    ++ map (ReqDelete storeName) validKeys)).
  { intros other key Hne Hin. apply in_app_or in Hin as [[H|[]]|Hin]; [discriminate|].
    apply in_map_iff in Hin as [k [Heq _]]. inversion Heq. congruence. }
  destruct (existsb _ validKeys); cbn.
  - repeat split; try reflexivity. eexists. split; [now rewrite <- app_assoc | exact Hplaced].
  - repeat split; try reflexivity.
    + intros other Hne. now rewrite lookup_insert_ne.
    + discriminate.
    + eexists. split; [now rewrite <- app_assoc | exact Hplaced].
Qed.

(** When no request is refused and the stored primary keys are valid, the
    promise of [clearIndex] succeeds and removes the records whose key is
    among those it read. *)
Lemma clearIndex_run_ok (db : Database) (storeName indexName indexQuery : string)
      (store : ObjectStore) (index : Index) :
  stores db !! storeName = Some store ->
  find_index indexName store = Some index ->
  (forall r, fails db r = false) ->
  Forall (fun r => valid_key (fst r) = true) (records store) ->
  let validKeys :=
    List.filter (fun key => is_ok (validateKey key))
                (index_keys index (VStr indexQuery) (records store)) in
  fst (clearIndex_run db storeName indexName indexQuery) = Ok tt
  /\ stores (snd (clearIndex_run db storeName indexName indexQuery))
     = <[storeName := with_records store (delete_records validKeys (records store))]>
         (stores db).
Proof.
  intros Hstore Hindex Hfails Hkeys validKeys.
  unfold clearIndex_run, objectStore. rewrite Hstore, Hindex, Hfails.
  fold validKeys.
  assert (Hnone : existsb (fun key => negb (valid_key key) || fails db (ReqDelete storeName key))
                          validKeys = false).
  { apply not_true_is_false. intros Hex. apply existsb_exists in Hex as [k [Hin Hk]].
    rewrite Hfails, orb_false_r in Hk. apply negb_true_iff in Hk.
    unfold validKeys, index_keys in Hin.
    apply filter_In in Hin as [Hin _]. apply in_map_iff in Hin as [r [<- Hr]].
    apply filter_In in Hr as [Hr _]. rewrite List.Forall_forall in Hkeys.
    rewrite (Hkeys r Hr) in Hk. discriminate. }
  rewrite Hnone. cbn. split; reflexivity.
Qed.

(** After the clear, no record is left that is indexed under the key
    with a primary key [validateKey] accepts. *)
Lemma delete_records_cleared (index : Index) (query : value) (rs : list (value * value))
      (r : value * value) :
  In r (delete_records
          (List.filter (fun key => is_ok (validateKey key)) (index_keys index query rs)) rs) ->
  In r rs /\ (indexed_under index query r && is_ok (validateKey (fst r))) = false.
Proof.
  unfold delete_records. intros Hin. apply filter_In in Hin as [Hr Hnot].
  split; [exact Hr|]. apply negb_true_iff in Hnot.
  apply not_true_is_false. intros Hboth. apply andb_true_iff in Hboth as [Hidx Hval].
  assert (Hex : existsb (value_eqb (fst r))
                        (List.filter (fun key => is_ok (validateKey key))
                                     (index_keys index query rs)) = true).
  { apply existsb_exists. exists (fst r). split; [|apply value_eqb_refl].
    apply filter_In. split; [|exact Hval].
    unfold index_keys. apply in_map. apply filter_In. now split. }
  congruence.
Qed.

(** C2, as the code has it. For a non-empty key [validateString]
    accepts: when the index-clear step fails, [delete] fails with it, the
    abstract store is left as it was and no deletion of the abstract is
    placed; when no request is refused (and the key is no reserved name),
    [delete] succeeds, no image record indexed under the key with an
    accepted primary key remains, and the abstract is gone. *)
Theorem delete_clears_then_deletes (key : string) (w : World) :
  isValid (fst (validateString (VStr key) 64 (regexes w))) = true ->
  key <> "" ->
  let after := database (snd (delete key w)) in
  (forall e,
      fst (clearIndex_run (database w) IMAGES_STORE "avatarKey" key) = Throw e ->
      fst (delete key w) = Throw "Failed to delete avatar"
      /\ stores after !! ABSTRACTS_STORE = stores (database w) !! ABSTRACTS_STORE
      /\ exists placed,
          log after = log (database w) ++ placed
          /\ forall k, ~ In (ReqDelete ABSTRACTS_STORE k) placed)
  /\ (forall images abstracts index,
        is_reserved key = false ->
        stores (database w) !! IMAGES_STORE = Some images ->
        find_index "avatarKey" images = Some index ->
        stores (database w) !! ABSTRACTS_STORE = Some abstracts ->
        (forall r, fails (database w) r = false) ->
        Forall (fun r => valid_key (fst r) = true) (records images) ->
        fst (delete key w) = Ok tt
        /\ (exists images',
              stores after !! IMAGES_STORE = Some images'
              /\ forall r, In r (records images') ->
                   In r (records images)
                   /\ (indexed_under index (VStr key) r && is_ok (validateKey (fst r))) = false)
        /\ (exists abstracts',
              stores after !! ABSTRACTS_STORE = Some abstracts'
              /\ records abstracts' = delete_record (VStr key) (records abstracts)
              /\ lookup_record (VStr key) (records abstracts') = None)).
Proof.
  intros Hvalid Hne after. subst after. unfold delete.
  destruct (validateString (VStr key) 64 (regexes w)) as [keyValidation st].
  cbn [fst] in Hvalid. rewrite Hvalid. cbn [negb].
  assert (Hcheck : clearIndex_check IMAGES_STORE "avatarKey" (VStr key) = Ok tt).
  { unfold clearIndex_check. change (validateStoreName IMAGES_STORE) with (Ok tt).
    change (String.eqb "avatarKey" "") with false.
    change (is_reserved "avatarKey") with false.
    cbn [truthy is_string negb orb]. apply String.eqb_neq in Hne. now rewrite Hne. }
  rewrite Hcheck. cbn [with_regex database].
  pose proof (clearIndex_run_frame (database w) IMAGES_STORE "avatarKey" key) as Hframe.
  cbv zeta in Hframe. destruct Hframe as [Hfails [Hother [Hsame [placed [Hlog Hplaced]]]]].
  split.
  - intros e He.
    destruct (clearIndex_run (database w) IMAGES_STORE "avatarKey" key) as [r db1].
    cbn [fst snd] in *. subst r. cbn [fst snd with_database database].
    split; [reflexivity|]. split; [now rewrite (Hsame e eq_refl)|].
    exists placed. split; [exact Hlog|].
    intros k. apply Hplaced. discriminate.
  - intros images abstracts index Hres Himages Hindex Habstracts Hnofail Hkeys.
    destruct (clearIndex_run_ok (database w) IMAGES_STORE "avatarKey" key images index
                Himages Hindex Hnofail Hkeys) as [Hok Hstores].
    destruct (clearIndex_run (database w) IMAGES_STORE "avatarKey" key) as [r db1].
    cbn [fst snd] in *. subst r.
    unfold DatabaseService.delete, store_delete, objectStore.
    change (validateStoreName ABSTRACTS_STORE) with (Ok tt).
    cbn [validateKey]. rewrite Hres.
    rewrite (Hother ABSTRACTS_STORE) by discriminate. rewrite Habstracts.
    cbn [valid_key negb]. rewrite Hfails, Hnofail.
    cbn [wrap fst snd with_database database set_store place stores].
    split; [reflexivity|]. split.
    + eexists. split.
      * rewrite lookup_insert_ne by discriminate. rewrite Hstores.
        apply lookup_insert_eq.
      * cbn [with_records records]. intros r Hr.
        now apply delete_records_cleared in Hr.
    + eexists. split; [apply lookup_insert_eq|].
      cbn [with_records records]. split; [reflexivity | apply lookup_delete_record].
Qed.

Lemma delete_clears_then_deletes_witness :
  fst (delete "test-avatar" stocked_world) = Ok tt.
Proof.
  destruct (delete_clears_then_deletes "test-avatar" stocked_world) as [_ Hok].
  - reflexivity.
  - discriminate.
  - refine (proj1 (Hok _ _ _ _ _ _ _ _ _)).
    + reflexivity.
    + reflexivity.
    + reflexivity.
    + reflexivity.
    + intros r. reflexivity.
    + repeat constructor.
Defined.

(** C2, as stated, fails: when the engine refuses one of the image
    deletions, [delete] fails, places no deletion on the abstract store,
    and the abstract record is still there. *)
Lemma delete_abandons_abstract_when_clear_fails :
  fst (delete "test-avatar" failing_world) = Throw "Failed to delete avatar"
  /\ log (database (snd (delete "test-avatar" failing_world)))
     = [ ReqIndexGetAllKeys IMAGES_STORE "avatarKey" (VStr "test-avatar");
         ReqDelete IMAGES_STORE (VArr [VStr "profile"; VStr "test-avatar"]);
         ReqDelete IMAGES_STORE (VArr [VStr "standard"; VStr "test-avatar"]) ]
  /\ fst (getAbstracts (snd (delete "test-avatar" failing_world)))
     = Ok [ VObj [("key", VStr "test-avatar"); ("description", VStr "A test avatar")] ].
Proof. repeat split; vm_compute; reflexivity. Qed.

End DeleteProps.

(** ** Patterns and HTML sanitization *)

Module HtmlProps.
Import Regex RegexAnalysis SecurityService Example Facts IngestProps.

Lemma orelse_same {A} (x : option A) : orelse x (fun _ => x) = x.
Proof. now destruct x. Qed.

Lemma orelse_none_r {A} (x : option A) : orelse x (fun _ => None) = x.
Proof. now destruct x. Qed.

(** Where no match can start, a pattern matches the empty string or
    nothing. *)
Lemma rmatch_no_start (r : regex) (s : list ascii)
      (k : list ascii -> option (list ascii)) :
  match s with [] => True | c :: _ => first_char r c = false end ->
  rmatch r s k = if nullable r then k s else None.
Proof.
  revert s k; induction r as [ | p | a IHa b IHb | a IHa b IHb | g a IHa ]; intros s k Hs.
  - reflexivity.
  - destruct s as [|c s]; [reflexivity|]. cbn in *. now rewrite Hs.
  - cbn [rmatch nullable].
    assert (Ha : match s with [] => True | c :: _ => first_char a c = false end).
    { destruct s as [|c s]; [exact I|]. cbn in Hs. now apply orb_false_iff in Hs as [? _]. }
    rewrite (IHa s _ Ha). destruct (nullable a) eqn:Na; [|reflexivity]. cbn [andb].
    apply IHb. destruct s as [|c s]; [exact I|].
    cbn in Hs. rewrite Na in Hs. now apply orb_false_iff in Hs as [_ ?].
  - cbn [rmatch nullable].
    assert (Hab : match s with [] => True | c :: _ => first_char a c = false end
                  /\ match s with [] => True | c :: _ => first_char b c = false end).
    { destruct s as [|c s]; [split; exact I|]. cbn in Hs. now apply orb_false_iff in Hs. }
    destruct Hab as [Ha Hb]. rewrite (IHa s k Ha), (IHb s k Hb).
    destruct (nullable a), (nullable b); cbn [orb orelse];
      try reflexivity; now destruct (k s).
  - cbn [rmatch nullable]. destruct s as [|c s]; [reflexivity|].
    cbn [List.length]. cbn in Hs. rewrite (IHa (c :: s) _ Hs).
    rewrite Nat.ltb_irrefl.
    assert (Hagain : (if nullable a then @None (list ascii) else None) = None)
      by now destruct (nullable a).
    rewrite Hagain. destruct g; cbn [orelse]; [reflexivity | now destruct (k (c :: s))].
Qed.

Lemma search_no_start (r : regex) (s : list ascii) :
  nullable r = false ->
  Forall (fun c => first_char r c = false) s ->
  search r s = None.
Proof.
  intros Hn Hs. induction Hs as [|c s Hc Hs IH].
  - cbn [search]. unfold match_here. rewrite rmatch_no_start by exact I. now rewrite Hn.
  - cbn [search]. unfold match_here at 1. rewrite rmatch_no_start by exact Hc.
    rewrite Hn. now rewrite IH.
Qed.

Lemma length_list_ascii (s : string) :
  List.length (list_ascii_of_string s) = String.length s.
Proof. induction s as [|c s IH]; [reflexivity | simpl; now rewrite IH]. Qed.

(** Replacing a single character class is a character-wise map. *)
Lemma replace_fuel_chr (p : ascii -> bool) (rep s : list ascii) (fuel : nat) :
  (List.length s < fuel)%nat ->
  replace_fuel fuel (Chr p) rep s = flat_map (fun c => if p c then rep else [c]) s.
Proof.
  revert fuel; induction s as [|c s IH]; intros fuel Hf.
  - destruct fuel; [inversion Hf | reflexivity].
  - destruct fuel as [|fuel]; [inversion Hf|].
    cbn [List.length] in Hf. cbn [replace_fuel flat_map].
    unfold match_here. cbn [rmatch]. destruct (p c).
    + cbn [List.length]. replace (S (List.length s) - List.length s)%nat with 1%nat by lia.
      cbn [skipn]. rewrite IH by lia. reflexivity.
    + rewrite IH by lia. reflexivity.
Qed.

Lemma replace_char (c : ascii) (rep s : string) :
  list_ascii_of_string (replace (lit (String c EmptyString)) rep s)
  = flat_map (fun d => if Ascii.eqb (upper_ascii d) (upper_ascii c)
                       then list_ascii_of_string rep else [d])
             (list_ascii_of_string s).
Proof.
  unfold replace. rewrite list_ascii_of_string_of_list_ascii.
  cbn [lit]. unfold ci. apply replace_fuel_chr. rewrite length_list_ascii. lia.
Qed.

Lemma flat_map_chars (Q : ascii -> Prop) (p : ascii -> bool) (rep l : list ascii) :
  Forall Q rep ->
  Forall (fun c => p c = false -> Q c) l ->
  Forall Q (flat_map (fun c => if p c then rep else [c]) l).
Proof.
  intros Hrep Hl. induction Hl as [|c l Hc Hl IH]; [constructor|].
  cbn [flat_map]. apply Forall_app. split; [|exact IH].
  destruct (p c) eqn:E; [exact Hrep | constructor; [now apply Hc | constructor]].
Qed.

Lemma markup_cases (c : ascii) :
  is_markup c = false <->
  Ascii.eqb (upper_ascii c) (upper_ascii "<") = false
  /\ Ascii.eqb (upper_ascii c) (upper_ascii ">") = false
  /\ Ascii.eqb (upper_ascii c) (upper_ascii (ascii_of_nat 34)) = false
  /\ Ascii.eqb (upper_ascii c) (upper_ascii "'") = false
  /\ Ascii.eqb (upper_ascii c) (upper_ascii "/") = false.
Proof.
  destruct c as [[] [] [] [] [] [] [] []]; vm_compute; intuition congruence.
Qed.

Lemma sanitizeHtml_encodes (s : string) :
  s <> "" -> exists t, sanitizeHtml (VStr s) = encode_entities t.
Proof.
  intros Hne. apply String.eqb_neq in Hne.
  exists (replace ATTRIBUTE_PATTERN ""
            (fold_left (fun acc pattern => replace pattern "" acc) XSS_PATTERNS s)).
  unfold sanitizeHtml, encode_entities. rewrite Hne. reflexivity.
Qed.

Lemma encode_entities_no_markup (t : string) :
  Forall (fun c => is_markup c = false) (list_ascii_of_string (encode_entities t)).
Proof.
  unfold encode_entities, dquote. rewrite !replace_char.
  set (lt := fun c => Ascii.eqb (upper_ascii c) (upper_ascii "<") = false).
  set (gt := fun c => Ascii.eqb (upper_ascii c) (upper_ascii ">") = false).
  set (dq := fun c => Ascii.eqb (upper_ascii c) (upper_ascii (ascii_of_nat 34)) = false).
  set (sq := fun c => Ascii.eqb (upper_ascii c) (upper_ascii "'") = false).
  apply flat_map_chars.
  { repeat constructor. }
  apply List.Forall_impl with (P := fun c => lt c /\ gt c /\ dq c /\ sq c).
  { intros c; cbv beta; intros [H1 [H2 [H3 H4]]] H5.
    apply markup_cases. repeat split; assumption. }
  apply flat_map_chars.
  { repeat constructor. }
  apply List.Forall_impl with (P := fun c => lt c /\ gt c /\ dq c).
  { intros c; cbv beta; intros [H1 [H2 H3]] H4. repeat split; assumption. }
  apply flat_map_chars.
  { repeat constructor. }
  apply List.Forall_impl with (P := fun c => lt c /\ gt c).
  { intros c; cbv beta; intros [H1 H2] H3. repeat split; assumption. }
  apply flat_map_chars.
  { repeat constructor. }
  apply List.Forall_impl with (P := lt).
  { intros c; cbv beta; intros H1 H2. split; assumption. }
  apply flat_map_chars.
  { repeat constructor. }
  apply List.Forall_forall. intros c _ H. exact H.
Qed.

(** X1. Whatever the input, the string [sanitizeHtml] returns contains
    none of the characters [<], [>], double quote, single quote and
    slash. *)
Theorem sanitizeHtml_no_markup (s : string) :
  Forall (fun c => is_markup c = false) (list_ascii_of_string (sanitizeHtml (VStr s))).
Proof.
  destruct (String.eqb s "") eqn:E.
  - unfold sanitizeHtml. rewrite E. constructor.
  - apply String.eqb_neq in E. destruct (sanitizeHtml_encodes s E) as [t ->].
    apply encode_entities_no_markup.
Qed.

Lemma all_ascii_complete (c : ascii) : In c all_ascii.
Proof.
  unfold all_ascii. apply in_map_iff. exists (nat_of_ascii c).
  split; [apply ascii_nat_embedding|]. apply in_seq.
  pose proof (nat_ascii_bounded c). lia.
Qed.

Lemma injection_patterns_need_a_start (r : regex) (c : ascii) :
  In r INJECTION_PATTERNS ->
  nullable r = false
  /\ (is_digit c = true -> first_char r c = false)
  /\ (In r (tl INJECTION_PATTERNS) -> digit_or_semicolon c = true -> first_char r c = false).
Proof.
  intros Hr.
  assert (Hall : forallb (fun r =>
                   negb (nullable r)
                   && forallb (fun c => implb (is_digit c) (negb (first_char r c))) all_ascii)
                   INJECTION_PATTERNS = true) by (vm_compute; reflexivity).
  assert (Htl : forallb (fun r =>
                   forallb (fun c => implb (digit_or_semicolon c) (negb (first_char r c)))
                           all_ascii)
                   (tl INJECTION_PATTERNS) = true) by (vm_compute; reflexivity).
  rewrite forallb_forall in Hall. specialize (Hall r Hr).
  apply andb_true_iff in Hall as [Hn Hd]. apply negb_true_iff in Hn.
  rewrite forallb_forall in Hd. specialize (Hd c (all_ascii_complete c)).
  split; [exact Hn|]. split.
  - intros Hc. rewrite Hc in Hd. now apply negb_true_iff in Hd.
  - intros Hr' Hc. rewrite forallb_forall in Htl. specialize (Htl r Hr').
    rewrite forallb_forall in Htl. specialize (Htl c (all_ascii_complete c)).
    rewrite Hc in Htl. now apply negb_true_iff in Htl.
Qed.

Lemma first_pattern_semicolon (rest : list ascii) :
  match_here FIRST_PATTERN (";"%char :: rest) = Some 1%nat.
Proof.
  unfold match_here.
  assert (H : rmatch FIRST_PATTERN (";"%char :: rest) Some = Some rest)
    by (vm_compute; reflexivity).
  rewrite H. cbn [List.length]. f_equal. lia.
Qed.

Lemma first_pattern_search (digits rest : list ascii) :
  forallb is_digit digits = true ->
  search FIRST_PATTERN (digits ++ ";"%char :: rest) = Some (List.length digits, 1%nat).
Proof.
  intros Hd. induction digits as [|c digits IH].
  - cbn [app search]. now rewrite first_pattern_semicolon.
  - cbn [forallb] in Hd. apply andb_true_iff in Hd as [Hc Hd].
    cbn [app search]. unfold match_here at 1.
    destruct (injection_patterns_need_a_start FIRST_PATTERN c (or_introl eq_refl))
      as [Hn [Hfirst _]].
    rewrite rmatch_no_start by (now apply Hfirst). rewrite Hn.
    now rewrite (IH Hd).
Qed.

Lemma list_ascii_app (a b : string) :
  list_ascii_of_string (a +:+ b) = list_ascii_of_string a ++ list_ascii_of_string b.
Proof. induction a as [|c a IH]; [reflexivity | simpl; now rewrite IH]. Qed.

Lemma Forall_skipn_list {A} (P : A -> Prop) (n : nat) (l : list A) :
  Forall P l -> Forall P (skipn n l).
Proof.
  revert l; induction n as [|n IH]; intros l Hl; [exact Hl|].
  destruct Hl as [|x l Hx Hl]; [constructor | now apply IH].
Qed.

Lemma test_no_start (r : regex) (i : nat) (l : list ascii) :
  nullable r = false ->
  Forall (fun c => first_char r c = false) l ->
  test r i l = (false, O).
Proof.
  intros Hn Hl. unfold test. destruct (List.length l <? i)%nat; [reflexivity|].
  now rewrite (search_no_start r (skipn i l) Hn (Forall_skipn_list _ i l Hl)).
Qed.

(** X2. [validateString] depends on the calls made before it: a string
    of digits closed by a semicolon is rejected as malicious when the
    first pattern starts from index 0, and the very next call accepts
    the same string, because the match left the pattern's [lastIndex] at
    the end of the string. *)
Theorem validateString_alternates (digits : string) (maxLength : nat) (st : RegexState) :
  forallb is_digit (list_ascii_of_string digits) = true ->
  (String.length digits < maxLength)%nat ->
  hd O st = O ->
  fst (validateString (VStr (digits +:+ ";")) maxLength st)
  = invalid ["String contains potentially malicious content"]
  /\ isValid (fst (validateString (VStr (digits +:+ ";")) maxLength
                     (snd (validateString (VStr (digits +:+ ";")) maxLength st))))
     = true.
Proof.
  intros Hdigits Hlen Hhd.
  set (l := list_ascii_of_string (digits +:+ ";")).
  assert (Hl : l = list_ascii_of_string digits ++ [";"%char])
    by (unfold l; now rewrite list_ascii_app).
  assert (Hlength : String.length (digits +:+ ";") = S (String.length digits)).
  { rewrite <- !length_list_ascii. fold l. rewrite Hl, length_app. simpl. lia. }
  assert (Hbound : (maxLength <? String.length (digits +:+ ";"))%nat = false)
    by (apply Nat.ltb_ge; lia).
  assert (Hall : Forall (fun c => digit_or_semicolon c = true) l).
  { rewrite Hl. apply Forall_app. split.
    - rewrite forallb_forall in Hdigits. apply List.Forall_forall.
      intros c Hc. unfold digit_or_semicolon. now rewrite (Hdigits c Hc).
    - repeat constructor. }
  assert (Hrest : forall p i, In p (tl INJECTION_PATTERNS) -> fst (test p i l) = false).
  { intros p i Hp.
    assert (Hin : In p INJECTION_PATTERNS) by (right; exact Hp).
    rewrite test_no_start; [reflexivity | |].
    - now destruct (injection_patterns_need_a_start p "0" Hin).
    - apply List.Forall_forall. intros c Hc.
      rewrite List.Forall_forall in Hall.
      destruct (injection_patterns_need_a_start p c Hin) as [_ [_ H]].
      apply H; [exact Hp | now apply Hall]. }
  assert (Hfirst : test FIRST_PATTERN O l
                   = (true, S (List.length (list_ascii_of_string digits)))).
  { unfold test. cbn [Nat.ltb Nat.leb]. rewrite skipn_O, Hl.
    rewrite (first_pattern_search _ [] Hdigits). f_equal. lia. }
  assert (Hsecond : test FIRST_PATTERN (S (List.length (list_ascii_of_string digits))) l
                    = (false, O)).
  { unfold test. rewrite Hl at 1. rewrite length_app. cbn [List.length].
    replace (List.length (list_ascii_of_string digits) + 1
             <? S (List.length (list_ascii_of_string digits)))%nat with false
      by (symmetry; apply Nat.ltb_ge; lia).
    rewrite skipn_all2 by (rewrite Hl, length_app; simpl; lia).
    rewrite search_no_start; [reflexivity | | constructor].
    now destruct (injection_patterns_need_a_start FIRST_PATTERN "0" (or_introl eq_refl)). }
  unfold validateString. rewrite Hbound. fold l.
  change INJECTION_PATTERNS with (FIRST_PATTERN :: tl INJECTION_PATTERNS).
  cbn [some_test]. rewrite Hhd, Hfirst. cbn [fst snd hd tl].
  split; [reflexivity|].
  rewrite Hsecond.
  pose proof (some_test_none (tl INJECTION_PATTERNS) l Hrest (tl st)) as Hnone.
  destruct (some_test (tl INJECTION_PATTERNS) (tl st) l) as [found st'].
  cbn [fst] in Hnone. subst found. reflexivity.
Qed.

Lemma validateString_alternates_witness :
  fst (validateString (VStr "42;") 64 fresh_regex_state)
  = invalid ["String contains potentially malicious content"]
  /\ isValid (fst (validateString (VStr "42;") 64
                     (snd (validateString (VStr "42;") 64 fresh_regex_state))))
     = true.
Proof.
  apply (validateString_alternates "42" 64 fresh_regex_state).
  - reflexivity.
  - simpl. lia.
  - reflexivity.
Defined.

End HtmlProps.

(** ** Reserved keys and the output of the deep sanitizer *)

Module KeyProps.
Import Regex RegexAnalysis SecurityService Invariants Example Facts StoreProps
       SanitizeProps IngestProps HtmlProps.

Lemma lower_ascii_idempotent (c : ascii) : lower_ascii (lower_ascii c) = lower_ascii c.
Proof. destruct c as [[] [] [] [] [] [] [] []]; reflexivity. Qed.

Lemma toLowerCase_idempotent (s : string) : toLowerCase (toLowerCase s) = toLowerCase s.
Proof.
  induction s as [|c s IH]; [reflexivity|].
  simpl. now rewrite lower_ascii_idempotent, IH.
Qed.

(** A lower-cased key can only equal a name that is its own lower
    case. *)
Lemma lower_eqb_fixed (key name : string) :
  toLowerCase name <> name -> String.eqb (toLowerCase key) name = false.
Proof.
  intros Hne. apply String.eqb_neq. intros Heq. apply Hne.
  rewrite <- Heq. apply toLowerCase_idempotent.
Qed.

Lemma existsb_eq {A} (f g : A -> bool) (l : list A) :
  (forall x, f x = g x) -> existsb f l = existsb g l.
Proof.
  intros H. induction l as [|x l IH]; [reflexivity|]. simpl. now rewrite H, IH.
Qed.

(** X3. Of the ten entries of [DANGEROUS_KEYS] only [__proto__],
    [constructor] and [prototype] can ever be recognised, in any
    capitalisation: the key is lower-cased before the comparison, so the
    entries spelt with a capital ([toString], [valueOf],
    [hasOwnProperty], the accessor names) never match; an object passes
    [validateObjectKeys] exactly when none of its keys is one of the
    three. *)
Theorem is_dangerous_recognises_three (key : string) (props : list (string * value)) :
  is_dangerous key = includes RECOGNISED_KEYS (toLowerCase key)
  /\ isValid (validateObjectKeys (VObj props))
     = negb (existsb (fun k => includes RECOGNISED_KEYS (toLowerCase k)) (map fst props)).
Proof.
  assert (Hkey : forall k, is_dangerous k = includes RECOGNISED_KEYS (toLowerCase k)).
  { intros k. unfold is_dangerous, includes, DANGEROUS_KEYS, RECOGNISED_KEYS.
    cbn [existsb].
    rewrite (lower_eqb_fixed k "__defineGetter__") by discriminate.
    rewrite (lower_eqb_fixed k "__defineSetter__") by discriminate.
    rewrite (lower_eqb_fixed k "__lookupGetter__") by discriminate.
    rewrite (lower_eqb_fixed k "__lookupSetter__") by discriminate.
    rewrite (lower_eqb_fixed k "toString") by discriminate.
    rewrite (lower_eqb_fixed k "valueOf") by discriminate.
    rewrite (lower_eqb_fixed k "hasOwnProperty") by discriminate.
    reflexivity. }
  split; [apply Hkey|].
  rewrite <- (existsb_eq is_dangerous _ _ Hkey).
  destruct (existsb is_dangerous (map fst props)) eqn:E.
  - now apply validateObjectKeys_dangerous.
  - unfold validateObjectKeys. cbn [is_object typeof truthy negb orb Object_keys].
    assert (Hnil : flat_map (fun key0 =>
                     if is_dangerous key0
                     then ["Dangerous key '" +:+ key0 +:+ "' is not allowed"] else [])
                     (map fst props) = []).
    { induction (map fst props) as [|k ks IH]; [reflexivity|].
      cbn [existsb] in E. apply orb_false_iff in E as [Hk Hks].
      cbn [flat_map]. rewrite Hk. now apply IH. }
    now rewrite Hnil.
Qed.

Lemma forallb_set_prop (ok : string * value -> bool) (k : string) (v : value)
      (props : list (string * value)) :
  (forall k' x, String.eqb k k' = true -> ok (k', x) = ok (k, x)) ->
  ok (k, v) = true -> forallb ok props = true -> forallb ok (set_prop k v props) = true.
Proof.
  intros Hsame Hv. induction props as [|[k' x] ps IH]; intros Hps.
  - cbn. now rewrite Hv.
  - cbn [forallb] in Hps. apply andb_true_iff in Hps as [Hx Hps].
    cbn [set_prop]. destruct (String.eqb k k') eqn:E.
    + cbn [forallb]. apply String.eqb_eq in E; subst k'. now rewrite Hv, Hps.
    + cbn [forallb]. now rewrite Hx, IH.
Qed.

Lemma validateString_valid_value (s : string) (maxLength : nat) (st : RegexState) :
  isValid (fst (validateString (VStr s) maxLength st)) = true ->
  sanitizedValue (fst (validateString (VStr s) maxLength st))
  = Some (VStr (sanitizeHtml (VStr s)))
  /\ (String.length s <= maxLength)%nat.
Proof.
  unfold validateString. destruct (maxLength <? String.length s)%nat eqn:El;
    [discriminate|].
  apply Nat.ltb_ge in El.
  destruct (some_test INJECTION_PATTERNS st (list_ascii_of_string s)) as [found st'].
  destruct found; [discriminate|]. intros _. split; [reflexivity | exact El].
Qed.

Lemma markup_free_sanitizeHtml (s : string) : markup_free (sanitizeHtml (VStr s)) = true.
Proof.
  unfold markup_free. apply forallb_forall. intros c Hc.
  pose proof (sanitizeHtml_no_markup s) as H. rewrite List.Forall_forall in H.
  now rewrite (H c Hc).
Qed.

(** X4. Whenever [sanitizeObject] returns a value, that value holds, at
    every depth, no object key the reserved-key check recognises, no
    string value with a markup character, and no [Blob] or [File]. *)
Theorem sanitizeObject_output_sanitized
        (obj : value) (depth : nat) (st st' : RegexState) (v : value) :
  sanitizeObject obj depth st = (Ok v, st') -> sanitized v = true.
Proof.
  revert depth st st' v.
  induction obj as [ | | b | n | s | items IH | props IH | size type ]
    using value_nested_ind; intros depth st st' v;
    cbn [sanitizeObject]; destruct (MAX_OBJECT_DEPTH <? depth)%nat; try discriminate.
  - intros [= <- _]. reflexivity.
  - intros [= <- _]. reflexivity.
  - intros [= <- _]. reflexivity.
  - intros [= <- _]. reflexivity.
  - pose proof (validateString_valid_value s MAX_STRING_LENGTH st) as Hv.
    destruct (validateString (VStr s) MAX_STRING_LENGTH st) as [result st1].
    cbn [fst] in Hv. destruct (isValid result); [|discriminate].
    destruct (Hv eq_refl) as [-> _]. intros H.
    assert (Hv' : v = VStr (sanitizeHtml (VStr s))) by congruence.
    rewrite Hv'. apply markup_free_sanitizeHtml.
  - destruct (MAX_ARRAY_LENGTH <? List.length items)%nat; [discriminate|].
    assert (Hmap : forall st0 st1 items',
               map_items (fun item => sanitizeObject item (S depth)) items st0
               = (Ok items', st1) -> forallb sanitized items' = true).
    { induction IH as [|item rest Hitem _ IHrest]; intros st0 st1 items'.
      - intros [= <- _]. reflexivity.
      - cbn [map_items].
        destruct (sanitizeObject item (S depth) st0) as [[item'|e] st2] eqn:E1;
          [|discriminate].
        destruct (map_items _ rest st2) as [[rest'|e] st3] eqn:E2; [|discriminate].
        intros [= <- _]. cbn [forallb].
        now rewrite (Hitem _ _ _ _ E1), (IHrest _ _ _ E2). }
    destruct (map_items _ items st) as [[items'|e] st1] eqn:E; [|discriminate].
    intros [= <- _]. cbn [sanitized]. exact (Hmap _ _ _ E).
  - destruct (negb (isValid (validateObjectKeys (VObj props)))); [discriminate|].
    set (ok := fun kv : string * value => negb (is_dangerous (fst kv)) && sanitized (snd kv)).
    assert (Heach : forall acc st0,
               forallb ok acc = true ->
               forallb ok (fst (each_entry (fun value => sanitizeObject value (S depth))
                                           props acc st0)) = true).
    { induction IH as [|[k x] rest Hx _ IHrest]; intros acc st0 Hacc; [exact Hacc|].
      cbn [each_entry]. destruct (is_dangerous k) eqn:Hk; [now apply IHrest|].
      cbn [snd] in Hx.
      destruct (sanitizeObject x (S depth) st0) as [[x'|e] st1] eqn:E; [|now apply IHrest].
      apply IHrest. apply forallb_set_prop; [| |exact Hacc].
      - intros k' y Heq. apply String.eqb_eq in Heq. now subst k'.
      - unfold ok. cbn [fst snd]. rewrite Hk. cbn [negb andb]. exact (Hx _ _ _ _ E). }
    specialize (Heach [] st eq_refl).
    destruct (each_entry _ props [] st) as [sanitizedObj st1].
    intros [= <- _]. exact Heach.
  - intros [= <- _]. reflexivity.
Qed.

Lemma sanitizeObject_output_sanitized_witness :
  sanitized (VObj [("bio", VStr "&lt;b&gt;bold&lt;&#x2F;b&gt;")]) = true.
Proof.
  apply (sanitizeObject_output_sanitized bio_record 0 fresh_regex_state fresh_regex_state).
  vm_compute. reflexivity.
Defined.

(** X5. A [Blob] or [File] held in a property of a record does not
    survive [sanitizeObject]: the property comes back as an empty
    object, so the image records the ingestion builds carry no bytes. *)
Theorem sanitizeObject_empties_blob
        (props : list (string * value)) (k : string) (size : Z) (type : string)
        (st st' : RegexState) (v : value) :
  List.NoDup (map fst props) ->
  lookup_prop k props = Some (VBlob size type) ->
  is_dangerous k = false ->
  sanitizeObject (VObj props) 0 st = (Ok v, st') ->
  JS.get v k = VObj [].
Proof.
  intros Hnodup Hk Hsafe. rewrite sanitizeObject_object by (unfold MAX_OBJECT_DEPTH; lia).
  cbv zeta. destruct (negb (isValid (validateObjectKeys (VObj props)))); [discriminate|].
  pose proof (each_entry_lookup (fun value => sanitizeObject value 1) props [] st
                k (VBlob size type) (VObj []) Hnodup (lookup_prop_In _ _ _ Hk) Hsafe)
    as Hlookup.
  destruct (each_entry (fun value => sanitizeObject value 1) props [] st)
    as [sanitizedObj st1].
  intros [= <- _]. cbn [JS.get]. cbn [fst] in Hlookup. rewrite Hlookup; [reflexivity|].
  intros st0. exists st0. reflexivity.
Qed.

Lemma sanitizeObject_empties_blob_witness :
  JS.get (VObj [("key", VStr "standard"); ("avatarKey", VStr "test-avatar");
                ("source", VNull); ("blob", VObj [])]) "blob" = VObj [].
Proof.
  apply (sanitizeObject_empties_blob
           [("key", VStr "standard"); ("avatarKey", VStr "test-avatar");
            ("source", VNull); ("blob", VBlob 2048 "image/png")]
           "blob" 2048 "image/png" fresh_regex_state fresh_regex_state).
  - simpl. repeat constructor; simpl; intuition discriminate.
  - reflexivity.
  - reflexivity.
  - vm_compute. reflexivity.
Defined.

End KeyProps.

(** ** Acceptance conditions of the validators *)

Module ValidatorProps.
Import Regex RegexAnalysis SecurityService Invariants Example Facts KeyProps.

Lemma no_errors_valid (errs : list string) :
  isValid (match errs with [] => valid | _ => invalid errs end) = true <-> errs = [].
Proof. destruct errs; split; intros H; try reflexivity; discriminate. Qed.

Lemma app_nil_iff {A} (a b : list A) : (a ++ b)%list = [] <-> a = [] /\ b = [].
Proof.
  split.
  - intros H. apply app_eq_nil in H. exact H.
  - intros [-> ->]. reflexivity.
Qed.

Lemma guard_nil (b : bool) (e : string) : (if b then [e] else []) = [] <-> b = false.
Proof. destruct b; split; intros H; try reflexivity; discriminate. Qed.

Lemma rmatch_lit (w : string) :
  forall (s : list ascii) (k : list ascii -> option (list ascii)),
    rmatch (lit w) s k
    = match strip_ci (list_ascii_of_string w) s with
      | Some rest => k rest
      | None => None
      end.
Proof.
  induction w as [|c r IH]; intros s k; [reflexivity|].
  destruct r as [|c' r'].
  - cbn. destruct s as [|d s']; [reflexivity|].
    now destruct (Ascii.eqb (upper_ascii d) (upper_ascii c)).
  - change (lit (String c (String c' r'))) with (Seq (ci c) (lit (String c' r'))).
    cbn [rmatch ci]. destruct s as [|d s']; [reflexivity|].
    cbn [list_ascii_of_string strip_ci].
    destruct (Ascii.eqb (upper_ascii d) (upper_ascii c)); [apply IH|reflexivity].
Qed.

Lemma folds_alike_spec (c d : ascii) :
  folds_alike c = true ->
  Ascii.eqb (upper_ascii d) (upper_ascii c) = Ascii.eqb (lower_ascii d) c.
Proof.
  unfold folds_alike. rewrite forallb_forall. intros H.
  apply eqb_prop. apply H. apply HtmlProps.all_ascii_complete.
Qed.

Lemma strip_ci_spec (w : list ascii) :
  forallb folds_alike w = true ->
  forall s rest,
    strip_ci w s = Some rest <-> exists found, s = found ++ rest /\ map lower_ascii found = w.
Proof.
  induction w as [|c w IH]; intros Hw s rest; cbn [strip_ci].
  - split.
    + intros [= ->]. now exists [].
    + intros (found & -> & Hf). apply map_eq_nil in Hf. now subst.
  - cbn [forallb] in Hw. apply andb_true_iff in Hw as [Hc Hw].
    destruct s as [|d s'].
    + split; [discriminate|]. intros (found & Hs & Hf).
      destruct found; [discriminate Hf|discriminate Hs].
    + rewrite (folds_alike_spec c d Hc). destruct (Ascii.eqb_spec (lower_ascii d) c) as [<-|Hne].
      * rewrite (IH Hw). split.
        -- intros (found & -> & <-). now exists (d :: found).
        -- intros (found & Hs & Hf). destruct found as [|d' found]; [discriminate Hf|].
           cbn in Hs, Hf. injection Hs as <- ->. injection Hf as Hf. now exists found.
      * split; [discriminate|]. intros (found & Hs & Hf).
        destruct found as [|d' found]; [discriminate Hf|].
        cbn in Hs, Hf. injection Hs as <- ->. injection Hf as Hd _. contradiction.
Qed.

Lemma search_lit (w : string) :
  forallb folds_alike (list_ascii_of_string w) = true ->
  forall s,
    search (lit w) s <> None
    <-> exists before found after,
          s = before ++ found ++ after
          /\ map lower_ascii found = list_ascii_of_string w.
Proof.
  intros Hw.
  assert (Hhere : forall s, match_here (lit w) s <> None
                            <-> exists rest, strip_ci (list_ascii_of_string w) s = Some rest).
  { intros s. unfold match_here. rewrite rmatch_lit.
    destruct (strip_ci (list_ascii_of_string w) s) as [rest|].
    - split; [eauto|discriminate].
    - split; [congruence|intros [rest H]; discriminate]. }
  intros s. split.
  - induction s as [|c s IH]; cbn [search].
    + destruct (match_here (lit w) []) eqn:E.
      * intros _. assert (H : match_here (lit w) [] <> None) by congruence.
        apply Hhere in H as [rest H]. apply (strip_ci_spec _ Hw) in H as (found & Hs & Hf).
        exists [], found, rest. split; assumption.
      * congruence.
    + destruct (match_here (lit w) (c :: s)) eqn:E.
      * intros _. assert (H : match_here (lit w) (c :: s) <> None) by congruence.
        apply Hhere in H as [rest H]. apply (strip_ci_spec _ Hw) in H as (found & Hs & Hf).
        exists [], found, rest. split; assumption.
      * destruct (search (lit w) s) as [[i len]|]; [|congruence].
        intros _. destruct IH as (before & found & after & -> & Hf); [discriminate|].
        exists (c :: before), found, after. split; [reflexivity|exact Hf].
  - intros (before & found & after & -> & Hf). induction before as [|c before IH].
    + cbn [app]. assert (H : match_here (lit w) (found ++ after) <> None).
      { apply Hhere. exists after. apply (strip_ci_spec _ Hw). now exists found. }
      destruct (found ++ after); cbn [search];
        destruct (match_here (lit w) _); congruence.
    + cbn [app search]. destruct (match_here (lit w) _); [discriminate|].
      destruct (search (lit w) (before ++ found ++ after)) as [[i len]|];
        [discriminate|contradiction].
Qed.

Lemma toLowerCase_chars (s : string) :
  list_ascii_of_string (toLowerCase s) = map lower_ascii (list_ascii_of_string s).
Proof. induction s as [|c s IH]; [reflexivity|]. cbn. now rewrite IH. Qed.

(** A pattern of [validateUrl] is found in a string exactly when its
    word occurs in the lower-cased string. *)
Lemma test_once_contains (w text : string) :
  forallb folds_alike (list_ascii_of_string w) = true ->
  test_once (lit w) (list_ascii_of_string text) = true <-> contains (toLowerCase text) w.
Proof.
  intros Hw. unfold test_once, contains. rewrite toLowerCase_chars.
  pose proof (search_lit w Hw (list_ascii_of_string text)) as Hsearch.
  split.
  - intros H. destruct (search (lit w) (list_ascii_of_string text)); [|discriminate].
    destruct Hsearch as [Hsearch _].
    destruct Hsearch as (before & found & after & -> & Hf); [discriminate|].
    exists (map lower_ascii before), (map lower_ascii after).
    now rewrite !map_app, Hf.
  - intros (before & after & H).
    apply map_eq_app in H as (b & rest & Htext & Hb & Hrest).
    apply map_eq_app in Hrest as (found & a & -> & Hf & Ha).
    destruct Hsearch as [_ Hsearch].
    destruct (search (lit w) (list_ascii_of_string text)); [reflexivity|].
    exfalso. apply Hsearch; [|reflexivity]. now exists b, found, a.
Qed.

Lemma startsWith_iff (s p : string) :
  startsWith s p = true <-> exists rest, s = p +:+ rest.
Proof.
  revert s. induction p as [|c p IH]; intros s.
  - split; [intros _; now exists s|intros _; now destruct s].
  - destruct s as [|d s]; cbn [startsWith].
    + split; [discriminate|intros [rest H]; discriminate].
    + rewrite andb_true_iff, IH. split.
      * intros [Hc [rest ->]]. apply Ascii.eqb_eq in Hc. subst. now exists rest.
      * intros [rest H]. cbn in H. injection H as <- ->.
        split; [apply Ascii.eqb_refl|now exists rest].
Qed.

Lemma is_local_host_iff (h : string) :
  is_local_host h = false
  <-> h <> "localhost" /\ h <> "127.0.0.1"
      /\ forall prefix, In prefix LOCAL_PREFIXES -> forall rest, h <> prefix +:+ rest.
Proof.
  unfold is_local_host. rewrite !orb_false_iff, !String.eqb_neq. split.
  - intros ((((H1 & H2) & H3) & H4) & H5). split; [exact H1|]. split; [exact H2|].
    intros prefix [<-|[<-|[<-|[]]]] rest ->.
    + assert (H : startsWith ("192.168." +:+ rest) "192.168." = true)
        by (apply startsWith_iff; eauto). congruence.
    + assert (H : startsWith ("10." +:+ rest) "10." = true)
        by (apply startsWith_iff; eauto). congruence.
    + assert (H : startsWith ("172." +:+ rest) "172." = true)
        by (apply startsWith_iff; eauto). congruence.
  - intros (H1 & H2 & H3). repeat split; try assumption.
    + destruct (startsWith h "192.168.") eqn:E; [|reflexivity].
      apply startsWith_iff in E as [rest ->]. exfalso. apply (H3 "192.168." ltac:(cbn; tauto) rest eq_refl).
    + destruct (startsWith h "10.") eqn:E; [|reflexivity].
      apply startsWith_iff in E as [rest ->]. exfalso. apply (H3 "10." ltac:(cbn; tauto) rest eq_refl).
    + destruct (startsWith h "172.") eqn:E; [|reflexivity].
      apply startsWith_iff in E as [rest ->]. exfalso. apply (H3 "172." ltac:(cbn; tauto) rest eq_refl).
Qed.

Lemma no_dangerous_pattern (url : string) :
  existsb (fun pattern => test_once pattern (list_ascii_of_string url)) dangerousPatterns
  = false
  <-> forall word, In word DANGEROUS_WORDS -> ~ contains (toLowerCase url) word.
Proof.
  change dangerousPatterns with (map lit DANGEROUS_WORDS).
  assert (Hall : Forall (fun w => forallb folds_alike (list_ascii_of_string w) = true)
                        DANGEROUS_WORDS).
  { repeat constructor; vm_compute; reflexivity. }
  induction Hall as [|w ws Hw _ IH]; cbn [map existsb In].
  - split; [intros _ word []|reflexivity].
  - rewrite orb_false_iff, IH. split.
    + intros [Hhere Hrest] word [<-|Hin]; [|now apply Hrest].
      intros Hc. apply (test_once_contains w url Hw) in Hc. congruence.
    + intros H. split; [|intros word Hin; apply H; now right].
      destruct (test_once (lit w) (list_ascii_of_string url)) eqn:E; [|reflexivity].
      exfalso. apply (H w); [now left|]. now apply (test_once_contains w url Hw).
Qed.

(** X6. [validateUrl] accepts a string exactly when it is not empty, it
    parses, its scheme is http or https, its lower-cased text contains
    none of the words [javascript:], [data:], [vbscript:], [file:],
    [ftp:] at any place, and its host is neither [localhost] nor
    [127.0.0.1] nor a name that starts with [192.168.], [10.] or
    [172.]. The right-hand side speaks of the text of the URL only: that
    the five case-insensitive patterns find a match exactly when a word
    occurs in the lower-cased text is proved of the matcher. *)
Theorem validateUrl_accepts_iff (env : Env) (url : string) :
  isValid (validateUrl env (VStr url)) = true <->
  url <> ""
  /\ exists u,
      parseURL env url = Some u
      /\ (protocol u = "http:" \/ protocol u = "https:")
      /\ (forall word, In word DANGEROUS_WORDS -> ~ contains (toLowerCase url) word)
      /\ hostname u <> "localhost"
      /\ hostname u <> "127.0.0.1"
      /\ (forall prefix, In prefix LOCAL_PREFIXES ->
          forall rest, hostname u <> prefix +:+ rest).
Proof.
  unfold validateUrl. destruct (String.eqb url "") eqn:Hempty.
  - apply String.eqb_eq in Hempty. split; [discriminate | intros [H _]; contradiction].
  - apply String.eqb_neq in Hempty.
    destruct (parseURL env url) as [u|].
    + rewrite no_errors_valid, !app_nil_iff, !guard_nil, negb_false_iff.
      rewrite includes_true, is_local_host_iff, no_dangerous_pattern. cbn [In]. split.
      * intros [Hp [Hd Hl]]. split; [exact Hempty|]. exists u.
        split; [reflexivity|]. split; [|split; [exact Hd|exact Hl]].
        destruct Hp as [<- | [<- | []]]; auto.
      * intros [_ [u' [[= <-] [Hp [Hd Hl]]]]]. split; [|split; [exact Hd|exact Hl]].
        destruct Hp as [-> | ->]; auto.
    + split; [discriminate | intros [_ [u [Hu _]]]; discriminate].
Qed.

(** A lower-cased name cannot contain a keyword spelt with a capital. *)
Lemma startsWith_chars (s p : string) (c : ascii) :
  startsWith s p = true -> In c (list_ascii_of_string p) -> In c (list_ascii_of_string s).
Proof.
  revert s; induction p as [|d p IH]; intros s Hs Hc; [destruct Hc|].
  destruct s as [|e s]; [discriminate|]. cbn in Hs.
  apply andb_true_iff in Hs as [Hd Hs]. apply Ascii.eqb_eq in Hd; subst e.
  destruct Hc as [<- | Hc]; [now left | right; now apply IH].
Qed.

Lemma str_includes_chars (s p : string) (c : ascii) :
  str_includes s p = true -> In c (list_ascii_of_string p) -> In c (list_ascii_of_string s).
Proof.
  induction s as [|e s IH]; intros Hs Hc.
  - cbn in Hs. rewrite orb_false_r in Hs. now apply (startsWith_chars "" p).
  - cbn [str_includes] in Hs. apply orb_true_iff in Hs as [Hs | Hs].
    + now apply (startsWith_chars (String e s) p).
    + right. now apply IH.
Qed.

Lemma lower_chars_fixed (s : string) (c : ascii) :
  In c (list_ascii_of_string (toLowerCase s)) -> lower_ascii c = c.
Proof.
  induction s as [|d s IH]; [intros []|].
  cbn. intros [<- | H]; [apply lower_ascii_idempotent | now apply IH].
Qed.

Lemma lower_never_includes (name keyword : string) (c : ascii) :
  In c (list_ascii_of_string keyword) -> lower_ascii c <> c ->
  str_includes (toLowerCase name) keyword = false.
Proof.
  intros Hc Hup. apply not_true_is_false. intros H.
  apply Hup. apply (lower_chars_fixed name). now apply (str_includes_chars _ keyword).
Qed.

(** X7. [validateFile] accepts a file exactly when it is at most 10 MiB,
    the part of its name after the last dot (lower-cased) gives an
    allow-listed extension, its MIME type is one listed for that
    extension, and its lower-cased name contains none of [__proto__],
    [constructor], [prototype]; the seven other dangerous keywords are
    spelt with a capital and can never be found in a lower-cased
    name. *)
Theorem validateFile_accepts_iff (file : File) :
  let extension := "." +:+ toLowerCase (last_segment (name file) (name file)) in
  isValid (validateFile (Some file)) = true <->
  (size file <= MAX_FILE_SIZE)%Z
  /\ includes ALLOWED_FILE_EXTENSIONS extension = true
  /\ existsb (fun key => str_includes (toLowerCase (name file)) key) RECOGNISED_KEYS = false
  /\ validateMimeType (type file) extension = true.
Proof.
  intros extension. unfold validateFile. fold extension.
  rewrite no_errors_valid, !app_nil_iff, !guard_nil, !negb_false_iff, Z.ltb_ge.
  assert (Hkeys : existsb (fun key => str_includes (toLowerCase (name file)) key)
                          DANGEROUS_KEYS
                  = existsb (fun key => str_includes (toLowerCase (name file)) key)
                            RECOGNISED_KEYS).
  { unfold DANGEROUS_KEYS, RECOGNISED_KEYS. cbn [existsb].
    rewrite (lower_never_includes (name file) "__defineGetter__" "G")
      by (cbn; intuition discriminate).
    rewrite (lower_never_includes (name file) "__defineSetter__" "S")
      by (cbn; intuition discriminate).
    rewrite (lower_never_includes (name file) "__lookupGetter__" "G")
      by (cbn; intuition discriminate).
    rewrite (lower_never_includes (name file) "__lookupSetter__" "S")
      by (cbn; intuition discriminate).
    rewrite (lower_never_includes (name file) "toString" "S")
      by (cbn; intuition discriminate).
    rewrite (lower_never_includes (name file) "valueOf" "O")
      by (cbn; intuition discriminate).
    rewrite (lower_never_includes (name file) "hasOwnProperty" "O")
      by (cbn; intuition discriminate).
    reflexivity. }
  rewrite Hkeys. tauto.
Qed.

Lemma validateString_valid_string (v : value) (maxLength : nat) (st : RegexState) :
  isValid (fst (validateString v maxLength st)) = true ->
  exists s, v = VStr s /\ (String.length s <= maxLength)%nat.
Proof.
  destruct v; try discriminate. intros H. eexists. split; [reflexivity|].
  now apply (validateString_valid_value _ _ st).
Qed.

Lemma validateImage_ok (env : Env) (image : value) (index : nat) :
  validateImage env image index = [] ->
  truthy image = true /\ is_object image = true
  /\ (exists k, JS.get image "key" = VStr k /\ k <> "")
  /\ (JS.get image "type" = VStr "url" \/ JS.get image "type" = VStr "local")
  /\ (JS.get image "type" = VStr "url" -> truthy (JS.get image "source") = true ->
      isValid (validateUrl env (JS.get image "source")) = true)
  /\ (JS.get image "type" = VStr "local" ->
      exists n, JS.get image "name" = VStr n /\ n <> "").
Proof.
  unfold validateImage.
  destruct (negb (truthy image) || negb (is_object image)) eqn:Hobj; [discriminate|].
  apply orb_false_iff in Hobj as [Ht Ho]. apply negb_false_iff in Ht, Ho.
  rewrite !app_nil_iff. intros [Hkey [Htype [Hurl Hlocal]]].
  split; [exact Ht|]. split; [exact Ho|].
  assert (Hstr : forall v, negb (truthy v) || negb (is_string v) = false ->
                           exists s, v = VStr s /\ s <> "").
  { intros v Hv. apply orb_false_iff in Hv as [Hv1 Hv2].
    apply negb_false_iff in Hv1, Hv2. destruct v; try discriminate.
    eexists. split; [reflexivity|]. intros ->. discriminate. }
  split.
  { apply Hstr. now destruct (negb (truthy (JS.get image "key"))
                              || negb (is_string (JS.get image "key"))). }
  assert (Heqb : forall v s, value_eqb v (VStr s) = true -> v = VStr s).
  { intros v s' H. destruct v; try discriminate. cbn in H.
    apply String.eqb_eq in H. now subst. }
  split.
  { destruct (negb (truthy (JS.get image "type"))
              || negb (value_eqb (JS.get image "type") (VStr "url")
                       || value_eqb (JS.get image "type") (VStr "local"))) eqn:E;
      [discriminate|].
    apply orb_false_iff in E as [_ E]. apply negb_false_iff in E.
    apply orb_true_iff in E as [E | E]; [left | right]; now apply Heqb. }
  split.
  { intros Hu Hs. rewrite Hu, Hs in Hurl. cbn [value_eqb andb] in Hurl.
    change (String.eqb "url" "url") with true in Hurl. cbv iota in Hurl.
    now destruct (isValid (validateUrl env (JS.get image "source"))). }
  intros Hl. rewrite Hl in Hlocal. cbn [value_eqb] in Hlocal.
  change (String.eqb "local" "local") with true in Hlocal. cbn [andb] in Hlocal.
  apply Hstr. now destruct (negb (truthy (JS.get image "name"))
                            || negb (is_string (JS.get image "name"))).
Qed.

Lemma validateImages_ok (env : Env) (images : list value) (index : nat) :
  validateImages env images index = [] ->
  Forall (fun image => exists i, validateImage env image i = []) images.
Proof.
  revert index; induction images as [|image rest IH]; intros index H; [constructor|].
  cbn [validateImages] in H. apply app_nil_iff in H as [H1 H2].
  constructor; [now exists index | now apply (IH (S index))].
Qed.

(** X8. A manifest [validateAvatarManifest] reports valid has a
    non-empty string key of at most 64 code units and a non-empty string
    description of at most 500; its [images], when given (truthy), is an
    array of at most 50 objects, each with a non-empty string key and the
    type [url] or [local], a local one with a non-empty string name and
    a url one with a source that is absent or accepted by
    [validateUrl]. *)
Theorem validateAvatarManifest_valid_shape (env : Env) (manifest : value) (st : RegexState) :
  isValid (fst (validateAvatarManifest env manifest st)) = true ->
  (exists key, JS.get manifest "key" = VStr key /\ key <> ""
               /\ (String.length key <= 64)%nat)
  /\ (exists description,
        JS.get manifest "description" = VStr description /\ description <> ""
        /\ (String.length description <= 500)%nat)
  /\ (truthy (JS.get manifest "images") = true ->
      exists images,
        JS.get manifest "images" = VArr images
        /\ (List.length images <= 50)%nat
        /\ Forall (fun image =>
                     is_object image = true
                     /\ (exists k, JS.get image "key" = VStr k /\ k <> "")
                     /\ (JS.get image "type" = VStr "url"
                         \/ JS.get image "type" = VStr "local")
                     /\ (JS.get image "type" = VStr "url" ->
                         truthy (JS.get image "source") = true ->
                         isValid (validateUrl env (JS.get image "source")) = true)
                     /\ (JS.get image "type" = VStr "local" ->
                         exists n, JS.get image "name" = VStr n /\ n <> ""))
                  images).
Proof.
  unfold validateAvatarManifest.
  destruct (negb (truthy manifest) || negb (is_object manifest)); [discriminate|].
  cbv zeta. cbn [flat_map app].
  destruct (truthy (JS.get manifest "key")) eqn:Hk.
  2:{ cbn [negb orb]. destruct (if truthy (JS.get manifest "description") then _ else _).
      cbn [app]. discriminate. }
  destruct (truthy (JS.get manifest "description")) eqn:Hd.
  2:{ destruct (validateString (JS.get manifest "key") 64 st) as [kv st1].
      cbn [negb orb]. destruct (is_string (JS.get manifest "key")); cbn [negb app];
        discriminate. }
  pose proof (validateString_valid_string (JS.get manifest "key") 64 st) as Hkey.
  destruct (validateString (JS.get manifest "key") 64 st) as [kv st1].
  pose proof (validateString_valid_string (JS.get manifest "description") 500 st1) as Hdesc.
  destruct (validateString (JS.get manifest "description") 500 st1) as [dv st2].
  cbn [fst] in Hkey, Hdesc. cbn [negb orb].
  destruct (is_string (JS.get manifest "key")); cbn [negb app]; [|discriminate].
  destruct (is_string (JS.get manifest "description")); cbn [negb app]; [|discriminate].
  destruct (isValid kv); cbn [negb app]; [|discriminate].
  destruct (isValid dv); cbn [negb app]; [|discriminate].
  destruct (Hkey eq_refl) as [key [Hkeq Hklen]].
  destruct (Hdesc eq_refl) as [description [Hdeq Hdlen]].
  intros Hvalid. split.
  { exists key. repeat split; try assumption. intros ->. rewrite Hkeq in Hk. discriminate. }
  split.
  { exists description. repeat split; try assumption.
    intros ->. rewrite Hdeq in Hd. discriminate. }
  intros Hi. rewrite Hi in Hvalid.
  destruct (JS.get manifest "images") as [ | | | | | images | | ]; try discriminate.
  exists images. split; [reflexivity|].
  destruct (50 <? List.length images)%nat eqn:Hlen; [discriminate|].
  apply Nat.ltb_ge in Hlen. split; [exact Hlen|].
  destruct (validateImages env images 0) eqn:Himages; [|discriminate].
  apply validateImages_ok in Himages.
  apply List.Forall_impl with (2 := Himages).
  intros image [i Hok]. apply validateImage_ok in Hok. tauto.
Qed.

Lemma validateAvatarManifest_valid_shape_witness :
  exists key, JS.get two_image_manifest "key" = VStr key /\ key <> ""
              /\ (String.length key <= 64)%nat.
Proof.
  apply (validateAvatarManifest_valid_shape two_image_env two_image_manifest
           fresh_regex_state).
  vm_compute. reflexivity.
Defined.

End ValidatorProps.

(** ** The budget of a window *)

Module BudgetProps.
Import SecurityService Example RateProps.

(** Inside a window whose entry counts [c] requests, the next calls are
    allowed until the count reaches the limit and refused from then
    on. *)
Lemma calls_budget (ts : list Z) (k : string) (n c : nat) (w r : Z)
      (m : gmap string RateLimitEntry) :
  m !! k = Some {| count := Z.of_nat c; resetTime := r |} ->
  Forall (fun t => (t <= r)%Z) ts ->
  checkRateLimit_calls ts k (Z.of_nat n) w m
  = (repeat true (Nat.min (List.length ts) (n - c))
     ++ repeat false (List.length ts - (n - c)),
     <[k := {| count := Z.of_nat (c + Nat.min (List.length ts) (n - c)); resetTime := r |}]> m).
Proof.
  revert c m; induction ts as [|t ts IH]; intros c m Hk Hts.
  - cbn. rewrite Nat.add_0_r. now rewrite insert_id.
  - inversion Hts as [|? ? Ht Hts']; subst.
    cbn [checkRateLimit_calls]. unfold checkRateLimit. rewrite Hk. cbn [resetTime count].
    assert (Hr : (r <? t)%Z = false) by (apply Z.ltb_ge; lia). rewrite Hr.
    destruct (Z.of_nat n <=? Z.of_nat c)%Z eqn:Hn.
    + apply Z.leb_le in Hn.
      rewrite (IH c m Hk Hts').
      replace (n - c)%nat with 0%nat by lia.
      rewrite !Nat.min_0_r, !Nat.sub_0_r. reflexivity.
    + apply Z.leb_gt in Hn.
      rewrite (IH (S c)); [ | | assumption ].
      2:{ rewrite lookup_insert_eq. do 2 f_equal. lia. }
      rewrite insert_insert_eq. cbn [List.length].
      replace (n - c)%nat with (S (n - S c)) by lia.
      cbn [Nat.min repeat Nat.sub app]. do 3 f_equal. lia.
Qed.

(** X9. In one window at most [max n 1] calls are allowed, however many
    are made: after the call that opens the window, the calls inside it
    are allowed while fewer than [n] have been counted and refused
    afterwards, and the reset time set by the first call never moves.
    With a limit of 0 the opening call is still allowed. *)
Theorem checkRateLimit_window_budget
        (k : string) (n : nat) (w t0 : Z) (ts : list Z) (m : gmap string RateLimitEntry) :
  (m !! k = None \/ exists e, m !! k = Some e /\ (resetTime e < t0)%Z) ->
  Forall (fun t => (t <= t0 + w)%Z) ts ->
  let run := checkRateLimit_calls (t0 :: ts) k (Z.of_nat n) w m in
  fst run = true :: repeat true (Nat.min (List.length ts) (n - 1))
                 ++ repeat false (List.length ts - (n - 1))
  /\ (count_occ bool_dec (fst run) true <= Nat.max n 1)%nat
  /\ (exists e, snd run !! k = Some e /\ resetTime e = (t0 + w)%Z).
Proof.
  intros Hfresh Hts run. unfold run. cbn [checkRateLimit_calls].
  rewrite (first_call_opens_window _ _ _ _ _ Hfresh).
  rewrite (calls_budget ts k n 1 w (t0 + w)); [ | apply lookup_insert_eq | assumption ].
  cbn [fst snd]. split; [reflexivity|]. split.
  - cbn [count_occ]. destruct (bool_dec true true) as [_|Hne]; [|congruence].
    rewrite count_occ_app.
    rewrite count_occ_repeat_eq by reflexivity.
    rewrite count_occ_repeat_neq by discriminate. lia.
  - eexists. rewrite lookup_insert_eq. split; reflexivity.
Qed.

Lemma checkRateLimit_window_budget_witness :
  fst (checkRateLimit_calls [1000; 1001; 1002; 1003; 1004]%Z "image:x" 2 60000 ∅)
  = [true; true; false; false; false].
Proof.
  pose proof (checkRateLimit_window_budget "image:x" 2 60000 1000
                [1001; 1002; 1003; 1004]%Z ∅) as H.
  apply H.
  - left. reflexivity.
  - repeat constructor; lia.
Defined.

End BudgetProps.

(** ** More on the object store *)

Module RecordProps.
Import SecurityService DatabaseService Invariants Example Facts StoreProps KeyProps
       DeleteProps.

Lemma value_eqb_eq (a b : value) : value_eqb a b = true -> a = b.
Proof.
  revert b.
  induction a as [ | | x | x | x | items IH | props IH | size type ] using value_nested_ind;
    intros [ | | y | y | y | items' | props' | size' type' ]; cbn [value_eqb];
    try discriminate; try reflexivity.
  - intros H. apply Bool.eqb_prop in H. now subst.
  - intros H. apply Z.eqb_eq in H. now subst.
  - intros H. apply String.eqb_eq in H. now subst.
  - intros H. f_equal. revert items' H.
    induction IH as [|x xs Hx _ IHxs]; intros [|y ys] H; try discriminate; [reflexivity|].
    apply andb_true_iff in H as [H1 H2]. f_equal; [now apply Hx | now apply IHxs].
  - intros H. f_equal. revert props' H.
    induction IH as [|[k x] ps Hx _ IHps]; intros [|[k' y] qs] H;
      try discriminate; [reflexivity|].
    apply andb_true_iff in H as [H12 H3]. apply andb_true_iff in H12 as [H1 H2].
    apply String.eqb_eq in H1. subst k'. cbn [snd] in Hx.
    f_equal; [f_equal; now apply Hx | now apply IHps].
  - intros H. apply andb_true_iff in H as [H1 H2].
    apply Z.eqb_eq in H1. apply String.eqb_eq in H2. now subst.
Qed.

Lemma has_key_other (k k' : value) (r : value * value) :
  k' <> k -> has_key k r = true -> has_key k' r = false.
Proof.
  unfold has_key. intros Hne Hk. apply value_eqb_eq in Hk.
  apply not_true_is_false. intros Hk'. apply value_eqb_eq in Hk'. congruence.
Qed.

Lemma lookup_put_record_other (k k' v : value) (rs : list (value * value)) :
  k' <> k -> lookup_record k' (put_record k v rs) = lookup_record k' rs.
Proof.
  intros Hne. unfold put_record.
  assert (H : has_key k' (k, v) = false)
    by apply (has_key_other k k' (k, v) Hne), StoreProps.has_key_refl.
  assert (Hins : forall l, find (has_key k') (insert_record k v l) = find (has_key k') l).
  { induction l as [|r l IH]; cbn [insert_record find]; [now rewrite H|].
    destruct (key_compare k (fst r)); cbn [find]; try now rewrite H.
    destruct (has_key k' r); [reflexivity|exact IH]. }
  unfold lookup_record at 1. rewrite Hins. fold (lookup_record k' (delete_record k rs)).
  unfold lookup_record, delete_record.
  induction rs as [|r rs IH]; [reflexivity|].
  cbn [List.filter find]. destruct (has_key k r) eqn:E; cbn [negb find].
  - rewrite (has_key_other k k' r Hne E). exact IH.
  - destruct (has_key k' r); [reflexivity | exact IH].
Qed.

Lemma lookup_delete_record_other (k k' : value) (rs : list (value * value)) :
  k' <> k -> lookup_record k' (delete_record k rs) = lookup_record k' rs.
Proof.
  intros Hne. unfold lookup_record, delete_record.
  induction rs as [|r rs IH]; [reflexivity|].
  cbn [List.filter find]. destruct (has_key k r) eqn:E; cbn [negb find].
  - rewrite (has_key_other k k' r Hne E). exact IH.
  - destruct (has_key k' r); [reflexivity | exact IH].
Qed.

Lemma insert_record_length (k v : value) (rs : list (value * value)) :
  List.length (insert_record k v rs) = S (List.length rs).
Proof.
  induction rs as [|r rs IH]; cbn [insert_record]; [reflexivity|].
  destruct (key_compare k (fst r)); cbn [List.length]; try reflexivity. now rewrite IH.
Qed.

Lemma delete_insert_record (k v : value) (rs : list (value * value)) :
  delete_record k (insert_record k v rs) = delete_record k rs.
Proof.
  unfold delete_record. induction rs as [|r rs IH]; cbn [insert_record List.filter].
  - now rewrite StoreProps.has_key_refl.
  - destruct (key_compare k (fst r)); cbn [List.filter];
      rewrite ?StoreProps.has_key_refl; cbn [negb]; try reflexivity.
    now rewrite IH.
Qed.

Lemma delete_record_twice (k : value) (rs : list (value * value)) :
  delete_record k (delete_record k rs) = delete_record k rs.
Proof.
  unfold delete_record. induction rs as [|r rs IH]; [reflexivity|].
  cbn [List.filter]. destruct (negb (has_key k r)) eqn:E; [|exact IH].
  cbn [List.filter]. now rewrite E, IH.
Qed.

(** A second [put] under a key takes the place of the first. *)
Lemma put_record_length (k v v' : value) (rs : list (value * value)) :
  List.length (put_record k v (put_record k v' rs)) = List.length (put_record k v' rs).
Proof.
  unfold put_record.
  now rewrite delete_insert_record, delete_record_twice, !insert_record_length.
Qed.

Lemma delete_record_absent (k : value) (rs : list (value * value)) :
  lookup_record k rs = None -> delete_record k rs = rs.
Proof.
  unfold lookup_record, delete_record. induction rs as [|r rs IH]; [reflexivity|].
  cbn [find List.filter]. destruct (has_key k r); [discriminate|].
  intros H. cbn [negb]. now rewrite IH.
Qed.

Lemma with_records_same (s : ObjectStore) : with_records s (records s) = s.
Proof. now destruct s. Qed.

(** What one successful [put] with an explicit key does. *)
Lemma put_out_of_line (db : Database) (storeName : string) (s : ObjectStore) (r k : value) :
  validateStoreName storeName = Ok tt ->
  validateKey k = Ok tt ->
  valid_key k = true ->
  stores db !! storeName = Some s ->
  keyPath s = None ->
  (forall q, fails db q = false) ->
  put db storeName r (Some k)
  = (Ok tt,
     set_store storeName (with_records s (put_record k (sanitizeData r) (records s)))
               (place (ReqPut storeName (sanitizeData r) (Some k)) db)).
Proof.
  intros Hname Hkey Hvalid Hstore Hpath Hfails.
  unfold put, put_check, put_run, store_put, objectStore.
  rewrite Hname, Hkey, Hstore. unfold put_key. now rewrite Hpath, Hvalid, Hfails.
Qed.

Lemma get_present (db : Database) (storeName : string) (s : ObjectStore) (k : value) :
  validateStoreName storeName = Ok tt ->
  validateKey k = Ok tt ->
  valid_key k = true ->
  stores db !! storeName = Some s ->
  (forall q, fails db q = false) ->
  fst (get db storeName k)
  = Ok (match lookup_record k (records s) with Some v => v | None => VUndefined end).
Proof.
  intros Hname Hkey Hvalid Hstore Hfails.
  unfold get, store_get, objectStore. rewrite Hname, Hkey, Hstore, Hvalid, Hfails.
  reflexivity.
Qed.

(** X10. [put] is an upsert: a second [put] under the same key replaces
    the stored value without adding a record, [get] then returns the
    second value, and no other key of the store is affected. *)
Theorem put_is_upsert
        (db : Database) (storeName : string) (s : ObjectStore) (r1 r2 k : value) :
  validateStoreName storeName = Ok tt ->
  validateKey k = Ok tt ->
  valid_key k = true ->
  stores db !! storeName = Some s ->
  keyPath s = None ->
  (forall q, fails db q = false) ->
  let db1 := snd (put db storeName r1 (Some k)) in
  let db2 := snd (put db1 storeName r2 (Some k)) in
  fst (put db1 storeName r2 (Some k)) = Ok tt
  /\ fst (get db2 storeName k) = Ok (sanitizeData r2)
  /\ (exists s1 s2,
        stores db1 !! storeName = Some s1 /\ stores db2 !! storeName = Some s2
        /\ List.length (records s2) = List.length (records s1))
  /\ (forall k', validateKey k' = Ok tt -> valid_key k' = true -> k' <> k ->
        fst (get db2 storeName k') = fst (get db storeName k')).
Proof.
  intros Hname Hkey Hvalid Hstore Hpath Hfails db1 db2.
  set (s1 := with_records s (put_record k (sanitizeData r1) (records s))).
  assert (Hdb1 : db1 = set_store storeName s1
                         (place (ReqPut storeName (sanitizeData r1) (Some k)) db)).
  { unfold db1. now rewrite (put_out_of_line db storeName s r1 k). }
  assert (Hstore1 : stores db1 !! storeName = Some s1)
    by (rewrite Hdb1; cbn [set_store stores]; apply lookup_insert_eq).
  assert (Hfails1 : forall q, fails db1 q = false)
    by (intros q; rewrite Hdb1; apply Hfails).
  set (s2 := with_records s1 (put_record k (sanitizeData r2) (records s1))).
  assert (Hput2 : put db1 storeName r2 (Some k)
                  = (Ok tt, set_store storeName s2
                              (place (ReqPut storeName (sanitizeData r2) (Some k)) db1)))
    by (apply put_out_of_line; assumption).
  assert (Hstore2 : stores db2 !! storeName = Some s2)
    by (unfold db2; rewrite Hput2; cbn [snd set_store stores]; apply lookup_insert_eq).
  assert (Hfails2 : forall q, fails db2 q = false)
    by (intros q; unfold db2; rewrite Hput2; apply Hfails1).
  split; [now rewrite Hput2|]. split.
  { rewrite (get_present db2 storeName s2) by assumption.
    unfold s2. cbn [with_records records]. now rewrite lookup_put_record. }
  split.
  { exists s1, s2. repeat split; try assumption.
    unfold s2. cbn [with_records records].
    unfold s1. cbn [with_records records]. apply put_record_length. }
  intros k' Hkey' Hvalid' Hne.
  rewrite (get_present db2 storeName s2), (get_present db storeName s) by assumption.
  unfold s2, s1. cbn [with_records records].
  now rewrite !lookup_put_record_other by assumption.
Qed.

Lemma put_is_upsert_witness :
  fst (get (snd (put (snd (put notes_database "notes" bio_record (Some (VStr "k1"))))
                     "notes" nested_record (Some (VStr "k1"))))
           "notes" (VStr "k1"))
  = Ok (sanitizeData nested_record).
Proof.
  refine (proj1 (proj2 (put_is_upsert notes_database "notes"
                          {| keyPath := None; indexes := []; records := [] |}
                          bio_record nested_record (VStr "k1") _ _ _ _ _ _)));
    reflexivity.
Defined.

(** X11. After [delete], [get] under the same key returns [undefined]
    and not an error, the other keys of the store keep their values, and
    the deletion of a key that is not in the store leaves the stores as
    they were. *)
Theorem delete_then_get
        (db : Database) (storeName : string) (s : ObjectStore) (k : value) :
  validateStoreName storeName = Ok tt ->
  validateKey k = Ok tt ->
  valid_key k = true ->
  stores db !! storeName = Some s ->
  (forall q, fails db q = false) ->
  let db1 := snd (delete db storeName k) in
  fst (delete db storeName k) = Ok tt
  /\ fst (get db1 storeName k) = Ok VUndefined
  /\ (forall k', validateKey k' = Ok tt -> valid_key k' = true -> k' <> k ->
        fst (get db1 storeName k') = fst (get db storeName k'))
  /\ (lookup_record k (records s) = None -> stores db1 = stores db).
Proof.
  intros Hname Hkey Hvalid Hstore Hfails db1.
  assert (Hdel : delete db storeName k
                 = (Ok tt, set_store storeName
                             (with_records s (delete_record k (records s)))
                             (place (ReqDelete storeName k) db))).
  { unfold delete, store_delete, objectStore.
    now rewrite Hname, Hkey, Hstore, Hvalid, Hfails. }
  assert (Hstore1 : stores db1 !! storeName
                    = Some (with_records s (delete_record k (records s))))
    by (unfold db1; rewrite Hdel; cbn [snd set_store stores]; apply lookup_insert_eq).
  assert (Hfails1 : forall q, fails db1 q = false)
    by (intros q; unfold db1; rewrite Hdel; apply Hfails).
  split; [now rewrite Hdel|]. split.
  { rewrite (get_present db1 storeName _ k Hname Hkey Hvalid Hstore1 Hfails1).
    cbn [with_records records]. now rewrite lookup_delete_record. }
  split.
  { intros k' Hkey' Hvalid' Hne.
    rewrite (get_present db1 storeName _ k' Hname Hkey' Hvalid' Hstore1 Hfails1).
    rewrite (get_present db storeName s k' Hname Hkey' Hvalid' Hstore Hfails).
    cbn [with_records records]. now rewrite lookup_delete_record_other. }
  intros Habsent. unfold db1. rewrite Hdel. cbn [snd set_store stores place].
  rewrite (delete_record_absent k _ Habsent), with_records_same.
  now apply insert_id.
Qed.

Lemma delete_then_get_witness :
  fst (get (snd (delete notes_database "notes" (VStr "missing"))) "notes" (VStr "missing"))
  = Ok VUndefined.
Proof.
  refine (proj1 (proj2 (delete_then_get notes_database "notes"
                          {| keyPath := None; indexes := []; records := [] |}
                          (VStr "missing") _ _ _ _ _)));
    reflexivity.
Defined.

Lemma eval_names_valid (v : value) (ps : list string) (ks : list value) :
  eval_names v ps = Some ks -> forallb valid_key ks = true.
Proof.
  revert ks; induction ps as [|p ps IH]; intros ks; cbn [eval_names].
  - intros [= <-]. reflexivity.
  - unfold eval_name. destruct v; try discriminate.
    destruct (lookup_prop p props) as [k|]; [|discriminate].
    destruct (valid_key k) eqn:Hk; [|discriminate].
    destruct (eval_names (VObj props) ps) as [ks'|]; [|discriminate].
    intros [= <-]. cbn [forallb]. now rewrite Hk, (IH ks' eq_refl).
Qed.

Lemma eval_keyPath_valid (kp : KeyPath) (v k : value) :
  eval_keyPath kp v = Some k -> valid_key k = true.
Proof.
  destruct kp as [p|ps]; cbn [eval_keyPath].
  - unfold eval_name. destruct v; try discriminate.
    destruct (lookup_prop p props) as [k'|]; [|discriminate].
    destruct (valid_key k') eqn:Hk; [|discriminate]. now intros [= <-].
  - destruct (eval_names v ps) as [ks|] eqn:E; [|discriminate].
    intros [= <-]. cbn [valid_key]. now apply (eval_names_valid v ps).
Qed.



(** X13. On a store with in-line keys a [put] that is given a key never
    stores anything: it fails, places no request and leaves the database
    as it was. *)
Theorem put_with_key_on_inline_store_fails
        (db : Database) (storeName : string) (s : ObjectStore) (kp : KeyPath)
        (blob k : value) :
  stores db !! storeName = Some s ->
  keyPath s = Some kp ->
  is_ok (fst (put db storeName blob (Some k))) = false
  /\ snd (put db storeName blob (Some k)) = db.
Proof.
  intros Hstore Hpath. unfold put.
  destruct (put_check storeName (Some k)); [|split; reflexivity].
  unfold put_run, store_put, objectStore. rewrite Hstore.
  unfold put_key. rewrite Hpath. split; reflexivity.
Qed.

Lemma put_with_key_on_inline_store_fails_witness :
  is_ok (fst (put empty_database "abstracts"
                  (VObj [("key", VStr "pack")]) (Some (VStr "pack")))) = false
  /\ snd (put empty_database "abstracts" (VObj [("key", VStr "pack")]) (Some (VStr "pack")))
     = empty_database.
Proof.
  apply (put_with_key_on_inline_store_fails empty_database "abstracts"
           {| keyPath := Some (KeyName "key"); indexes := []; records := [] |}
           (KeyName "key"));
    reflexivity.
Defined.

Lemma json_clone_is_json (v c : value) : json_clone v = Some c -> is_json c = true.
Proof.
  revert c.
  induction v as [ | | b | n | s | items IH | props IH | size type ] using value_nested_ind;
    intros c; cbn [json_clone]; try discriminate; try (intros [= <-]; reflexivity).
  - intros [= <-]. cbn [is_json].
    induction IH as [|x xs Hx _ IHxs]; [reflexivity|].
    cbn [map forallb]. rewrite IHxs, andb_true_r.
    destruct (json_clone x) as [x'|]; [now apply Hx | reflexivity].
  - intros [= <-]. cbn [is_json].
    induction IH as [|[k x] ps Hx _ IHps]; [reflexivity|].
    cbn [snd] in Hx. destruct (json_clone x) as [x'|]; [|exact IHps].
    cbn [forallb snd]. now rewrite (Hx x' eq_refl), IHps.
Qed.

Lemma forallb_filter {A} (f p : A -> bool) (l : list A) :
  forallb f l = true -> forallb f (List.filter p l) = true.
Proof.
  induction l as [|x l IH]; [reflexivity|].
  cbn [forallb List.filter]. intros H. apply andb_true_iff in H as [Hx Hl].
  destruct (p x); [cbn [forallb]; now rewrite Hx, IH | now apply IH].
Qed.

Lemma filter_idempotent {A} (p : A -> bool) (l : list A) :
  List.filter p (List.filter p l) = List.filter p l.
Proof.
  induction l as [|x l IH]; [reflexivity|].
  cbn [List.filter]. destruct (p x) eqn:E; [cbn [List.filter]; now rewrite E, IH | exact IH].
Qed.

Lemma sanitizeData_on_json (x : value) :
  is_json x = true ->
  sanitizeData x
  = match x with VObj props => VObj (List.filter not_reserved_name props) | _ => x end.
Proof.
  intros Hj. destruct x; try discriminate; try reflexivity.
  - unfold sanitizeData. now rewrite (json_clone_id _ Hj).
  - now apply sanitizeData_object, json_clone_id.
Qed.

(** X14. What [sanitizeData] returns for a defined value is plain JSON
    data, without [undefined] and without [Blob] or [File] (these become
    empty objects), and sanitizing it again changes nothing. *)
Theorem sanitizeData_json_idempotent (data : value) :
  (data <> VUndefined -> is_json (sanitizeData data) = true)
  /\ sanitizeData (sanitizeData data) = sanitizeData data.
Proof.
  assert (Hjson : data <> VUndefined -> is_json (sanitizeData data) = true).
  { intros Hdef. unfold sanitizeData.
    destruct data; try reflexivity; try congruence.
    - cbn [json_clone]. apply (json_clone_is_json (VArr items)). reflexivity.
    - destruct (json_clone (VObj props)) as [c|] eqn:E; [|discriminate].
      pose proof (json_clone_is_json _ _ E) as Hc.
      destruct c; try exact Hc; try discriminate.
      rewrite delete_reserved_filter. cbn [is_json] in *. now apply forallb_filter. }
  split; [exact Hjson|].
  destruct (value_eqb data VUndefined) eqn:E.
  - apply value_eqb_eq in E. subst. reflexivity.
  - assert (Hdef : data <> VUndefined) by (intros ->; discriminate).
    specialize (Hjson Hdef). rewrite (sanitizeData_on_json _ Hjson).
    destruct (sanitizeData data) eqn:Hs; try reflexivity.
    f_equal. unfold sanitizeData in Hs.
    destruct data; try discriminate; try congruence.
    + destruct (json_clone (VObj props0)) as [c|]; [|discriminate].
      destruct c; try discriminate.
      rewrite delete_reserved_filter in Hs. injection Hs as <-.
      apply filter_idempotent.
    + cbn [json_clone] in Hs. injection Hs as <-. reflexivity.
Qed.

Lemma sanitizeData_json_idempotent_witness :
  is_json (sanitizeData (VObj [("key", VStr "standard"); ("blob", VBlob 2048 "image/png");
                               ("source", VUndefined)])) = true.
Proof.
  apply (proj1 (sanitizeData_json_idempotent
                  (VObj [("key", VStr "standard"); ("blob", VBlob 2048 "image/png");
                         ("source", VUndefined)]))).
  discriminate.
Defined.

(** X15. The reserved-name check of the store recognises [__proto__],
    [constructor] and [prototype] in any capitalisation and nothing
    else: [toString] and [valueOf] are never refused as keys, although
    they are on the list. *)
Theorem validateKey_recognises_three (key : string) :
  is_reserved key = includes RECOGNISED_KEYS (toLowerCase key)
  /\ (validateKey (VStr key) = Ok tt <-> includes RECOGNISED_KEYS (toLowerCase key) = false)
  /\ validateKey (VStr "toString") = Ok tt
  /\ validateKey (VStr "valueOf") = Ok tt.
Proof.
  assert (H : is_reserved key = includes RECOGNISED_KEYS (toLowerCase key)).
  { unfold is_reserved, includes, RESERVED_NAMES, RECOGNISED_KEYS. cbn [existsb].
    rewrite (lower_eqb_fixed key "toString") by discriminate.
    rewrite (lower_eqb_fixed key "valueOf") by discriminate.
    reflexivity. }
  split; [exact H|]. split; [|split; reflexivity].
  cbn [validateKey]. rewrite H.
  destruct (includes RECOGNISED_KEYS (toLowerCase key)); split; intros E;
    try reflexivity; discriminate.
Qed.

(** X16. [clearIndex] never deletes a record whose primary key its key
    validation refuses (a key with a component such as [constructor]):
    whatever the outcome of the call, the record is still in the
    store. *)
Theorem clearIndex_keeps_refused_keys
        (db : Database) (storeName indexName indexQuery : string) (store : ObjectStore)
        (r : value * value) :
  stores db !! storeName = Some store ->
  In r (records store) ->
  is_ok (validateKey (fst r)) = false ->
  exists store',
    stores (snd (clearIndex_run db storeName indexName indexQuery)) !! storeName
    = Some store'
    /\ In r (records store').
Proof.
  intros Hstore Hr Hrefused. unfold clearIndex_run, objectStore. rewrite Hstore.
  destruct (find_index indexName store) as [index|];
    [|exists store; split; [exact Hstore | exact Hr]].
  destruct (fails db (ReqIndexGetAllKeys storeName indexName (VStr indexQuery)));
    [exists store; split; [exact Hstore | exact Hr]|].
  set (validKeys := List.filter _ _).
  destruct (existsb _ validKeys); cbn [wrap snd];
    [exists store; split; [exact Hstore | exact Hr]|].
  eexists. split; [cbn [set_store stores]; apply lookup_insert_eq|].
  cbn [with_records records]. unfold delete_records. apply filter_In.
  split; [exact Hr|]. apply negb_true_iff. apply not_true_is_false.
  intros Hex. apply existsb_exists in Hex as [key [Hin Heq]].
  apply value_eqb_eq in Heq. subst key.
  unfold validKeys in Hin. apply filter_In in Hin as [_ Hok]. congruence.
Qed.

Lemma clearIndex_keeps_refused_keys_witness :
  exists store',
    stores (snd (clearIndex_run
                   {| stores := {[ "images" :=
                                    {| keyPath := Some (KeyNames ["key"; "avatarKey"]);
                                       indexes := [ {| index_name := "avatarKey";
                                                       index_keyPath := KeyName "avatarKey" |} ];
                                       records := [ image_record "constructor" "pack" ] |} ]};
                      fails := fun _ => false; log := [] |}
                   "images" "avatarKey" "pack")) !! "images"
    = Some store'
    /\ In (image_record "constructor" "pack") (records store').
Proof.
  apply (clearIndex_keeps_refused_keys _ "images" "avatarKey" "pack"
           {| keyPath := Some (KeyNames ["key"; "avatarKey"]);
              indexes := [ {| index_name := "avatarKey";
                              index_keyPath := KeyName "avatarKey" |} ];
              records := [ image_record "constructor" "pack" ] |}).
  - reflexivity.
  - left. reflexivity.
  - reflexivity.
Defined.

End RecordProps.

(** ** Opening a database *)

Module OpenProps.
Import DatabaseService DatabaseOpen.

Lemma validateIndexDefinitions_id (storeName : string) (indexes validated : list IndexDefinition) :
  forall indexIndex,
    validateIndexDefinitions storeName indexIndex indexes = Ok validated ->
    validated = indexes.
Proof.
  revert validated. induction indexes as [|i rest IH]; intros validated n; cbn.
  - now intros [= <-].
  - unfold validateIndexDefinition.
    destruct (def_index_name i =? ""); [discriminate|].
    destruct (MAX_INDEX_NAME_LENGTH <? String.length (def_index_name i))%nat; [discriminate|].
    destruct (is_reserved (def_index_name i)); [discriminate|].
    destruct (validateIndexDefinitions storeName (S n) rest) as [rest'|] eqn:E; [|discriminate].
    intros [= <-]. now rewrite (IH rest' (S n) E).
Qed.

Lemma validateStoreDefinition_id (storeDef validated : StoreDefinition) :
  validateStoreDefinition storeDef = Ok validated -> validated = storeDef.
Proof.
  unfold validateStoreDefinition.
  destruct (validateStoreName (def_name storeDef)); [|discriminate].
  destruct storeDef as [n kp [indexes|]]; cbn.
  - destruct (validateIndexDefinitions n 0 indexes) as [v|] eqn:E; [|discriminate].
    apply validateIndexDefinitions_id in E. subst. now intros [= <-].
  - now intros [= <-].
Qed.

Lemma validateStoreDefinitions_id (stores validated : list StoreDefinition) :
  validateStoreDefinitions stores = Ok validated -> validated = stores.
Proof.
  assert (H : forall l v, validateEach l = Ok v -> v = l).
  { induction l as [|d rest IH]; intros v; cbn.
    - now intros [= <-].
    - destruct (validateStoreDefinition d) as [d'|] eqn:E; [|discriminate].
      apply validateStoreDefinition_id in E. subst.
      destruct (validateEach rest) as [rest'|] eqn:E'; [|discriminate].
      intros [= <-]. now rewrite (IH rest' eq_refl). }
  unfold validateStoreDefinitions. destruct stores; [discriminate|]. apply H.
Qed.

Lemma find_index_fresh (name : string) (index : IndexDefinition) (l : list Index) :
  def_index_name index <> name ->
  find (fun i => index_name i =? name) (l ++ [index_of index])
  = find (fun i => index_name i =? name) l.
Proof.
  intros Hne. induction l as [|i l IH]; cbn.
  - destruct (String.eqb_spec (def_index_name index) name); [contradiction|reflexivity].
  - destruct (index_name i =? name); [reflexivity|exact IH].
Qed.

Lemma createIndexes_fresh (engine : Engine) (storeName : string)
      (indexes : list IndexDefinition) :
  forall (stores : gmap string ObjectStore) (store : ObjectStore),
    stores !! storeName = Some store ->
    List.NoDup (map def_index_name indexes) ->
    (forall index, In index indexes -> find_index (def_index_name index) store = None) ->
    forallb (fun index => valid_key_path engine (def_index_keyPath index)) indexes = true ->
    createIndexes engine storeName indexes stores
    = Ok (<[storeName := {| keyPath := keyPath store;
                            indexes := IDB.indexes store ++ map index_of indexes;
                            records := records store |}]> stores).
Proof.
  induction indexes as [|i rest IH]; intros stores store Hstore Hnd Hfresh Hvalid; cbn.
  - rewrite app_nil_r. f_equal. symmetry. apply insert_id.
    rewrite Hstore. now destruct store.
  - cbn [forallb] in Hvalid. apply andb_true_iff in Hvalid as [Hi Hvalid].
    unfold createIndex. rewrite Hstore, (Hfresh i (or_introl eq_refl)), Hi. cbn [negb].
    inversion Hnd as [|? ? Hnotin Hnd']; subst.
    rewrite (IH _ _ (lookup_insert_eq _ _ _) Hnd').
    + cbn. rewrite insert_insert_eq, <- app_assoc. reflexivity.
    + intros j Hj. unfold find_index. cbn [IDB.indexes].
      rewrite find_index_fresh.
      * apply Hfresh. now right.
      * intros Heq. apply Hnotin. rewrite Heq. now apply in_map.
    + exact Hvalid.
Qed.

Lemma onupgradeneeded_fresh (engine : Engine) (defs : list StoreDefinition) :
  forall stores : gmap string ObjectStore,
    List.NoDup (map def_name defs) ->
    (forall d, In d defs -> stores !! def_name d = None) ->
    (forall d, In d defs -> List.NoDup (map def_index_name (declared_indexes d))) ->
    (forall d, In d defs -> key_paths_valid engine d = true) ->
    exists stores',
      onupgradeneeded engine defs stores = Ok stores'
      /\ (forall d, In d defs -> stores' !! def_name d = Some (declared_store d))
      /\ (forall name, ~ In name (map def_name defs) -> stores' !! name = stores !! name).
Proof.
  induction defs as [|d rest IH]; intros stores Hnd Hnew Hidx Hpaths.
  - exists stores. cbn. split; [reflexivity|]. split; [intros d []|reflexivity].
  - inversion Hnd as [|? ? Hnotin Hnd']; subst.
    pose proof (Hpaths d (or_introl eq_refl)) as Hd. unfold key_paths_valid in Hd.
    apply andb_true_iff in Hd as [Hkp Hixs].
    cbn [onupgradeneeded]. unfold createObjectStore.
    assert (Hsyntax : match def_keyPath d with
                      | Some p => negb (valid_key_path engine p)
                      | None => false
                      end = false).
    { destruct (def_keyPath d); [now rewrite Hkp|reflexivity]. }
    rewrite Hsyntax, (Hnew d (or_introl eq_refl)).
    rewrite (createIndexes_fresh
               engine (def_name d) (declared_indexes d) _
               {| keyPath := def_keyPath d; indexes := []; records := [] |}
               (lookup_insert_eq _ _ _)
               (Hidx d (or_introl eq_refl)) (fun _ _ => eq_refl) Hixs).
    cbn [keyPath IDB.indexes records app]. rewrite insert_insert_eq.
    destruct (IH (<[def_name d := declared_store d]> stores) Hnd')
      as (stores' & Hrun & Hdecl & Hother).
    + intros d' Hd'. rewrite lookup_insert_ne.
      * apply Hnew. now right.
      * intros Heq. apply Hnotin. rewrite Heq. now apply in_map.
    + intros d' Hd'. apply Hidx. now right.
    + intros d' Hd'. apply Hpaths. now right.
    + exists stores'. split; [exact Hrun|]. split.
      * intros d' [<-|Hd']; [|now apply Hdecl].
        rewrite (Hother _ Hnotin). apply lookup_insert_eq.
      * intros name Hname. cbn [map In] in Hname.
        rewrite Hother by tauto. apply lookup_insert_ne. tauto.
Qed.

(** X17. Opening a database the factory does not hold yet, with
    accepted definitions whose store names, and index names within a
    store, are pairwise distinct, whose key paths the engine accepts,
    and at a version the engine takes (from 1 to 2^53 - 1, or none):
    the database is created at the requested version (1 when none is
    given), it holds every declared store, with the declared key path
    and indexes and no record, and it holds no other store. *)
Theorem getDatabase_creates_declared_stores
        (engine : Engine) (name : string) (defs : list StoreDefinition)
        (requested : option Z) (factory : Factory) :
  validateDatabaseName name = Ok tt ->
  is_ok (validateStoreDefinitions defs) = true ->
  (forall v, requested = Some v -> (1 <= v <= MAX_SAFE_INTEGER)%Z) ->
  factory !! name = None ->
  List.NoDup (map def_name defs) ->
  (forall d, In d defs -> List.NoDup (map def_index_name (declared_indexes d))) ->
  (forall d, In d defs -> key_paths_valid engine d = true) ->
  exists db,
    getDatabase engine name defs requested factory = (Ok db, <[name := db]> factory)
    /\ version db = match requested with Some v => v | None => 1%Z end
    /\ (forall d, In d defs -> objectStores db !! def_name d = Some (declared_store d))
    /\ (forall other, ~ In other (map def_name defs) -> objectStores db !! other = None).
Proof.
  intros Hname Hdefs Hversion Hnew Hnd Hidx Hpaths. unfold getDatabase. rewrite Hname.
  destruct (validateStoreDefinitions defs) as [validated|] eqn:E; [|discriminate].
  apply validateStoreDefinitions_id in E. subst validated.
  assert (Hv : match requested with Some v => (v <? 1)%Z | None => false end = false).
  { destruct requested as [v|]; [|reflexivity]. apply Z.ltb_ge. now apply Hversion. }
  assert (Hv' : match requested with
                | Some v => (v <? 1)%Z || (MAX_SAFE_INTEGER <? v)%Z
                | None => false
                end = false).
  { destruct requested as [v|]; [|reflexivity].
    destruct (Hversion v eq_refl) as [Hlo Hhi]. apply orb_false_iff.
    split; apply Z.ltb_ge; assumption. }
  rewrite Hv. unfold open. rewrite Hv', Hnew.
  destruct (onupgradeneeded_fresh engine defs ∅ Hnd (fun _ _ => lookup_empty _) Hidx Hpaths)
    as (stores' & Hrun & Hdecl & Hother).
  rewrite Hrun. eexists. split; [reflexivity|]. cbn [version objectStores].
  split; [reflexivity|]. split; [exact Hdecl|].
  intros other Hno. rewrite (Hother other Hno). apply lookup_empty.
Qed.

Lemma getDatabase_creates_declared_stores_witness :
  exists db,
    getDatabase Scenario.plain_engine AvatarsService.DATABASE_NAME avatar_definitions None ∅
    = (Ok db, <[AvatarsService.DATABASE_NAME := db]> ∅)
    /\ version db = 1%Z
    /\ (forall d, In d avatar_definitions ->
          objectStores db !! def_name d = Some (declared_store d))
    /\ (forall other, ~ In other (map def_name avatar_definitions) ->
          objectStores db !! other = None).
Proof.
  apply (getDatabase_creates_declared_stores
           Scenario.plain_engine AvatarsService.DATABASE_NAME avatar_definitions None ∅).
  - reflexivity.
  - reflexivity.
  - discriminate.
  - reflexivity.
  - repeat constructor; cbn; intuition discriminate.
  - intros d [<-|[<-|[]]]; repeat constructor; cbn; intuition discriminate.
  - intros d [<-|[<-|[]]]; reflexivity.
Defined.

(** The stores of the avatar database are those the service's
    definitions create. *)
Lemma avatar_database_stores :
  fst (getDatabase Scenario.plain_engine AvatarsService.DATABASE_NAME avatar_definitions
                   None ∅)
  = Ok {| version := 1; objectStores := AvatarsService.avatar_stores |}.
Proof. vm_compute. reflexivity. Qed.

(** What the engine refuses is not created: a key path it rejects, or a
    version above 2^53 - 1, makes [getDatabase] fail although its own
    checks pass. *)
Lemma getDatabase_engine_refusals :
  is_ok (fst (getDatabase Scenario.plain_engine "db"
                [ {| def_name := "s"; def_keyPath := Some (KeyName "not a key path!");
                     def_indexes := None |} ] None ∅)) = false
  /\ is_ok (fst (getDatabase Scenario.plain_engine "db"
                   [ {| def_name := "s"; def_keyPath := Some (KeyName "key");
                        def_indexes := None |} ]
                   (Some (MAX_SAFE_INTEGER + 1)%Z) ∅)) = false.
Proof. split; vm_compute; reflexivity. Qed.

Lemma createObjectStore_grows (engine : Engine) (name : string) (kp : option KeyPath)
      (stores stores' : gmap string ObjectStore) (other : string) :
  createObjectStore engine name kp stores = Ok stores' ->
  is_Some (stores !! other) -> is_Some (stores' !! other).
Proof.
  unfold createObjectStore.
  destruct (match kp with Some p => negb (valid_key_path engine p) | None => false end);
    [discriminate|].
  destruct (stores !! name) eqn:E; [discriminate|].
  intros [= <-] Hsome. destruct (decide (name = other)) as [->|Hne].
  - rewrite lookup_insert_eq. eauto.
  - now rewrite lookup_insert_ne.
Qed.

Lemma createIndexes_grows (engine : Engine) (storeName : string)
      (indexes : list IndexDefinition) (other : string) :
  forall stores stores' : gmap string ObjectStore,
    createIndexes engine storeName indexes stores = Ok stores' ->
    is_Some (stores !! other) -> is_Some (stores' !! other).
Proof.
  induction indexes as [|i rest IH]; intros stores stores'; cbn.
  - now intros [= <-].
  - unfold createIndex. destruct (stores !! storeName) as [store|] eqn:E; [|discriminate].
    destruct (find_index (def_index_name i) store); [discriminate|].
    destruct (negb (valid_key_path engine (def_index_keyPath i))); [discriminate|].
    intros Hrun Hsome. apply (IH _ _ Hrun).
    destruct (decide (storeName = other)) as [->|Hne].
    + rewrite lookup_insert_eq. eauto.
    + now rewrite lookup_insert_ne.
Qed.

Lemma onupgradeneeded_conflict (engine : Engine) (defs : list StoreDefinition)
      (d : StoreDefinition) :
  forall stores : gmap string ObjectStore,
    In d defs -> is_Some (stores !! def_name d) ->
    exists e, onupgradeneeded engine defs stores = Throw e.
Proof.
  induction defs as [|d0 rest IH]; intros stores Hin Hsome; [destruct Hin|].
  cbn [onupgradeneeded].
  destruct (createObjectStore engine (def_name d0) (def_keyPath d0) stores)
    as [stores1|e] eqn:E1; [|eauto].
  destruct (createIndexes engine (def_name d0) (declared_indexes d0) stores1)
    as [stores2|e] eqn:E2; [|eauto].
  destruct Hin as [->|Hin].
  - unfold createObjectStore in E1. destruct Hsome as [s Hs]. rewrite Hs in E1.
    destruct (match def_keyPath d with
              | Some p => negb (valid_key_path engine p)
              | None => false
              end); discriminate.
  - apply IH; [exact Hin|].
    apply (createIndexes_grows _ _ _ _ _ _ E2), (createObjectStore_grows _ _ _ _ _ _ E1),
      Hsome.
Qed.

(** X18. Once the factory holds a database under a name, [getDatabase]
    creates nothing in it. Without a version, or with the stored one,
    it returns the database as it is, whatever stores are declared; with
    a lower version it fails; and with a higher version it fails as soon
    as one declared store exists already. The factory is unchanged in
    each case. (A stored version is one [open] takes: from 1 to
    2^53 - 1.) *)
Theorem getDatabase_existing_is_never_extended
        (engine : Engine) (name : string) (defs : list StoreDefinition) (factory : Factory)
        (existing : StoredDatabase) :
  validateDatabaseName name = Ok tt ->
  is_ok (validateStoreDefinitions defs) = true ->
  factory !! name = Some existing ->
  (1 <= version existing <= MAX_SAFE_INTEGER)%Z ->
  getDatabase engine name defs None factory = (Ok existing, factory)
  /\ getDatabase engine name defs (Some (version existing)) factory = (Ok existing, factory)
  /\ (forall v, (1 <= v < version existing)%Z ->
        getDatabase engine name defs (Some v) factory = (Throw VersionError, factory))
  /\ (forall v d, (version existing < v)%Z -> In d defs ->
        is_Some (objectStores existing !! def_name d) ->
        exists e, getDatabase engine name defs (Some v) factory = (Throw e, factory)).
Proof.
  intros Hname Hdefs Hheld [Hpos Hmax]. unfold getDatabase. rewrite Hname.
  destruct (validateStoreDefinitions defs) as [validated|] eqn:E; [|discriminate].
  apply validateStoreDefinitions_id in E. subst validated.
  unfold open. rewrite Hheld. split; [reflexivity|]. split; [|split].
  - assert (H1 : (version existing <? 1)%Z = false) by now apply Z.ltb_ge.
    assert (H0 : (MAX_SAFE_INTEGER <? version existing)%Z = false) by now apply Z.ltb_ge.
    now rewrite H1, H0, Z.ltb_irrefl, Z.eqb_refl.
  - intros v [Hlo Hhi].
    assert (H1 : (v <? 1)%Z = false) by now apply Z.ltb_ge.
    assert (H0 : (MAX_SAFE_INTEGER <? v)%Z = false) by (apply Z.ltb_ge; lia).
    assert (H2 : (v <? version existing)%Z = true) by now apply Z.ltb_lt.
    now rewrite H1, H0, H2.
  - intros v d Hhi Hin Hsome.
    assert (H1 : (v <? 1)%Z = false) by (apply Z.ltb_ge; lia).
    rewrite H1. cbn [orb].
    destruct (MAX_SAFE_INTEGER <? v)%Z; [eauto|].
    assert (H2 : (v <? version existing)%Z = false) by (apply Z.ltb_ge; lia).
    assert (H3 : (v =? version existing)%Z = false) by (apply Z.eqb_neq; lia).
    rewrite H2, H3.
    destruct (onupgradeneeded_conflict engine defs d (objectStores existing) Hin Hsome)
      as [e He].
    rewrite He. eauto.
Qed.

Lemma getDatabase_existing_is_never_extended_witness :
  getDatabase Scenario.plain_engine AvatarsService.DATABASE_NAME avatar_definitions None
              (<[AvatarsService.DATABASE_NAME := {| version := 1; objectStores := ∅ |}]> ∅)
  = (Ok {| version := 1; objectStores := ∅ |},
     <[AvatarsService.DATABASE_NAME := {| version := 1; objectStores := ∅ |}]> ∅).
Proof.
  refine (proj1 (getDatabase_existing_is_never_extended
                   Scenario.plain_engine
                   AvatarsService.DATABASE_NAME avatar_definitions
                   (<[AvatarsService.DATABASE_NAME :=
                        {| version := 1; objectStores := ∅ |}]> ∅)
                   {| version := 1; objectStores := ∅ |} _ _ _ _)).
  - reflexivity.
  - reflexivity.
  - reflexivity.
  - cbn. unfold MAX_SAFE_INTEGER. lia.
Defined.

End OpenProps.

(** ** Saving a character *)

Module CharacterProps.
Import DatabaseService DatabaseOpen CharacterEffects.

Lemma json_clone_In (props : list (string * value)) :
  forall (cloned : list (string * value)) (k : string) (x : value),
    json_clone (VObj props) = Some (VObj cloned) ->
    In (k, x) cloned ->
    exists y, In (k, y) props /\ json_clone y = Some x.
Proof.
  induction props as [|[k0 y0] rest IH]; intros cloned k x Hclone Hx.
  - cbn in Hclone. injection Hclone as <-. destruct Hx.
  - cbn [json_clone] in Hclone. injection Hclone as <-.
    destruct (json_clone y0) as [x0|] eqn:E0.
    + destruct Hx as [[= <- <-]|Hx].
      * exists y0. split; [now left|exact E0].
      * destruct (IH _ k x eq_refl Hx) as (y & Hin & Hy).
        exists y. split; [now right|exact Hy].
    + destruct (IH _ k x eq_refl Hx) as (y & Hin & Hy).
      exists y. split; [now right|exact Hy].
Qed.

Lemma lookup_prop_unique (props : list (string * value)) (k : string) (y : value) :
  List.NoDup (map fst props) -> In (k, y) props -> lookup_prop k props = Some y.
Proof.
  induction props as [|[k0 y0] rest IH]; intros Hnd Hin; [destruct Hin|].
  inversion Hnd as [|? ? Hnotin Hnd']; subst. cbn [lookup_prop].
  destruct Hin as [[= -> ->]|Hin].
  - now rewrite String.eqb_refl.
  - destruct (String.eqb_spec k k0) as [->|Hne]; [|now apply IH].
    exfalso. apply Hnotin. change k0 with (fst (k0, y)). now apply in_map.
Qed.

Lemma lookup_filter_some (p : string * value -> bool) (props : list (string * value))
      (k : string) (x : value) :
  lookup_prop k (List.filter p props) = Some x -> In (k, x) props.
Proof.
  intros H. apply IngestProps.lookup_prop_In in H. now apply filter_In in H.
Qed.

(** A record without [key] has no in-line key after [sanitizeData]. *)
Lemma no_key_no_inline_key (props : list (string * value)) :
  List.NoDup (map fst props) ->
  JS.get (VObj props) "key" = VUndefined ->
  eval_name (sanitizeData (VObj props)) "key" = None.
Proof.
  intros Hnd Hget.
  destruct (json_clone (VObj props)) as [c|] eqn:Hclone; [|discriminate].
  assert (exists cloned, c = VObj cloned) as [cloned ->].
  { cbn in Hclone. injection Hclone as <-. eauto. }
  rewrite (StoreProps.sanitizeData_object props cloned Hclone).
  unfold eval_name.
  destruct (lookup_prop "key" (List.filter not_reserved_name cloned)) as [x|] eqn:Hx;
    [|reflexivity].
  exfalso. apply lookup_filter_some in Hx.
  destruct (json_clone_In props cloned "key" x Hclone Hx) as (y & Hin & Hy).
  apply (lookup_prop_unique props "key" y Hnd) in Hin.
  cbn [JS.get] in Hget. rewrite Hin in Hget. subst y. discriminate.
Qed.

(** X19. [saveCharacter] never stores a character and never emits an
    action. The store of the character database has the in-line key path
    [key]: a character with a [key] is put with that key as explicit
    key, which the store refuses, and a character without one has no
    in-line key. Every failure path then calls
    [errorHandler.sanitizeError], which does not exist, so whatever the
    character the stream of the effect fails and the database is as it
    was. *)
Theorem saveCharacter_never_stores (character : value) (db : Database) :
  (forall store, stores db !! STORE_NAME = Some store ->
                 keyPath store = Some (KeyName "key")) ->
  (forall props, character = VObj props -> List.NoDup (map fst props)) ->
  exists error, saveCharacter character db = (Failed error, db).
Proof.
  intros Hschema Hnd. unfold saveCharacter.
  destruct (validateCharacter character) as [validationResult|e] eqn:Hv;
    [|cbn; eauto].
  destruct (characterValid validationResult) eqn:Hvalid; cbn [negb]; [|cbn; eauto].
  destruct (put_check STORE_NAME _) as [[]|e]; [|cbn; eauto].
  unfold put_run, store_put, objectStore.
  destruct (stores db !! STORE_NAME) as [store|] eqn:Hstore; [|cbn; eauto].
  unfold put_key. rewrite (Hschema store eq_refl).
  destruct (optional (JS.get character "key")) as [k|] eqn:Hkey; [cbn; eauto|].
  assert (Hundef : JS.get character "key" = VUndefined).
  { unfold optional in Hkey. now destruct (JS.get character "key"). }
  assert (Hnone : eval_keyPath (KeyName "key") (sanitizeData character) = None).
  { destruct character as [ | | b | n | s | items | props | size type ];
      try reflexivity.
    apply no_key_no_inline_key; [now apply Hnd|exact Hundef]. }
  rewrite Hnone. cbn. eauto.
Qed.

Lemma saveCharacter_never_stores_witness :
  exists error,
    saveCharacter Scenario.ada Scenario.character_database
    = (Failed error, Scenario.character_database).
Proof.
  apply (saveCharacter_never_stores Scenario.ada Scenario.character_database).
  - intros store H. vm_compute in H. injection H as <-. reflexivity.
  - intros props H. injection H as <-. repeat constructor; cbn; intuition discriminate.
Defined.

(** The example character passes [validateCharacter]; it is the [put]
    that fails. *)
Lemma saveCharacter_valid_character_fails :
  validateCharacter Scenario.ada = Ok {| characterValid := true; characterErrors := [] |}
  /\ put Scenario.character_database STORE_NAME Scenario.ada
         (optional (JS.get Scenario.ada "key"))
     = (Throw "Failed to store data in database", Scenario.character_database).
Proof. split; vm_compute; reflexivity. Qed.

End CharacterProps.

(** ** Reading back and partial ingestion *)

Module AvatarProps.
Import SecurityService DatabaseService AvatarsService.

(** X20. An image record put into the image store is what [getImage]
    returns for its avatar key and image key: the composite key
    [getImage] asks for, image key first, is the one the key path of the
    store extracts. *)
Theorem getImage_returns_stored_image
        (w : World) (images : ObjectStore) (record : value) (avatarKey imageKey : string) :
  stores (database w) !! IMAGES_STORE = Some images ->
  keyPath images = Some (KeyNames ["key"; "avatarKey"]) ->
  eval_keyPath (KeyNames ["key"; "avatarKey"]) (sanitizeData record)
  = Some (VArr [VStr imageKey; VStr avatarKey]) ->
  is_reserved imageKey = false ->
  is_reserved avatarKey = false ->
  (forall q, fails (database w) q = false) ->
  isValid (fst (validateString (VStr avatarKey) 64 (regexes w))) = true ->
  isValid (fst (validateString (VStr imageKey) 64
                               (snd (validateString (VStr avatarKey) 64 (regexes w))))) = true ->
  fst (put (database w) IMAGES_STORE record None) = Ok tt
  /\ fst (getImage avatarKey imageKey
                   (with_database (snd (put (database w) IMAGES_STORE record None)) w))
     = Ok (sanitizeData record).
Proof.
  intros Hstore Hpath Heval HimageKey HavatarKey Hfails Hv1 Hv2.
  unfold put, put_check, put_run, store_put, objectStore.
  change (validateStoreName IMAGES_STORE) with (Ok tt).
  rewrite Hstore. unfold put_key. rewrite Hpath, Heval, Hfails.
  cbn [wrap fst snd]. split; [reflexivity|].
  unfold getImage. cbn [with_database regexes].
  destruct (validateString (VStr avatarKey) 64 (regexes w)) as [v1 st1].
  cbn [fst snd] in Hv1, Hv2. rewrite Hv1. cbn [negb with_regex regexes].
  destruct (validateString (VStr imageKey) 64 st1) as [v2 st2].
  cbn [fst] in Hv2. rewrite Hv2. cbn [negb with_regex database].
  assert (Hcheck : get_check IMAGES_STORE (VArr [VStr imageKey; VStr avatarKey]) = Ok tt).
  { unfold get_check. change (validateStoreName IMAGES_STORE) with (Ok tt).
    cbn [validateKey reserved_subkey]. now rewrite HimageKey, HavatarKey. }
  rewrite Hcheck.
  match goal with
  | |- context [get ?db IMAGES_STORE ?k] =>
      pose proof (RecordProps.get_present db IMAGES_STORE
                    (with_records images
                       (put_record k (sanitizeData record) (records images))) k) as Hget;
      destruct (get db IMAGES_STORE k) as [r db'] eqn:G
  end.
  cbn [fst] in Hget. rewrite Hget.
  - cbn [with_records records fst]. now rewrite StoreProps.lookup_put_record.
  - reflexivity.
  - cbn [validateKey reserved_subkey]. now rewrite HimageKey, HavatarKey.
  - apply (RecordProps.eval_keyPath_valid _ _ _ Heval).
  - cbn [set_store stores]. apply lookup_insert_eq.
  - cbn [set_store place fails]. exact Hfails.
Qed.

Lemma getImage_returns_stored_image_witness :
  fst (getImage "pack" "standard"
                (with_database
                   (snd (put Example.empty_database IMAGES_STORE Scenario.stored_image None))
                   Example.fresh_world))
  = Ok (sanitizeData Scenario.stored_image).
Proof.
  refine (proj2 (getImage_returns_stored_image
                   Example.fresh_world
                   {| keyPath := Some (KeyNames ["key"; "avatarKey"]);
                      indexes := [ {| index_name := "avatarKey";
                                      index_keyPath := KeyName "avatarKey" |};
                                   {| index_name := "type";
                                      index_keyPath := KeyNames ["avatarKey"; "type"] |} ];
                      records := [] |}
                   Scenario.stored_image "pack" "standard" _ _ _ _ _ _ _ _));
    reflexivity.
Defined.



(** The same through [ingest]: the manifest passes validation, the
    ingestion is reported as failed, and the abstract is in the store. *)
Lemma ingest_plain_manifest_partial :
  isValid (fst (validateAvatarManifest Example.script_env Scenario.plain_manifest
                                       fresh_regex_state)) = true
  /\ fst (ingest Example.script_env "import" Scenario.plain_manifest None []
                 Example.fresh_world)
     = Throw (handleError "import" None)
  /\ option_map (fun s => lookup_record (VStr "pack") (records s))
                (stores (database (snd (ingest Example.script_env "import"
                                               Scenario.plain_manifest None []
                                               Example.fresh_world)))
                   !! ABSTRACTS_STORE)
     = Some (Some (VObj [ ("key", VStr "pack"); ("description", VStr "A pack") ])).
Proof. repeat split; vm_compute; reflexivity. Qed.

(** X22. An avatar whose key is a reserved name cannot be deleted:
    [delete] clears its images and then fails at the abstract, which
    stays in its store. *)
Theorem delete_reserved_key_always_fails (key : string) (w : World) :
  is_reserved key = true ->
  isValid (fst (validateString (VStr key) 64 (regexes w))) = true ->
  fst (delete key w) = Throw "Failed to delete avatar"
  /\ stores (database (snd (delete key w))) !! ABSTRACTS_STORE
     = stores (database w) !! ABSTRACTS_STORE.
Proof.
  intros Hreserved Hvalid. unfold delete.
  destruct (validateString (VStr key) 64 (regexes w)) as [keyValidation st].
  cbn [fst] in Hvalid. rewrite Hvalid. cbn [negb].
  assert (Hcheck : clearIndex_check IMAGES_STORE "avatarKey" (VStr key) = Ok tt).
  { unfold clearIndex_check. change (validateStoreName IMAGES_STORE) with (Ok tt).
    cbn. destruct key; [discriminate|reflexivity]. }
  rewrite Hcheck. cbn [with_regex database].
  pose proof (DeleteProps.clearIndex_run_frame (database w) IMAGES_STORE "avatarKey" key)
    as (_ & Hother & _).
  destruct (clearIndex_run (database w) IMAGES_STORE "avatarKey" key) as [[[]|e] db] eqn:Hrun;
    cbn [snd] in Hother.
  - unfold DatabaseService.delete.
    change (validateStoreName ABSTRACTS_STORE) with (Ok tt).
    cbn [validateKey]. rewrite Hreserved. cbn [fst snd with_database database].
    split; [reflexivity|]. now apply Hother.
  - cbn [fst snd with_database database]. split; [reflexivity|]. now apply Hother.
Qed.

Lemma delete_reserved_key_always_fails_witness :
  fst (delete "constructor" Example.stocked_world) = Throw "Failed to delete avatar"
  /\ stores (database (snd (delete "constructor" Example.stocked_world))) !! ABSTRACTS_STORE
     = stores (database Example.stocked_world) !! ABSTRACTS_STORE.
Proof.
  apply (delete_reserved_key_always_fails "constructor" Example.stocked_world);
    reflexivity.
Defined.

(** Such an avatar can be ingested: the manifest is accepted and its
    abstract is stored under the reserved key. *)
Lemma reserved_key_avatar_is_ingested :
  fst (ingest Example.script_env "import" Scenario.reserved_manifest None []
              Example.fresh_world) = Ok tt
  /\ option_map (fun s => lookup_record (VStr "constructor") (records s))
                (stores (database (snd (ingest Example.script_env "import"
                                               Scenario.reserved_manifest None []
                                               Example.fresh_world)))
                   !! ABSTRACTS_STORE)
     = Some (Some (VObj [ ("key", VStr "constructor"); ("description", VStr "A pack") ])).
Proof. split; vm_compute; reflexivity. Qed.

End AvatarProps.

(** ** Invariants of the stores *)

Module InvariantProps.
Import DatabaseService Invariants.

Lemma has_key_eq (k : value) (r : value * value) : has_key k r = true <-> fst r = k.
Proof.
  unfold has_key. split.
  - apply RecordProps.value_eqb_eq.
  - intros ->. apply StoreProps.value_eqb_refl.
Qed.

Lemma insert_record_In (k v : value) (rs : list (value * value)) (r : value * value) :
  In r (insert_record k v rs) <-> r = (k, v) \/ In r rs.
Proof.
  induction rs as [|r0 rs IH]; cbn [insert_record].
  - cbn. intuition congruence.
  - destruct (key_compare k (fst r0)); cbn [In]; rewrite ?IH; intuition congruence.
Qed.

Lemma insert_record_keys (k v : value) (rs : list (value * value)) :
  List.NoDup (map fst rs) -> ~ In k (map fst rs) ->
  List.NoDup (map fst (insert_record k v rs)).
Proof.
  induction rs as [|r rs IH]; intros Hnd Hnew; cbn [insert_record].
  - cbn. constructor; [intros []|constructor].
  - destruct (key_compare k (fst r)); try (cbn [map fst]; now constructor).
    inversion Hnd as [|? ? Hnotin Hnd']; subst. cbn [map]. constructor.
    + intros Hin. apply in_map_iff in Hin as (x & Hx & Hin).
      apply insert_record_In in Hin as [->|Hin].
      * apply Hnew. left. exact (eq_sym Hx).
      * apply Hnotin. rewrite <- Hx. now apply in_map.
    + apply IH; [exact Hnd'|]. intros Hin. apply Hnew. now right.
Qed.

Lemma NoDup_map_filter {A B} (f : A -> B) (p : A -> bool) (l : list A) :
  List.NoDup (map f l) -> List.NoDup (map f (List.filter p l)).
Proof.
  induction l as [|a l IH]; cbn; [trivial|].
  intros H. inversion H as [|? ? Hnotin Hnd]; subst.
  destruct (p a); [|now apply IH]. cbn. constructor; [|now apply IH].
  intros Hin. apply Hnotin. apply in_map_iff in Hin as (x & <- & Hx).
  apply filter_In in Hx as [Hx _]. now apply in_map.
Qed.

Lemma delete_record_no_key (k : value) (rs : list (value * value)) :
  ~ In k (map fst (delete_record k rs)).
Proof.
  intros Hin. apply in_map_iff in Hin as (r & Hr & Hin).
  apply filter_In in Hin as [_ Hin]. apply negb_true_iff in Hin.
  apply has_key_eq in Hr. congruence.
Qed.

Lemma store_ok_put (s : ObjectStore) (k v : value) :
  store_ok s -> valid_key k = true ->
  store_ok (with_records s (put_record k v (records s))).
Proof.
  intros [Hnd Hvalid] Hk. unfold put_record. split; cbn [with_records records].
  - apply insert_record_keys; [|apply delete_record_no_key].
    unfold delete_record. now apply NoDup_map_filter.
  - apply List.Forall_forall. intros r Hr.
    apply insert_record_In in Hr as [->|Hr]; [exact Hk|].
    apply filter_In in Hr as [Hr _]. rewrite List.Forall_forall in Hvalid. now apply Hvalid.
Qed.

Lemma store_ok_filter (s : ObjectStore) (p : value * value -> bool) :
  store_ok s -> store_ok (with_records s (List.filter p (records s))).
Proof.
  intros [Hnd Hvalid]. split; cbn [with_records records].
  - now apply NoDup_map_filter.
  - apply List.Forall_forall. intros r Hr. apply filter_In in Hr as [Hr _].
    revert r Hr. now apply List.Forall_forall.
Qed.

Lemma database_ok_set (db db' : Database) (name : string) (s : ObjectStore) :
  database_ok db -> stores db' = stores db -> store_ok s ->
  database_ok (set_store name s db').
Proof.
  intros Hdb Hsame Hs other s'. cbn [set_store stores]. rewrite Hsame.
  destruct (decide (name = other)) as [->|Hne].
  - rewrite lookup_insert_eq. now intros [= <-].
  - rewrite lookup_insert_ne by exact Hne. apply Hdb.
Qed.

Lemma database_ok_same (db db' : Database) :
  database_ok db -> stores db' = stores db -> database_ok db'.
Proof. intros Hdb Hsame name s. rewrite Hsame. apply Hdb. Qed.

Lemma snd_wrap {A} (message : string) (r : Res A * Database) :
  snd (wrap message r) = snd r.
Proof. now destruct r as [[a|e] db]. Qed.

Lemma put_key_valid (s : ObjectStore) (v : value) (key : option value) (k : value) :
  put_key s v key = Some k -> valid_key k = true.
Proof.
  unfold put_key. destruct (keyPath s) as [kp|], key as [k0|]; try discriminate.
  - apply RecordProps.eval_keyPath_valid.
  - destruct (valid_key k0) eqn:E; [|discriminate]. now intros [= <-].
Qed.

(** X23. The write operations keep every store of the database well
    formed: after [put], [delete], [clear] and [clearIndex], with
    whatever arguments and whether they succeed or fail, each store
    still holds at most one record per primary key and only valid
    keys. *)
Theorem writes_keep_database_ok (db : Database) :
  database_ok db ->
  (forall storeName blob key, database_ok (snd (put db storeName blob key)))
  /\ (forall storeName key, database_ok (snd (delete db storeName key)))
  /\ (forall storeName, database_ok (snd (clear db storeName)))
  /\ (forall storeName indexName indexQuery,
        database_ok (snd (clearIndex db storeName indexName indexQuery))).
Proof.
  intros Hdb. split; [|split; [|split]].
  - intros storeName blob key. unfold put.
    destruct (put_check storeName key); [|exact Hdb].
    unfold put_run. rewrite snd_wrap. unfold store_put, objectStore.
    destruct (stores db !! storeName) as [s|] eqn:Hs; [|exact Hdb].
    destruct (put_key s (sanitizeData blob) key) as [k|] eqn:Hk; [|exact Hdb].
    destruct (fails db _); cbn [snd].
    + now apply (database_ok_same db).
    + apply (database_ok_set db); [exact Hdb|reflexivity|].
      apply store_ok_put; [exact (Hdb _ _ Hs)|exact (put_key_valid _ _ _ _ Hk)].
  - intros storeName key. unfold delete.
    destruct (validateStoreName storeName); [|exact Hdb].
    destruct (validateKey key); [|exact Hdb].
    rewrite snd_wrap. unfold store_delete, objectStore.
    destruct (stores db !! storeName) as [s|] eqn:Hs; [|exact Hdb].
    destruct (negb (valid_key key)); [exact Hdb|].
    destruct (fails db _); cbn [snd].
    + now apply (database_ok_same db).
    + apply (database_ok_set db); [exact Hdb|reflexivity|].
      apply store_ok_filter, (Hdb _ _ Hs).
  - intros storeName. unfold clear.
    destruct (validateStoreName storeName); [|exact Hdb].
    rewrite snd_wrap. unfold store_clear, objectStore.
    destruct (stores db !! storeName) as [s|] eqn:Hs; [|exact Hdb].
    destruct (fails db _); cbn [snd].
    + now apply (database_ok_same db).
    + apply (database_ok_set db); [exact Hdb|reflexivity|].
      split; cbn; constructor.
  - intros storeName indexName indexQuery. unfold clearIndex.
    destruct (clearIndex_check storeName indexName indexQuery); [|exact Hdb].
    destruct indexQuery as [ | | | | query | | | ]; try exact Hdb.
    unfold clearIndex_run. rewrite snd_wrap. unfold objectStore.
    destruct (stores db !! storeName) as [s|] eqn:Hs; [|exact Hdb].
    destruct (find_index indexName s); [|exact Hdb].
    destruct (fails db _); cbn [snd]; [now apply (database_ok_same db)|].
    destruct (existsb _ _); cbn [snd]; [now apply (database_ok_same db)|].
    apply (database_ok_set db); [exact Hdb|reflexivity|].
    apply store_ok_filter, (Hdb _ _ Hs).
Qed.

Lemma writes_keep_database_ok_witness :
  database_ok (snd (put Example.empty_database "abstracts"
                        (VObj [("key", VStr "pack")]) None)).
Proof.
  refine (proj1 (writes_keep_database_ok Example.empty_database _)
                "abstracts" (VObj [("key", VStr "pack")]) None).
  intros name s. unfold Example.empty_database, AvatarsService.avatar_stores. cbn [stores].
  intros H. apply lookup_insert_Some in H as [[_ <-]|[_ H]]; [split; cbn; constructor|].
  apply lookup_insert_Some in H as [[_ <-]|[_ H]]; [split; cbn; constructor|].
  now rewrite lookup_empty in H.
Defined.

Lemma lookup_record_unique (rs : list (value * value)) (k v : value) :
  List.NoDup (map fst rs) -> In (k, v) rs -> lookup_record k rs = Some v.
Proof.
  unfold lookup_record.
  induction rs as [|r rest IH]; intros Hnd Hin; [destruct Hin|].
  inversion Hnd as [|? ? Hnotin Hnd']; subst. cbn [find].
  destruct Hin as [->|Hin].
  - assert (E : has_key k (k, v) = true) by now apply has_key_eq.
    now rewrite E.
  - destruct (has_key k r) eqn:E; [|now apply IH].
    apply has_key_eq in E. exfalso. apply Hnotin. rewrite E.
    change k with (fst (k, v)). now apply in_map.
Qed.

(** X24. On a well-formed database [getAllKeys] and [getAll] list the
    same records in the same order, and [get] under the key at a
    position returns the value at that position, for every key
    [validateKey] accepts. *)
Theorem getAllKeys_and_getAll_agree (db : Database) (storeName : string) (s : ObjectStore) :
  database_ok db ->
  validateStoreName storeName = Ok tt ->
  stores db !! storeName = Some s ->
  (forall q, fails db q = false) ->
  exists keys values,
    fst (getAllKeys db storeName) = Ok keys
    /\ fst (getAll db storeName) = Ok values
    /\ length keys = length values
    /\ forall i k v,
        nth_error keys i = Some k -> nth_error values i = Some v ->
        validateKey k = Ok tt ->
        fst (get db storeName k) = Ok v.
Proof.
  intros Hdb Hname Hs Hfails. destruct (Hdb _ _ Hs) as [Hnd Hvalid].
  exists (map fst (records s)), (map snd (records s)).
  unfold getAllKeys, getAll, store_getAllKeys, store_getAll, objectStore.
  rewrite Hname, Hs, !Hfails. cbn [wrap fst].
  split; [reflexivity|]. split; [reflexivity|]. split; [now rewrite !length_map|].
  intros i k v Hk Hv Hkey.
  rewrite nth_error_map in Hk, Hv.
  destruct (nth_error (records s) i) as [[k' v']|] eqn:Hi; [|discriminate].
  cbn in Hk, Hv. injection Hk as ->. injection Hv as ->.
  apply nth_error_In in Hi.
  rewrite (RecordProps.get_present db storeName s k Hname Hkey).
  - now rewrite (lookup_record_unique _ k v Hnd Hi).
  - rewrite List.Forall_forall in Hvalid. exact (Hvalid _ Hi).
  - exact Hs.
  - exact Hfails.
Qed.

Lemma getAllKeys_and_getAll_agree_witness :
  exists keys values,
    fst (getAllKeys (AvatarsService.database Example.stocked_world) "images") = Ok keys
    /\ fst (getAll (AvatarsService.database Example.stocked_world) "images") = Ok values
    /\ length keys = length values
    /\ forall i k v,
        nth_error keys i = Some k -> nth_error values i = Some v ->
        validateKey k = Ok tt ->
        fst (get (AvatarsService.database Example.stocked_world) "images" k) = Ok v.
Proof.
  apply (getAllKeys_and_getAll_agree
           (AvatarsService.database Example.stocked_world) "images"
           {| keyPath := Some (KeyNames ["key"; "avatarKey"]);
              indexes := [ {| index_name := "avatarKey"; index_keyPath := KeyName "avatarKey" |};
                           {| index_name := "type";
                              index_keyPath := KeyNames ["avatarKey"; "type"] |} ];
              records := [ Example.image_record "profile" "test-avatar";
                           Example.image_record "standard" "test-avatar" ] |}).
  - intros name s. cbn [AvatarsService.database Example.stocked_world stores].
    unfold Example.stocked_stores. intros H.
    apply lookup_insert_Some in H as [[_ <-]|[_ H]].
    { split; cbn; repeat constructor; cbn; intuition discriminate. }
    apply lookup_insert_Some in H as [[_ <-]|[_ H]].
    { split; cbn; repeat constructor; cbn; intuition discriminate. }
    now rewrite lookup_empty in H.
  - reflexivity.
  - reflexivity.
  - reflexivity.
Defined.

End InvariantProps.

(** ** The order of the records *)

Module OrderProps.
Import DatabaseService Invariants InvariantProps.

Lemma key_compare_cons (x y : value) (xs ys : list value) :
  key_compare (VArr (x :: xs)) (VArr (y :: ys))
  = match key_compare x y with
    | Eq => key_compare (VArr xs) (VArr ys)
    | c => c
    end.
Proof. reflexivity. Qed.

Lemma valid_key_cons (x : value) (xs : list value) :
  valid_key (VArr (x :: xs)) = true -> valid_key x = true /\ valid_key (VArr xs) = true.
Proof. cbn [valid_key forallb]. apply andb_true_iff. Qed.

Lemma key_compare_antisym (a : value) :
  forall b, valid_key a = true -> valid_key b = true ->
            key_compare b a = CompOpp (key_compare a b).
Proof.
  induction a as [ | | x | x | x | items IH | props IH | size type ]
    using StoreProps.value_nested_ind; intros b Ha Hb; try discriminate Ha.
  - destruct b; try discriminate Hb; try reflexivity. apply Z.compare_antisym.
  - destruct b; try discriminate Hb; try reflexivity. apply String.compare_antisym.
  - destruct b as [ | | | | | ys | | ]; try discriminate Hb; try reflexivity.
    revert ys Hb. induction IH as [|x xs Hx _ IHxs]; intros ys Hb.
    + now destruct ys.
    + destruct ys as [|y ys]; [reflexivity|].
      apply valid_key_cons in Ha as [Hxv Hxsv]. apply valid_key_cons in Hb as [Hyv Hysv].
      rewrite !key_compare_cons, (Hx y Hxv Hyv).
      destruct (key_compare x y); cbn [CompOpp]; try reflexivity.
      now apply IHxs.
Qed.

Lemma key_compare_eq (a : value) :
  forall b, valid_key a = true -> valid_key b = true -> key_compare a b = Eq -> a = b.
Proof.
  induction a as [ | | x | x | x | items IH | props IH | size type ]
    using StoreProps.value_nested_ind; intros b Ha Hb; try discriminate Ha.
  - destruct b; try discriminate Hb; try discriminate. cbn [key_compare].
    intros H. apply Z.compare_eq in H. now subst.
  - destruct b; try discriminate Hb; try discriminate. cbn [key_compare].
    intros H. apply String.compare_eq_iff in H. now subst.
  - destruct b as [ | | | | | ys | | ]; try discriminate Hb; try discriminate.
    revert ys Hb. induction IH as [|x xs Hx _ IHxs]; intros ys Hb.
    + destruct ys; [reflexivity|discriminate].
    + destruct ys as [|y ys]; [discriminate|].
      apply valid_key_cons in Ha as [Hxv Hxsv]. apply valid_key_cons in Hb as [Hyv Hysv].
      rewrite key_compare_cons. destruct (key_compare x y) eqn:E; try discriminate.
      intros H. apply (Hx y Hxv Hyv) in E. subst y.
      apply (IHxs Hxsv ys Hysv) in H. now injection H as ->.
Qed.

Lemma key_compare_refl (a : value) : valid_key a = true -> key_compare a a = Eq.
Proof.
  intros Ha. pose proof (key_compare_antisym a a Ha Ha) as H.
  destruct (key_compare a a); try reflexivity; discriminate.
Qed.

Lemma key_compare_trans (a : value) :
  forall b c, valid_key a = true -> valid_key b = true -> valid_key c = true ->
              key_compare a b = Lt -> key_compare b c = Lt -> key_compare a c = Lt.
Proof.
  induction a as [ | | x | x | x | items IH | props IH | size type ]
    using StoreProps.value_nested_ind; intros b c Ha Hb Hc; try discriminate Ha.
  - destruct b; try discriminate Hb; destruct c; try discriminate Hc;
      cbn [key_compare]; intros H1 H2;
      try discriminate H1; try discriminate H2; try reflexivity.
    rewrite Z.compare_lt_iff in *. lia.
  - destruct b; try discriminate Hb; destruct c; try discriminate Hc;
      cbn [key_compare]; intros H1 H2;
      try discriminate H1; try discriminate H2; try reflexivity.
    exact (@StrictOrder_Transitive _ _ OrdersEx.String_as_OT.lt_strorder _ _ _ H1 H2).
  - destruct b as [ | | | | | ys | | ]; try discriminate Hb;
      destruct c as [ | | | | | zs | | ]; try discriminate Hc;
      try (intros H1 H2; discriminate H1 || discriminate H2).
    revert ys zs Hb Hc. induction IH as [|x xs Hx _ IHxs]; intros ys zs Hb Hc.
    + destruct ys; [discriminate|]. destruct zs; [|reflexivity].
      intros _. discriminate.
    + destruct ys as [|y ys]; [discriminate|]. destruct zs as [|z zs]; [intros _; discriminate|].
      apply valid_key_cons in Ha as [Hxv Hxsv]. apply valid_key_cons in Hb as [Hyv Hysv].
      apply valid_key_cons in Hc as [Hzv Hzsv].
      rewrite !key_compare_cons.
      destruct (key_compare x y) eqn:Exy; try discriminate;
        destruct (key_compare y z) eqn:Eyz; try discriminate; intros H1 H2.
      * apply (key_compare_eq x y Hxv Hyv) in Exy. subst y. rewrite Eyz.
        now apply (IHxs Hxsv ys zs).
      * apply (key_compare_eq x y Hxv Hyv) in Exy. subst y. now rewrite Eyz.
      * apply (key_compare_eq y z Hyv Hzv) in Eyz. subst z. now rewrite Exy.
      * now rewrite (Hx y z Hxv Hyv Hzv Exy Eyz).
Qed.

Lemma Forall_valid_filter (p : value * value -> bool) (rs : list (value * value)) :
  Forall (fun r => valid_key (fst r) = true) rs ->
  Forall (fun r => valid_key (fst r) = true) (List.filter p rs).
Proof.
  intros H. apply List.Forall_forall. intros r Hr. apply filter_In in Hr as [Hr _].
  rewrite List.Forall_forall in H. now apply H.
Qed.

Lemma records_sorted_filter (p : value * value -> bool) (rs : list (value * value)) :
  records_sorted rs -> records_sorted (List.filter p rs).
Proof.
  unfold records_sorted. induction 1 as [|r rs Hs IH Hr]; cbn [List.filter]; [constructor|].
  destruct (p r); [|exact IH]. constructor; [exact IH|].
  apply List.Forall_forall. intros r' Hr'. apply filter_In in Hr' as [Hr' _].
  rewrite List.Forall_forall in Hr. now apply Hr.
Qed.

(** A record put in its place leaves the records in ascending order. *)
Lemma insert_record_sorted (k v : value) (rs : list (value * value)) :
  valid_key k = true ->
  Forall (fun r => valid_key (fst r) = true) rs ->
  ~ In k (map fst rs) ->
  records_sorted rs -> records_sorted (insert_record k v rs).
Proof.
  unfold records_sorted. intros Hk Hvalid Hnew Hsorted.
  induction Hsorted as [|r rs Hs IH Hr]; cbn [insert_record].
  - repeat constructor.
  - inversion Hvalid as [|? ? Hrv Hvalid']; subst.
    assert (Hne : fst r <> k) by (intros E; apply Hnew; left; exact E).
    destruct (key_compare k (fst r)) eqn:E.
    + apply (key_compare_eq k (fst r) Hk Hrv) in E. congruence.
    + constructor; [now constructor|]. constructor; [exact E|].
      apply List.Forall_forall. intros r' Hr'. cbn [fst].
      rewrite List.Forall_forall in Hr, Hvalid'.
      apply (key_compare_trans k (fst r) (fst r') Hk Hrv (Hvalid' _ Hr') E (Hr _ Hr')).
    + constructor.
      * apply IH; [exact Hvalid'|]. intros Hin. apply Hnew. now right.
      * apply List.Forall_forall. intros r' Hr'.
        apply insert_record_In in Hr' as [->|Hr'].
        -- cbn [fst]. rewrite (key_compare_antisym k (fst r) Hk Hrv), E. reflexivity.
        -- rewrite List.Forall_forall in Hr. now apply Hr.
Qed.

Lemma put_record_sorted (k v : value) (rs : list (value * value)) :
  valid_key k = true ->
  Forall (fun r => valid_key (fst r) = true) rs ->
  records_sorted rs -> records_sorted (put_record k v rs).
Proof.
  intros Hk Hvalid Hsorted. unfold put_record, delete_record.
  apply insert_record_sorted.
  - exact Hk.
  - now apply Forall_valid_filter.
  - apply delete_record_no_key.
  - now apply records_sorted_filter.
Qed.

Lemma database_sorted_set (db db' : Database) (name : string) (s : ObjectStore) :
  database_sorted db -> stores db' = stores db -> records_sorted (records s) ->
  database_sorted (set_store name s db').
Proof.
  intros Hdb Hsame Hs other s'. cbn [set_store stores]. rewrite Hsame.
  destruct (decide (name = other)) as [->|Hne].
  - rewrite lookup_insert_eq. now intros [= <-].
  - rewrite lookup_insert_ne by exact Hne. apply Hdb.
Qed.

Lemma database_sorted_same (db db' : Database) :
  database_sorted db -> stores db' = stores db -> database_sorted db'.
Proof. intros Hdb Hsame name s. rewrite Hsame. apply Hdb. Qed.

(** The write operations keep the records of every store in ascending
    order of their keys, so that [getAllKeys], [getAll] and the index
    list them in that order. *)
Lemma writes_keep_database_sorted (db : Database) :
  database_ok db -> database_sorted db ->
  (forall storeName blob key, database_sorted (snd (put db storeName blob key)))
  /\ (forall storeName key, database_sorted (snd (delete db storeName key)))
  /\ (forall storeName, database_sorted (snd (clear db storeName)))
  /\ (forall storeName indexName indexQuery,
        database_sorted (snd (clearIndex db storeName indexName indexQuery))).
Proof.
  intros Hok Hdb. split; [|split; [|split]].
  - intros storeName blob key. unfold put.
    destruct (put_check storeName key); [|exact Hdb].
    unfold put_run. rewrite snd_wrap. unfold store_put, objectStore.
    destruct (stores db !! storeName) as [s|] eqn:Hs; [|exact Hdb].
    destruct (put_key s (sanitizeData blob) key) as [k|] eqn:Hk; [|exact Hdb].
    destruct (fails db _); cbn [snd].
    + now apply (database_sorted_same db).
    + apply (database_sorted_set db); [exact Hdb|reflexivity|].
      cbn [with_records records]. apply put_record_sorted.
      * exact (put_key_valid _ _ _ _ Hk).
      * exact (proj2 (Hok _ _ Hs)).
      * exact (Hdb _ _ Hs).
  - intros storeName key. unfold delete.
    destruct (validateStoreName storeName); [|exact Hdb].
    destruct (validateKey key); [|exact Hdb].
    rewrite snd_wrap. unfold store_delete, objectStore.
    destruct (stores db !! storeName) as [s|] eqn:Hs; [|exact Hdb].
    destruct (negb (valid_key key)); [exact Hdb|].
    destruct (fails db _); cbn [snd].
    + now apply (database_sorted_same db).
    + apply (database_sorted_set db); [exact Hdb|reflexivity|].
      apply records_sorted_filter, (Hdb _ _ Hs).
  - intros storeName. unfold clear.
    destruct (validateStoreName storeName); [|exact Hdb].
    rewrite snd_wrap. unfold store_clear, objectStore.
    destruct (stores db !! storeName) as [s|] eqn:Hs; [|exact Hdb].
    destruct (fails db _); cbn [snd].
    + now apply (database_sorted_same db).
    + apply (database_sorted_set db); [exact Hdb|reflexivity|]. constructor.
  - intros storeName indexName indexQuery. unfold clearIndex.
    destruct (clearIndex_check storeName indexName indexQuery); [|exact Hdb].
    destruct indexQuery as [ | | | | query | | | ]; try exact Hdb.
    unfold clearIndex_run. rewrite snd_wrap. unfold objectStore.
    destruct (stores db !! storeName) as [s|] eqn:Hs; [|exact Hdb].
    destruct (find_index indexName s); [|exact Hdb].
    destruct (fails db _); cbn [snd]; [now apply (database_sorted_same db)|].
    destruct (existsb _ _); cbn [snd]; [now apply (database_sorted_same db)|].
    apply (database_sorted_set db); [exact Hdb|reflexivity|].
    apply records_sorted_filter, (Hdb _ _ Hs).
Qed.

(** On such a database [getAllKeys] lists the keys in ascending order. *)
Lemma getAllKeys_ascending (db : Database) (storeName : string) (keys : list value) :
  database_sorted db ->
  fst (getAllKeys db storeName) = Ok keys ->
  StronglySorted (fun a b => key_compare a b = Lt) keys.
Proof.
  intros Hdb. unfold getAllKeys.
  destruct (validateStoreName storeName); [|discriminate].
  unfold store_getAllKeys, objectStore.
  destruct (stores db !! storeName) as [s|] eqn:Hs; [|discriminate].
  destruct (fails db _); [discriminate|]. cbn [wrap fst]. intros [= <-].
  pose proof (Hdb _ _ Hs) as Hsorted. unfold records_sorted in Hsorted.
  induction Hsorted as [|r rs _ IH Hr]; cbn [map]; constructor; [exact IH|].
  apply List.Forall_forall. intros k Hk. apply in_map_iff in Hk as (r' & <- & Hr').
  rewrite List.Forall_forall in Hr. now apply Hr.
Qed.

End OrderProps.
